(** * Oracle patch downloader: a shallow embedding of [oraclepatchdownloader.py]

    The development follows the module top-down the way the Python class is
    organised: Python values and exceptions, the [hashlib.sha256] digest, the
    verified downloader ([__download_link] and its helpers), the logon
    redirect loop, the description-ledger deduplication, the streaming
    catalogue indexer and the directory-name normaliser. *)

From Stdlib Require Import ZArith Ascii String List Lia.
From stdpp Require Import base option list strings gmap fin_maps.

#[local] Set Warnings "-register-all,-clear-no-such-hyp".
#[local] Open Scope string_scope.
#[local] Open Scope list_scope.
#[local] Open Scope Z_scope.

(** ** Python exceptions raised by the modelled code *)

Inductive Exception : Type :=
  | ChecksumMismatch
  | TypeError
  | AttributeError
  | KeyError
  | UnboundLocalError
  | FileNotFoundError
  | ConnectionError
  | UnicodeDecodeError
  | FileExistsError
  | NotADirectoryError.

#[global] Instance Exception_eq_dec : EqDecision Exception.
Proof. solve_decision. Defined.

(** A computation either raises or returns. *)
Inductive result (A : Type) : Type :=
  | Raise (e : Exception)
  | Return (a : A).
Arguments Raise {A} e.
Arguments Return {A} a.

#[global] Instance result_ret : MRet result := fun _ a => Return a.
#[global] Instance result_fmap : FMap result := fun _ _ f r =>
  match r with
  | Raise e => Raise e
  | Return a => Return (f a)
  end.
#[global] Instance result_bind : MBind result := fun _ _ k r =>
  match r with
  | Raise e => Raise e
  | Return a => k a
  end.

(** ** [hashlib.sha256]

    FIPS 180-4 over 32-bit words held in [Z]; every addition wraps modulo
    2^32. *)

Module SHA256.

Definition wrap (x : Z) : Z := x mod 2 ^ 32.
Definition add32 (x y : Z) : Z := wrap (x + y).
Definition not32 (x : Z) : Z := Z.lxor x 4294967295.
Definition rotr (n x : Z) : Z :=
  Z.lor (Z.shiftr x n) (wrap (Z.shiftl x (32 - n))).
Definition shr (n x : Z) : Z := Z.shiftr x n.

Definition Ch (x y z : Z) : Z := Z.lxor (Z.land x y) (Z.land (not32 x) z).
Definition Maj (x y z : Z) : Z :=
  Z.lxor (Z.lxor (Z.land x y) (Z.land x z)) (Z.land y z).
Definition Sigma0 (x : Z) : Z := Z.lxor (Z.lxor (rotr 2 x) (rotr 13 x)) (rotr 22 x).
Definition Sigma1 (x : Z) : Z := Z.lxor (Z.lxor (rotr 6 x) (rotr 11 x)) (rotr 25 x).
Definition sigma0 (x : Z) : Z := Z.lxor (Z.lxor (rotr 7 x) (rotr 18 x)) (shr 3 x).
Definition sigma1 (x : Z) : Z := Z.lxor (Z.lxor (rotr 17 x) (rotr 19 x)) (shr 10 x).

(** The round constants and the initial hash value are the first 32 bits
    of the fractional parts of the cube roots and of the square roots of
    the first primes. *)
Definition is_prime (p : Z) : bool :=
  forallb (fun d => negb (p mod d =? 0))
          (map Z.of_nat (seq 2 (Z.to_nat p - 2))).

Definition primes : list Z :=
  List.filter is_prime (map Z.of_nat (seq 2 310)).

(** The largest [r] in [lo, hi) with [r ^ 3 <= n], by bisection. *)
Fixpoint cube_root (fuel : nat) (lo hi n : Z) : Z :=
  match fuel with
  | O => lo
  | S fuel' =>
      if hi - lo <=? 1 then lo
      else
        let mid := (lo + hi) / 2 in
        if mid * mid * mid <=? n then cube_root fuel' mid hi n
        else cube_root fuel' lo mid n
  end.

Definition K : list Z :=
  map (fun p => wrap (cube_root 40 0 (2 ^ 36) (p * 2 ^ 96))) (firstn 64 primes).

Definition H0 : list Z :=
  map (fun p => wrap (Z.sqrt (p * 2 ^ 64))) (firstn 8 primes).

(** Big-endian encoding of [x] on [n] bytes. *)
Fixpoint be_bytes (n : nat) (x : Z) : list Z :=
  match n with
  | O => []
  | S n' => (Z.shiftr x (8 * Z.of_nat n')) mod 256 :: be_bytes n' x
  end.

(** The message followed by 0x80, zero bytes up to 56 modulo 64, and the bit
    length on eight bytes. *)
Definition pad (msg : list Z) : list Z :=
  let len := Z.of_nat (length msg) in
  let zeros := Z.to_nat ((55 - len) mod 64) in
  msg ++ [128] ++ repeat 0 zeros ++ be_bytes 8 (8 * len).

Fixpoint be_words (n : nat) (bs : list Z) : list Z :=
  match n, bs with
  | S n', b0 :: b1 :: b2 :: b3 :: rest =>
      (b0 * 16777216 + b1 * 65536 + b2 * 256 + b3) :: be_words n' rest
  | _, _ => []
  end.

Definition word_at (ws : list Z) (i : nat) : Z := nth i ws 0.

(** The message schedule: [n] further words appended to the 16 of the block. *)
Fixpoint schedule (n : nat) (ws : list Z) : list Z :=
  match n with
  | O => ws
  | S n' =>
      let t := length ws in
      let w := add32 (add32 (sigma1 (word_at ws (t - 2))) (word_at ws (t - 7)))
                     (add32 (sigma0 (word_at ws (t - 15))) (word_at ws (t - 16))) in
      schedule n' (ws ++ [w])
  end.

Definition round (v : list Z) (kw : Z * Z) : list Z :=
  match v with
  | [a; b; c; d; e; f; g; h] =>
      let t1 := add32 (add32 (add32 h (Sigma1 e)) (add32 (Ch e f g) (fst kw))) (snd kw) in
      let t2 := add32 (Sigma0 a) (Maj a b c) in
      [add32 t1 t2; a; b; c; add32 d t1; e; f; g]
  | _ => v
  end.

Definition compress (h : list Z) (block : list Z) : list Z :=
  let ws := schedule 48 (be_words 16 block) in
  let v := fold_left round (combine K ws) h in
  map (fun p => add32 (fst p) (snd p)) (combine h v).

Fixpoint blocks (n : nat) (h : list Z) (bs : list Z) : list Z :=
  match n with
  | O => h
  | S n' => blocks n' (compress h (firstn 64 bs)) (skipn 64 bs)
  end.

Definition digest_words (msg : list Z) : list Z :=
  let p := pad msg in
  blocks (Nat.div (length p) 64) H0 p.

Definition hex_digit (d : Z) : ascii :=
  ascii_of_N (Z.to_N (if d <? 10 then 48 + d else 87 + d)).

Fixpoint hex_of (n : nat) (x : Z) : string :=
  match n with
  | O => EmptyString
  | S n' => String (hex_digit ((Z.shiftr x (4 * Z.of_nat n')) mod 16)) (hex_of n' x)
  end.

(** [hashlib.sha256(data).hexdigest()]: 64 lower-case hexadecimal digits. *)
Definition hexdigest (data : list Byte.byte) : string :=
  let msg := map (fun b => Z.of_N (Byte.to_N b)) data in
  fold_right (fun w s => hex_of 8 w +:+ s) EmptyString (digest_words msg).

End SHA256.



(** ** Strings the way the module uses them *)

Definition in_range (lo hi c : ascii) : bool :=
  (N_of_ascii lo <=? N_of_ascii c)%N && (N_of_ascii c <=? N_of_ascii hi)%N.

(** [str.upper()] on the ASCII letters; the module only applies it to
    hexadecimal digests. *)
Definition upper_ascii (c : ascii) : ascii :=
  if in_range "a" "z" c then ascii_of_N (N_of_ascii c - 32) else c.

Fixpoint upper (s : string) : string :=
  match s with
  | EmptyString => EmptyString
  | String c s' => String (upper_ascii c) (upper s')
  end.

(** [os.path.sep] on the platform the tool is run on. *)
Definition sep : string := "/".

(** *** [__extract_file_name_from_url]

    [re.sub] replaces the leftmost non-overlapping matches, scanning from the
    left.  Both patterns are deterministic: [[^.]+] has to stop at the first
    dot, and a path segment has to stop at its slash. *)

Fixpoint strip_literal (lit s : string) : option string :=
  match lit, s with
  | EmptyString, _ => Some s
  | String a lit', String b s' => if Ascii.eqb a b then strip_literal lit' s' else None
  | String _ _, EmptyString => None
  end.

(** Length of the leading run of characters different from the dot. *)
Fixpoint non_dot_run (s : string) : nat :=
  match s with
  | String c s' => if Ascii.eqb c "." then O else S (non_dot_run s')
  | EmptyString => O
  end.

Fixpoint drop_chars (n : nat) (s : string) : string :=
  match n, s with
  | S n', String _ s' => drop_chars n' s'
  | _, _ => s
  end.

(** The class [[A-Za-z0-9-_]]. *)
Definition is_segment_char (c : ascii) : bool :=
  in_range "A" "Z" c || in_range "a" "z" c || in_range "0" "9" c
  || Ascii.eqb c "-" || Ascii.eqb c "_".

(** Number of characters taken by [([A-Za-z0-9-_]+/){0,}]: [done] counts the
    complete segments, [cur] the characters of the segment being read. *)
Fixpoint segments_len (done cur : nat) (s : string) : nat :=
  match s with
  | String c s' =>
      if is_segment_char c then segments_len done (S cur) s'
      else if Ascii.eqb c "/" then
        match cur with
        | O => done
        | S _ => segments_len (done + cur + 1) O s'
        end
      else done
  | EmptyString => done
  end.

(** Length of the match of
    [https://[^.]+\.oracle\.com/([A-Za-z0-9-_]+/){0,}] at the head of [s]. *)
Definition host_prefix_len (s : string) : option nat :=
  match strip_literal "https://" s with
  | None => None
  | Some s1 =>
      match non_dot_run s1 with
      | O => None
      | S k =>
          match strip_literal ".oracle.com/" (drop_chars (S k) s1) with
          | None => None
          | Some s2 => Some (8 + S k + 12 + segments_len O O s2)%nat
          end
      end
  end.

(** [re.sub(pattern, "", s)] for the host pattern; [skip] characters of a
    match are still to be dropped. *)
Fixpoint sub_host_prefix (skip : nat) (s : string) : string :=
  match s with
  | EmptyString => EmptyString
  | String c s' =>
      match skip with
      | S k => sub_host_prefix k s'
      | O =>
          match host_prefix_len s with
          | Some (S k) => sub_host_prefix k s'
          | _ => String c (sub_host_prefix O s')
          end
      end
  end.

Definition newline : ascii := ascii_of_N 10.

(** [.+$] at the head of [s]: one or more characters other than the newline,
    up to the end of the string or to the newline that ends it.  The result
    is what is left after the match. *)
Fixpoint rest_of_line (seen : bool) (s : string) : option string :=
  match s with
  | EmptyString => if seen then Some EmptyString else None
  | String c s' =>
      if Ascii.eqb c newline then
        match s' with
        | EmptyString => if seen then Some s else None
        | _ => None
        end
      else rest_of_line true s'
  end.

(** [re.sub("[?].+$", "", s)]. *)
Fixpoint sub_query (s : string) : string :=
  match s with
  | EmptyString => EmptyString
  | String c s' =>
      if Ascii.eqb c "?" then
        match rest_of_line false s' with
        | Some tl => tl
        | None => String c (sub_query s')
        end
      else String c (sub_query s')
  end.

Definition extract_file_name_from_url (url : string) : string :=
  let file_name := sub_host_prefix O url in
  let file_name := sub_query file_name in
  file_name.


(** ** The verified downloader *)

(** What [requests.get(url, stream=True)] hands back: the [content-length]
    header (already read with [int], when the header is there) and the
    chunks [iter_content(_CHUNK_SIZE)] yields. *)
Record Response : Type := mkResponse {
  content_length : option Z;
  iter_content : list (list Byte.byte)
}.

(** The files below the target directories, by path, with their bytes. *)
Abbreviation Disk := (gmap string (list Byte.byte)).

(** What a call leaves behind: the disk, the values the progress callback
    was called with (oldest first) and the number of body chunks read from
    the network. *)
Record Effects (T : Type) : Type := mkEffects {
  disk : Disk;
  progress_calls : list T;
  body_reads : nat
}.
Arguments mkEffects {T} _ _ _.
Arguments disk {T} _.
Arguments progress_calls {T} _.
Arguments body_reads {T} _.

Definition file_path (target_dir file_name : string) : string :=
  target_dir +:+ sep +:+ file_name.

(** [__check_file_exists] *)
Definition check_file_exists (d : Disk) (target_dir file_name : string)
    (file_size : Z) : bool :=
  match d !! file_path target_dir file_name with
  | Some content =>
      if Z.of_nat (length content) =? file_size then true else false
  | None => false
  end.

Definition hash_chunk_size : nat := Z.to_nat (128 * 1024).

(** The read loop of [__calculate_file_checksum].  [file_hash] holds the
    bytes given to [update] so far, [checked_file] the bytes not yet read;
    an empty chunk ends the loop.  [fuel] bounds the number of reads. *)
Fixpoint hash_loop (fuel : nat) (file_hash checked_file : list Byte.byte)
    : list Byte.byte :=
  match fuel with
  | O => file_hash
  | S fuel' =>
      match take hash_chunk_size checked_file with
      | [] => file_hash
      | file_chunk =>
          hash_loop fuel' (file_hash ++ file_chunk)
                    (drop hash_chunk_size checked_file)
      end
  end.

(** [__calculate_file_checksum]: every read takes at least one byte, so
    one read more than the file has bytes is enough. *)
Definition calculate_file_checksum (d : Disk) (target_dir file_name : string)
    : result string :=
  match d !! file_path target_dir file_name with
  | None => Raise FileNotFoundError
  | Some content =>
      let file_hash := hash_loop (S (length content)) [] content in
      Return (upper (SHA256.hexdigest file_hash))
  end.

(** Truth value of a Python [str] or [None]. *)
Definition truthy (o : option string) : bool :=
  match o with
  | Some (String _ _) => true
  | _ => false
  end.

Section DownloadLink.
(** [T] is what one call of the progress callback leaves to observe. *)
Context {T : Type}.

(** Calling [progress_function(file_name, file_size, total)]; [None] is
    not callable. *)
Definition call_progress (progress_function : option (string -> Z -> Z -> T))
    (file_name : string) (file_size total : Z) (w : Effects T)
    : result unit * Effects T :=
  match progress_function with
  | None => (Raise TypeError, w)
  | Some f =>
      (Return (),
       mkEffects (disk w) (progress_calls w ++ [f file_name file_size total])
                 (body_reads w))
  end.

(** The body of [for chunk in resp_dl.iter_content(_CHUNK_SIZE)]. *)
Fixpoint write_chunks (progress_function : option (string -> Z -> Z -> T))
    (path file_name : string) (file_size : Z) (chunks : list (list Byte.byte))
    (total_dl : Z) (w : Effects T) : result unit * Effects T :=
  match chunks with
  | [] => (Return (), w)
  | chunk :: rest =>
      let total_dl := total_dl + Z.of_nat (length chunk) in
      let written := default [] (disk w !! path) ++ chunk in
      let w := mkEffects (<[path := written]> (disk w)) (progress_calls w)
                         (S (body_reads w)) in
      if negb (file_size =? 0) && bool_decide (is_Some progress_function) then
        match call_progress progress_function file_name file_size total_dl w with
        | (Raise e, w) => (Raise e, w)
        | (Return _, w) =>
            write_chunks progress_function path file_name file_size rest total_dl w
        end
      else write_chunks progress_function path file_name file_size rest total_dl w
  end.

(** [__download_link].  [requests_get] stands for the remote side: the
    response to a GET of the URL, or [None] when [requests] cannot get
    one and raises. *)
Definition download_link (requests_get : string -> option Response)
    (url : string) (oracle_file_checksum : option string)
    (target_dir : string)
    (progress_function : option (string -> Z -> Z -> T))
    (dry_run_mode : bool) (w : Effects T) : result Z * Effects T :=
  let file_name := extract_file_name_from_url url in
  match requests_get url with
  | None => (Raise ConnectionError, w)
  | Some resp_dl =>
      let file_size := default 0 (content_length resp_dl) in
      if dry_run_mode then (Return file_size, w)
      else
        let transferred :=
          if check_file_exists (disk w) target_dir file_name file_size then
            call_progress progress_function file_name file_size file_size w
          else
            let path := file_path target_dir file_name in
            let w := mkEffects (<[path := []]> (disk w)) (progress_calls w)
                               (body_reads w) in
            write_chunks progress_function path file_name file_size
                         (iter_content resp_dl) 0 w in
        match transferred with
        | (Raise e, w) => (Raise e, w)
        | (Return _, w) =>
            match calculate_file_checksum (disk w) target_dir file_name with
            | Raise e => (Raise e, w)
            | Return downloaded_file_checksum =>
                if truthy oracle_file_checksum
                   && negb (bool_decide (oracle_file_checksum
                                         = Some downloaded_file_checksum))
                then (Raise ChecksumMismatch, w)
                else (Return file_size, w)
            end
        end
  end.
End DownloadLink.

(** What the comparison at the end of [__download_link] decides. *)
Definition verdict (oracle_file_checksum : option string)
    (content : list Byte.byte) (file_size : Z) : result Z :=
  if truthy oracle_file_checksum
     && negb (bool_decide (oracle_file_checksum
                           = Some (upper (SHA256.hexdigest content))))
  then Raise ChecksumMismatch
  else Return file_size.

(** [__obtain_sha256_checksum_oracle].  The two [re.search] calls and the
    request are taken as they answer: [search_aru] gives the digits of the
    first [?aru=<digits>] of the URL, [get_digest_form] the text of the
    response for that number ([None] when [requests] raises), and
    [search_sha256] the first 64-digit hexadecimal word of a text. *)
Section ObtainChecksum.
Variable search_aru : string -> option string.
Variable get_digest_form : string -> option string.
Variable search_sha256 : string -> option string.

Definition obtain_sha256_checksum_oracle (url : string) : result string :=
  let checksum := "" in
  match search_aru url with
  | Some aru =>
      match get_digest_form aru with
      | None => Raise ConnectionError
      | Some resp_chksum_text =>
          if bool_decide (resp_chksum_text = "") then Return (upper checksum)
          else
            match search_sha256 resp_chksum_text with
            | Some sha256_match => Return (upper sha256_match)
            | None => Return (upper checksum)
            end
      end
  | None => Return (upper checksum)
  end.
End ObtainChecksum.

(** ** Logon to Oracle Support *)

Module Logon.

(** A response of the login chain: status, the [Location] header when the
    response carries one, and its cookies. *)
Record Response : Type := mkResponse {
  status_code : Z;
  location : option string;
  cookies : gmap string string
}.

(** [RequestsCookieJar.update]: the new cookies win. *)
Definition jar_update (jar new : gmap string string) : gmap string string :=
  new ∪ jar.

(** The variables the [while True] loop works on.  [remote] holds the
    responses the server still has to give, one per request; [requested]
    the URLs asked for so far. *)
Record State : Type := mkState {
  login_response : Response;
  cookie_jar : option (gmap string string);
  status : Z;
  remote : list Response;
  requested : list string
}.

Definition UNAUTHORIZED : Z := 401.
Definition FOUND : Z := 302.
Definition TEMPORARY_REDIRECT : Z := 307.
Definition MOVED_PERMANENTLY : Z := 301.
Definition OK : Z := 200.

(** Where one pass through the loop body ends. *)
Inductive Step : Type :=
  | Break (st : State)
  | Again (st : State)
  | Raised (e : Exception) (st : State).

(** One pass through the body of [while True].  The last branch is
    [logging.fatal], which writes a log record and returns: control falls
    to the end of the body with every variable as it was. *)
Definition loop_body (st : State) : Step :=
  if status st =? UNAUTHORIZED then
    Break (mkState (login_response st) None (status st) (remote st) (requested st))
  else if (status st =? FOUND) || (status st =? TEMPORARY_REDIRECT)
          || (status st =? MOVED_PERMANENTLY) then
    match location (login_response st) with
    | None => Raised KeyError st
    | Some loc =>
        let new_url :=
          if String.prefix "/" loc then "https://updates.oracle.com" +:+ loc
          else loc in
        match remote st with
        | [] => Raised ConnectionError st
        | resp :: rest =>
            match cookie_jar st with
            | None => Raised AttributeError st
            | Some jar =>
                Again (mkState resp (Some (jar_update jar (cookies resp)))
                               (status_code resp) rest
                               (requested st ++ [new_url]))
            end
        end
    end
  else if status st =? OK then
    match cookie_jar st with
    | None => Raised AttributeError st
    | Some jar =>
        Break (mkState (login_response st)
                       (Some (jar_update jar (cookies (login_response st))))
                       (status st) (remote st) (requested st))
    end
  else Again st.

(** The loop, run for at most [fuel] passes; [None] when it is still
    running after them. *)
Fixpoint loop (fuel : nat) (st : State) : option (result unit * State) :=
  match fuel with
  | O => None
  | S fuel' =>
      match loop_body st with
      | Break st' => Some (Return (), st')
      | Raised e st' => Some (Raise e, st')
      | Again st' => loop fuel' st'
      end
  end.

(** [__logon_oracle_support]: 1 when the last response is a 401, else 0. *)
Definition logon_oracle_support (fuel : nat) (server : list Response)
    : option (result Z * option State) :=
  match server with
  | [] => Some (Raise ConnectionError, None)
  | login_response :: rest =>
      let st := mkState login_response (Some (cookies login_response))
                        (status_code login_response) rest
                        ["https://updates.oracle.com/Orion/Services/download"] in
      match loop fuel st with
      | None => None
      | Some (Raise e, st') => Some (Raise e, Some st')
      | Some (Return _, st') =>
          if status_code (Logon.login_response st') =? UNAUTHORIZED
          then Some (Return 1, Some st')
          else Some (Return 0, Some st')
      end
  end.

End Logon.

(** The statuses the loop has a branch for. *)
Definition handled_status (s : Z) : bool :=
  (s =? Logon.UNAUTHORIZED) || (s =? Logon.FOUND) || (s =? Logon.TEMPORARY_REDIRECT)
  || (s =? Logon.MOVED_PERMANENTLY) || (s =? Logon.OK).

(** ** The description ledger *)

Definition carriage_return : ascii := ascii_of_N 13.

(** Reading in text mode: ["\r\n"] and a lone ["\r"] come out as ["\n"].
    The decoder writes the newline when it meets the ["\r"] and, with
    [after_cr] set, drops a ["\n"] that comes right after it. *)
Fixpoint translate_newlines (after_cr : bool) (s : string) : string :=
  match s with
  | EmptyString => EmptyString
  | String c s' =>
      if Ascii.eqb c carriage_return then
        String newline (translate_newlines true s')
      else if Ascii.eqb c newline then
        if after_cr then translate_newlines false s'
        else String newline (translate_newlines false s')
      else String c (translate_newlines false s')
  end.

Definition universal_newlines (s : string) : string :=
  translate_newlines false s.

(** [readlines()]: every line keeps its newline; the last one has none when
    the text does not end in one. *)
Fixpoint readlines (s : string) : list string :=
  match s with
  | EmptyString => []
  | String c s' =>
      if Ascii.eqb c newline then String c EmptyString :: readlines s'
      else
        match readlines s' with
        | [] => [String c EmptyString]
        | line :: lines => String c line :: lines
        end
  end.

(** [sorted(set(lines))]: the distinct lines in ascending order.  Python
    orders [str] by code point, which on UTF-8 text is the order of the
    encoded bytes, the one [String.compare] computes. *)
Fixpoint insert_line (x : string) (l : list string) : list string :=
  match l with
  | [] => [x]
  | y :: l' =>
      match String.compare x y with
      | Lt => x :: l
      | Eq => l
      | Gt => y :: insert_line x l'
      end
  end.

Definition sorted_set (lines : list string) : list string :=
  fold_right insert_line [] lines.

(** [writelines(lines)] on the truncated file. *)
Definition writelines (lines : list string) : string :=
  fold_right String.append EmptyString lines.

(** The strict UTF-8 decoder of [encoding="utf-8"], as the automaton over
    the bytes it reads: where it stands inside a character.  It refuses a
    stray continuation byte, an overlong form, a surrogate, a code point
    above U+10FFFF, and a text that stops inside a character. *)
Inductive Utf8State : Type :=
  | Utf8Start
  | Utf8Tail1
  | Utf8Tail2
  | Utf8Tail3
  | Utf8AfterE0
  | Utf8AfterED
  | Utf8AfterF0
  | Utf8AfterF4.

Definition byte_between (lo hi : N) (c : ascii) : bool :=
  ((lo <=? N_of_ascii c) && (N_of_ascii c <=? hi))%N.

Definition utf8_step (st : Utf8State) (c : ascii) : option Utf8State :=
  match st with
  | Utf8Start =>
      if byte_between 0 127 c then Some Utf8Start
      else if byte_between 194 223 c then Some Utf8Tail1
      else if byte_between 224 224 c then Some Utf8AfterE0
      else if byte_between 237 237 c then Some Utf8AfterED
      else if byte_between 225 239 c then Some Utf8Tail2
      else if byte_between 240 240 c then Some Utf8AfterF0
      else if byte_between 241 243 c then Some Utf8Tail3
      else if byte_between 244 244 c then Some Utf8AfterF4
      else None
  | Utf8Tail1 => if byte_between 128 191 c then Some Utf8Start else None
  | Utf8Tail2 => if byte_between 128 191 c then Some Utf8Tail1 else None
  | Utf8Tail3 => if byte_between 128 191 c then Some Utf8Tail2 else None
  | Utf8AfterE0 => if byte_between 160 191 c then Some Utf8Tail1 else None
  | Utf8AfterED => if byte_between 128 159 c then Some Utf8Tail1 else None
  | Utf8AfterF0 => if byte_between 144 191 c then Some Utf8Tail2 else None
  | Utf8AfterF4 => if byte_between 128 143 c then Some Utf8Tail2 else None
  end.

Fixpoint utf8_run (st : Utf8State) (s : string) : option Utf8State :=
  match s with
  | EmptyString => Some st
  | String c s' =>
      match utf8_step st c with
      | Some st' => utf8_run st' s'
      | None => None
      end
  end.

(** The bytes decode: the decoder ends between two characters. *)
Definition utf8_decodes (content : list Byte.byte) : bool :=
  match utf8_run Utf8Start (string_of_list_byte content) with
  | Some Utf8Start => true
  | _ => false
  end.

(** The body of the [with open(desc_file, "r+t", encoding="utf-8")] block,
    from the bytes of the file to the bytes it is left with.  [readlines]
    raises [UnicodeDecodeError] on bytes that do not decode, before the file
    is truncated.  The decoded text is taken as its UTF-8 bytes, and a
    newline is written as it is, as on the platforms where [os.linesep] is
    the newline. *)
Definition dedup_desc_file (content : list Byte.byte)
    : result (list Byte.byte) :=
  if utf8_decodes content then
    let text := universal_newlines (string_of_list_byte content) in
    let desc_lines_set := sorted_set (readlines text) in
    Return (list_byte_of_string (writelines desc_lines_set))
  else Raise UnicodeDecodeError.

Fixpoint ends_with (suffix s : string) : bool :=
  String.eqb suffix s
  || match s with
     | String _ s' => ends_with suffix s'
     | EmptyString => false
     end.

(** [__remove_duplicate_lines_desc_files], on [desc_file_list], the paths
    the glob yields in the order it yields them.  A path that is no file on
    the disk by the time it is opened makes [open] raise; an exception ends
    the loop, and the files after it in the list are left as they are. *)
Fixpoint remove_duplicate_lines_desc_files (desc_file_list : list string)
    (d : Disk) : result unit * Disk :=
  match desc_file_list with
  | [] => (Return (), d)
  | desc_file :: rest =>
      match d !! desc_file with
      | None => (Raise FileNotFoundError, d)
      | Some content =>
          match dedup_desc_file content with
          | Raise e => (Raise e, d)
          | Return content' =>
              remove_duplicate_lines_desc_files rest (<[desc_file := content']> d)
          end
      end
  end.

(** *** Words for the statements about the ledger *)

(** The text is empty or its last character is a newline. *)
Fixpoint newline_terminated (s : string) : bool :=
  match s with
  | EmptyString => true
  | String c s' =>
      match s' with
      | EmptyString => Ascii.eqb c newline
      | String _ _ => newline_terminated s'
      end
  end.

Fixpoint no_carriage_return (s : string) : bool :=
  match s with
  | EmptyString => true
  | String c s' => negb (Ascii.eqb c carriage_return) && no_carriage_return s'
  end.

(** A line as [readlines] gives it when the text goes on after it: no
    carriage return, and one newline, at its end. *)
Fixpoint is_line (l : string) : bool :=
  match l with
  | EmptyString => false
  | String c l' =>
      if Ascii.eqb c newline then String.eqb l' EmptyString
      else negb (Ascii.eqb c carriage_return) && is_line l'
  end.

(** Each line is below the next one. *)
Fixpoint ascending (l : list string) : Prop :=
  match l with
  | x :: l' =>
      match l' with
      | y :: _ => String.compare x y = Lt
      | [] => True
      end /\ ascending l'
  | [] => True
  end.

(** A file as [print(..., file=desc_file)] leaves it: every line ended. *)
Definition ended_lines (content : list Byte.byte) : Prop :=
  newline_terminated (string_of_list_byte content) = true.

(** A ledger the deduplication leaves as it is. *)
Definition settled (d : Disk) (desc_file : string) : Prop :=
  exists content,
    d !! desc_file = Some content /\ dedup_desc_file content = Return content.

(** ** The streaming catalogue indexer *)

(** An [xml.etree.ElementTree.Element]: tag, attributes, text and children.
    An attribute or text that is not there reads as [None]. *)
Inductive Element : Type := mkElement {
  tag : string;
  attrib : gmap string string;
  text : option string;
  children : list Element
}.

(** [elem.get(key)] *)
Definition get (key : string) (elem : Element) : option string :=
  attrib elem !! key.

(** [elem.find(tag)]: the first child with this tag. *)
Definition find (t : string) (elem : Element) : option Element :=
  List.find (fun child => String.eqb (tag child) t) (children elem).

(** [elem.iterfind("./files/file")] *)
Definition iterfind_files_file (elem : Element) : list Element :=
  flat_map (fun files =>
              List.filter (fun file => String.eqb (tag file) "file") (children files))
           (List.filter (fun child => String.eqb (tag child) "files") (children elem)).

(** [file.find("./digest[@type='SHA-256']")] *)
Definition find_sha256_digest (file : Element) : option Element :=
  List.find (fun child => String.eqb (tag child) "digest"
                          && bool_decide (get "type" child = Some "SHA-256"))
            (children file).

(** [elem.clear()]: the tag stays; attributes, text and children go. *)
Definition clear (elem : Element) : Element :=
  mkElement (tag elem) ∅ None [].

(** A method call or attribute access on what may be [None]. *)
Definition deref {A} (o : option A) : result A :=
  match o with
  | Some a => Return a
  | None => Raise AttributeError
  end.

(** [a + b] on values that are [str] or [None]. *)
Definition str_add (a b : option string) : result string :=
  match a, b with
  | Some a, Some b => Return (a +:+ b)
  | _, _ => Raise TypeError
  end.

Record OraclePatchFile : Type := mkOraclePatchFile {
  download_url : string;
  sha256sum : option string;
  name : option string;
  size : option string
}.

Record OraclePatch : Type := mkOraclePatch {
  uid : option string;
  number : option string;
  platform_code : option string;
  release_name : option string;
  description : option string;
  access_level : option string;
  files : list OraclePatchFile
}.

(** A [collections.Counter]: a key that is not there counts 0. *)
Abbreviation Counter := (gmap string Z).
Definition count (c : Counter) (key : string) : Z := default 0 (c !! key).
Definition add_count (key : string) (n : Z) (c : Counter) : Counter :=
  <[key := count c key + n]> c.

(** Keys and attribute values are Python values that are a [str] or [None]. *)
Abbreviation PyStr := (option string).

(** [recommended_patches]: [(cid, platform)] to the set of patch uids. *)
Abbreviation Recommended := (gmap (PyStr * PyStr) (gset PyStr)).

Fixpoint mapM {A B} (f : A -> result B) (l : list A) : result (list B) :=
  match l with
  | [] => Return []
  | a :: l' => b ← f a; bs ← mapM f l'; Return (b :: bs)
  end.

Section Indexer.
(** [self.__all_platforms] and [self.__db_release_components], both built
    before the recommendations file is read; of the components only the
    keys are consulted. *)
Context {Component : Type}.
Variable all_platforms : gmap PyStr string.
Variable db_release_components : gmap PyStr Component.

Definition is_in {V} (key : PyStr) (m : gmap PyStr V) : bool :=
  bool_decide (is_Some (m !! key)).

(** The [OraclePatchFile(...)] call of the [for file in ...] loop. *)
Definition build_patch_file (file : Element) : result OraclePatchFile :=
  let download_url_tag := find "download_url" file in
  host ← get "host" <$> deref download_url_tag;
  path ← text <$> deref download_url_tag;
  url ← str_add host path;
  digest ← text <$> deref (find_sha256_digest file);
  file_name ← text <$> deref (find "name" file);
  file_size ← text <$> deref (find "size" file);
  Return (mkOraclePatchFile url digest file_name file_size).

(** The branch of [__process_patches_tag] for the end of a [patch] inside
    a [patches] section.  [access_level] is a local of the call: it is
    bound only when the [access] child is there, and reading it unbound
    raises. *)
Definition index_patch (all_db_patches : gmap PyStr OraclePatch)
    (elem : Element) : result (gmap PyStr OraclePatch) :=
  let access_level_tag := find "access" elem in
  let access_level : option PyStr :=
    match access_level_tag with
    | Some t => Some (text t)
    | None => None
    end in
  platform_id ← get "id" <$> deref (find "platform" elem);
  if is_in platform_id all_platforms then
    patch_files ← mapM build_patch_file (iterfind_files_file elem);
    patch_number ← text <$> deref (find "name" elem);
    bug ← deref (find "bug" elem);
    patch_description ← text <$> deref (find "abstract" bug);
    patch_release_name ← get "name" <$> deref (find "release" elem);
    match access_level with
    | None => Raise UnboundLocalError
    | Some access_level =>
        Return (<[get "uid" elem :=
                   mkOraclePatch (get "uid" elem) patch_number platform_id
                                 patch_release_name patch_description
                                 access_level patch_files]> all_db_patches)
    end
  else Return all_db_patches.

(** [__process_patches_tag].  The element comes back as the call leaves
    it, for the handlers that run on the same event after this one.  When
    the call raises it has changed nothing yet: the only raising branch
    is taken on an end event, the branches before it on start events. *)
Definition process_patches_tag (path_counter : Counter)
    (all_db_patches : gmap PyStr OraclePatch) (evt : string) (elem : Element)
    : result (Counter * gmap PyStr OraclePatch * Element) :=
  let path_counter :=
    if String.eqb evt "start" && String.eqb (tag elem) "patches"
    then add_count "patches" 1 path_counter else path_counter in
  let elem :=
    if String.eqb evt "start" && String.eqb (tag elem) "fixed_bugs"
    then clear elem else elem in
  '(all_db_patches, elem) ←
    (if String.eqb evt "end" && (0 <? count path_counter "patches")
        && String.eqb (tag elem) "patch"
     then all_db_patches ← index_patch all_db_patches elem;
          Return (all_db_patches, clear elem)
     else Return (all_db_patches, elem));
  if String.eqb evt "end" && String.eqb (tag elem) "patches"
  then Return (add_count "patches" (-1) path_counter, all_db_patches, clear elem)
  else Return (path_counter, all_db_patches, elem).

(** [for patch in platform: recommended_patches[key].add(patch.get("uid"))] *)
Definition add_patches (key : PyStr * PyStr) (platform : Element)
    (recommended_patches : Recommended) : Recommended :=
  fold_left (fun rp patch => alter (fun uids => {[get "uid" patch]} ∪ uids) key rp)
            (children platform) recommended_patches.

(** [for platform in elem: ...] of the two recommendation handlers. *)
Definition merge_release (component_id : PyStr) (elem : Element)
    (recommended_patches : Recommended) : Recommended :=
  fold_left (fun rp platform =>
               let platform_id := get "id" platform in
               if is_in platform_id all_platforms then
                 let key := (component_id, platform_id) in
                 let rp :=
                   if bool_decide (is_Some (rp !! key)) then rp
                   else <[key := ∅]> rp in
                 add_patches key platform rp
               else rp)
            (children elem) recommended_patches.

(** [__process_standalone_recommendations_tag] *)
Definition process_standalone_recommendations_tag (path_counter : Counter)
    (recommended_patches : Recommended) (evt : string) (elem : Element)
    : Counter * Recommended * Element :=
  let path_counter :=
    if String.eqb evt "start"
       && String.eqb (tag elem) "standalone_recommendations"
    then add_count "standalone_recommendations" 1 path_counter
    else path_counter in
  let '(recommended_patches, elem) :=
    if String.eqb evt "end"
       && (0 <? count path_counter "standalone_recommendations")
       && String.eqb (tag elem) "release"
    then
      (if is_in (get "cid" elem) db_release_components then
         let component_id := get "cid" elem in
         merge_release component_id elem recommended_patches
       else recommended_patches,
       clear elem)
    else (recommended_patches, elem) in
  if String.eqb evt "end"
     && String.eqb (tag elem) "standalone_recommendations"
  then (add_count "standalone_recommendations" (-1) path_counter,
        recommended_patches, clear elem)
  else (path_counter, recommended_patches, elem).

(** [__process_components_recommendations_tag] *)
Definition process_components_recommendations_tag (path_counter : Counter)
    (recommended_patches : Recommended) (evt : string) (elem : Element)
    : Counter * Recommended * Element :=
  let path_counter :=
    if String.eqb evt "start"
       && String.eqb (tag elem) "components_recommendations"
    then add_count "components_recommendations" 1 path_counter
    else path_counter in
  let '(recommended_patches, elem) :=
    if String.eqb evt "end"
       && (0 <? count path_counter "components_recommendations")
       && String.eqb (tag elem) "release"
    then
      (if is_in (get "cid" elem) db_release_components then
         let component_id := get "cid" elem in
         merge_release component_id elem recommended_patches
       else recommended_patches,
       clear elem)
    else (recommended_patches, elem) in
  if String.eqb evt "end"
     && String.eqb (tag elem) "components_recommendations"
  then (add_count "components_recommendations" (-1) path_counter,
        recommended_patches, clear elem)
  else (path_counter, recommended_patches, elem).

(** The three indices [__process_patch_recommendations_file] works on. *)
Record Indices : Type := mkIndices {
  path_counter : Counter;
  all_db_patches : gmap PyStr OraclePatch;
  recommended_db_patches : Recommended
}.

(** The body of the [for evt, elem in iterparse(...)] loop: the three
    handlers in turn, on one and the same element object. *)
Definition process_event (ix : Indices) (event : string * Element)
    : result Indices :=
  let '(evt, elem) := event in
  '(pc, patches, elem) ←
    process_patches_tag (path_counter ix) (all_db_patches ix) evt elem;
  let '(pc, rp, elem) :=
    process_standalone_recommendations_tag pc (recommended_db_patches ix)
                                           evt elem in
  let '(pc, rp, elem) :=
    process_components_recommendations_tag pc rp evt elem in
  Return (mkIndices pc patches rp).

(** The loop over the events.  An event that raises ends the run; the
    indices are then as the events before it left them. *)
Fixpoint process_events (ix : Indices) (events : list (string * Element))
    : option Exception * Indices :=
  match events with
  | [] => (None, ix)
  | event :: rest =>
      match process_event ix event with
      | Raise e => (Some e, ix)
      | Return ix' => process_events ix' rest
      end
  end.

(** [__process_patch_recommendations_file], on the events [iterparse]
    yields: each event with the element as it is when the event is
    yielded. *)
Definition process_patch_recommendations_file
    (events : list (string * Element)) : option Exception * Indices :=
  process_events (mkIndices ∅ ∅ ∅) events.
End Indexer.

(** ** Directory names *)

(** The class [[a-zA-Z0-9_.-]].  A name is taken as its UTF-8 bytes: the
    bytes of a character that is not ASCII are all outside the class, and
    so is the character. *)
Definition is_name_char (c : ascii) : bool :=
  in_range "a" "z" c || in_range "A" "Z" c || in_range "0" "9" c
  || Ascii.eqb c "_" || Ascii.eqb c "." || Ascii.eqb c "-".

(** [re.sub("[^a-zA-Z0-9_.-]+", "_", s)]: scanning from the left, a match
    starts at the first character outside the class and takes all that
    follow it outside the class; [in_match] tells that the scan is inside
    a match whose underscore is already written. *)
Fixpoint sub_other_chars (in_match : bool) (s : string) : string :=
  match s with
  | EmptyString => EmptyString
  | String c s' =>
      if is_name_char c then String c (sub_other_chars false s')
      else if in_match then sub_other_chars true s'
      else String "_" (sub_other_chars true s')
  end.

(** [re.sub("_$", "", s)]: [$] matches at the end of the string and before
    a newline that ends it. *)
Fixpoint sub_underscore_at_end (s : string) : string :=
  match s with
  | EmptyString => EmptyString
  | String c s' =>
      if Ascii.eqb c "_"
         && (String.eqb s' EmptyString || String.eqb s' (String newline EmptyString))
      then sub_underscore_at_end s'
      else String c (sub_underscore_at_end s')
  end.

(** [re.sub("^_", "", s)]: [^] matches at the start of the string only. *)
Definition sub_underscore_at_start (s : string) : string :=
  match s with
  | String c s' => if Ascii.eqb c "_" then s' else s
  | EmptyString => EmptyString
  end.

(** [__normalize_directory_name] *)
Definition normalize_directory_name (orig_name : string) : string :=
  let normalized_name := sub_other_chars false orig_name in
  let normalized_name := sub_underscore_at_end normalized_name in
  let normalized_name := sub_underscore_at_start normalized_name in
  normalized_name.

(** *** The normalisation as the specification words it

    The name is cut into its maximal runs of characters inside and outside
    the class; every run outside becomes one underscore; then one leading
    and one trailing underscore are taken away when they are there. *)

(** The maximal runs of [s], each with the side of the class it is on. *)
Fixpoint runs (s : string) : list (bool * string) :=
  match s with
  | EmptyString => []
  | String c s' =>
      match runs s' with
      | (b, r) :: rest =>
          if Bool.eqb b (is_name_char c) then (b, String c r) :: rest
          else (is_name_char c, String c EmptyString) :: (b, r) :: rest
      | [] => [(is_name_char c, String c EmptyString)]
      end
  end.

Definition replace_run (run : bool * string) : string :=
  if fst run then snd run else "_".

Definition collapse_runs (s : string) : string :=
  fold_right (fun run out => replace_run run +:+ out) EmptyString (runs s).

Definition drop_leading_underscore (s : string) : string :=
  match s with
  | String c s' => if Ascii.eqb c "_" then s' else s
  | EmptyString => s
  end.

Fixpoint drop_trailing_underscore (s : string) : string :=
  match s with
  | EmptyString => EmptyString
  | String c s' =>
      match s' with
      | EmptyString => if Ascii.eqb c "_" then EmptyString else s
      | String _ _ => String c (drop_trailing_underscore s')
      end
  end.

Definition normalize_spec (s : string) : string :=
  drop_leading_underscore (drop_trailing_underscore (collapse_runs s)).


(** The first character of [s] is outside the class. *)
Definition starts_other (s : string) : bool :=
  match s with
  | String c _ => negb (is_name_char c)
  | EmptyString => false
  end.

Fixpoint all_name_chars (s : string) : bool :=
  match s with
  | EmptyString => true
  | String c s' => is_name_char c && all_name_chars s'
  end.

(** *** Words for the statements about the indexer *)

(** Every record of the patch index is for a platform that is wanted. *)
Definition platforms_wanted (all_platforms : gmap PyStr string)
    (patches : gmap PyStr OraclePatch) : Prop :=
  forall patch_uid patch,
    patches !! patch_uid = Some patch ->
    is_Some (all_platforms !! platform_code patch).

(** The uids of the [patch] children of a [platform] element. *)
Definition platform_uids (platform : Element) : gset PyStr :=
  list_to_set (get "uid" <$> children platform).

(** [platform] is a wanted platform and, under [component_id], has [key]. *)
Definition hits (all_platforms : gmap PyStr string) (component_id : PyStr)
    (key : PyStr * PyStr) (platform : Element) : bool :=
  bool_decide (key = (component_id, get "id" platform))
  && bool_decide (is_Some (all_platforms !! get "id" platform)).

(** What a [release] element with these [platform] children has for [key]. *)
Fixpoint added_uids (all_platforms : gmap PyStr string) (component_id : PyStr)
    (key : PyStr * PyStr) (platforms : list Element) : gset PyStr :=
  match platforms with
  | [] => ∅
  | platform :: rest =>
      (if hits all_platforms component_id key platform
       then platform_uids platform else ∅)
      ∪ added_uids all_platforms component_id key rest
  end.

(** One pass of [for platform in elem] of the recommendation handlers. *)
Definition merge_platform (all_platforms : gmap PyStr string)
    (component_id : PyStr) (rp : Recommended) (platform : Element)
    : Recommended :=
  let platform_id := get "id" platform in
  if is_in platform_id all_platforms then
    let key := (component_id, platform_id) in
    let rp := if bool_decide (is_Some (rp !! key)) then rp else <[key := ∅]> rp in
    add_patches key platform rp
  else rp.

(** What a recommendation handler does to the index at the end of a
    [release] of its section. *)
Definition merged {Component : Type} (all_platforms : gmap PyStr string)
    (db_release_components : gmap PyStr Component) (rp : Recommended)
    (elem : Element) : Recommended :=
  if is_in (get "cid" elem) db_release_components
  then merge_release all_platforms (get "cid" elem) elem rp
  else rp.

(** *** A small catalogue for the examples *)

Definition leaf (t : string) (attributes : gmap string string)
    (content : option string) : Element :=
  mkElement t attributes content [].

Definition example_file : Element :=
  mkElement "file" ∅ None
    [ leaf "name" ∅ (Some "p1.zip");
      leaf "size" ∅ (Some "3");
      leaf "download_url" {[ "host" := "https://updates.oracle.com" ]}
           (Some "/Orion/Download/p1.zip");
      leaf "digest" {[ "type" := "SHA-256" ]}
           (Some "ba7816bf8f01cfea414140de5dae2223b00361a396177a9cb410ff61f20015ad") ].

(** A [patch] element of the [patches] section; [access] holds the
    [access] child when the patch has one. *)
Definition example_patch (patch_uid platform_id : string)
    (access : list Element) : Element :=
  mkElement "patch" {[ "uid" := patch_uid ]} None
    ([ leaf "name" ∅ (Some "35943157");
       mkElement "bug" ∅ None
         [ leaf "abstract" ∅ (Some "DATABASE RELEASE UPDATE 19.22.0.0.0") ];
       leaf "platform" {[ "id" := platform_id ]} None;
       leaf "release" {[ "name" := "19.0.0.0.0" ]} None ]
     ++ access
     ++ [ mkElement "files" ∅ None [example_file] ]).

Definition example_access : Element := leaf "access" ∅ (Some "Open access").

(** The platforms that are wanted and the components that are known. *)
Definition example_platforms : gmap PyStr string :=
  {[ Some "P1" := "Linux x86-64" ]}.
Definition example_components : gmap PyStr string :=
  {[ Some "C1" := "Oracle Database" ]}.

(** The events of a [patches] section with a patch for the wanted platform
    and one for another platform. *)
Definition example_patches_events : list (string * Element) :=
  [ ("start", leaf "patches" ∅ None);
    ("end", example_patch "U1" "P1" [example_access]);
    ("end", example_patch "U2" "P2" [example_access]);
    ("end", mkElement "patches" ∅ None
              [ clear (example_patch "U1" "P1" []);
                clear (example_patch "U2" "P2" []) ]) ].

(** [<release cid="C1"><platform id="P1"><patch uid="U1"/><patch uid="U2"/>
    </platform></release>] *)
Definition example_platform : Element :=
  mkElement "platform" {[ "id" := "P1" ]} None
    [ leaf "patch" {[ "uid" := "U1" ]} None;
      leaf "patch" {[ "uid" := "U2" ]} None ].

Definition example_release : Element :=
  mkElement "release" {[ "cid" := "C1" ]} None [ example_platform ].

(** The events of the release inside the section named [section]. *)
Definition example_section_events (section : string)
    : list (string * Element) :=
  [ ("start", leaf section ∅ None);
    ("start", leaf "release" {[ "cid" := "C1" ]} None);
    ("start", leaf "platform" {[ "id" := "P1" ]} None);
    ("start", leaf "patch" {[ "uid" := "U1" ]} None);
    ("end", leaf "patch" {[ "uid" := "U1" ]} None);
    ("start", leaf "patch" {[ "uid" := "U2" ]} None);
    ("end", leaf "patch" {[ "uid" := "U2" ]} None);
    ("end", example_platform);
    ("end", example_release);
    ("end", mkElement section ∅ None [ clear example_release ]) ].

Definition example_recommendation_events : list (string * Element) :=
  example_section_events "standalone_recommendations"
  ++ example_section_events "components_recommendations".

(** ** The patch search: [get_patch_info] and [download_patch_files] *)

(** [elem.iter(tag)]: the element itself and the elements below it, in
    document order, that have this tag. *)
Fixpoint iter (t : string) (elem : Element) : list Element :=
  (if String.eqb (tag elem) t then [elem] else [])
  ++ flat_map (iter t) (children elem).

(** [elem.findall(tag)]: the children with this tag. *)
Definition findall (t : string) (elem : Element) : list Element :=
  List.filter (fun child => String.eqb (tag child) t) (children elem).

(** [elem.attrib[key]] *)
Definition attrib_item (key : string) (elem : Element) : result string :=
  match attrib elem !! key with
  | Some v => Return v
  | None => Raise KeyError
  end.

Module PatchInfo.

(** An entry of the list [get_patch_info] returns. *)
Record Download : Type := mkDownload {
  url : string;
  sha : PyStr;
  name : PyStr
}.

(** [for patch_digest in patch_file.findall("digest")]: [patch_sha] is bound
    anew at every digest of type SHA-256.  It is a local of
    [get_patch_info], [None] while it is not bound. *)
Fixpoint digests_loop (digests : list Element) (patch_sha : option PyStr)
    : result (option PyStr) :=
  match digests with
  | [] => Return patch_sha
  | patch_digest :: rest =>
      digest_type ← attrib_item "type" patch_digest;
      if String.eqb digest_type "SHA-256"
      then digests_loop rest (Some (text patch_digest))
      else digests_loop rest patch_sha
  end.

(** The body of [for patch_file in files.findall("file")]. *)
Definition file_body (patch_file : Element)
    (state : list Download * option PyStr)
    : result (list Download * option PyStr) :=
  let '(downloads, patch_sha) := state in
  patch_download_host ← deref (find "download_url" patch_file)
                        ≫= attrib_item "host";
  patch_download_url ← text <$> deref (find "download_url" patch_file);
  patch_file_name ← text <$> deref (find "name" patch_file);
  patch_sha ← digests_loop (findall "digest" patch_file) patch_sha;
  full_url ← str_add (Some patch_download_host) patch_download_url;
  match patch_sha with
  | None => Raise UnboundLocalError
  | Some digest =>
      Return (downloads ++ [mkDownload full_url digest patch_file_name],
              patch_sha)
  end.

Fixpoint files_loop (patch_files : list Element)
    (state : list Download * option PyStr)
    : result (list Download * option PyStr) :=
  match patch_files with
  | [] => Return state
  | patch_file :: rest => state ← file_body patch_file state; files_loop rest state
  end.

(** The body of [for patch in root.iter("patch")]. *)
Definition patch_body (platform version : string) (patch : Element)
    (state : list Download * option PyStr)
    : result (list Download * option PyStr) :=
  patch_platform ← deref (find "platform" patch) ≫= attrib_item "id";
  patch_version ← deref (find "release" patch) ≫= attrib_item "name";
  if String.eqb patch_platform platform && String.prefix version patch_version
  then
    files ← deref (find "files" patch);
    files_loop (findall "file" files) state
  else Return state.

Fixpoint patches_loop (platform version : string) (patches : list Element)
    (state : list Download * option PyStr)
    : result (list Download * option PyStr) :=
  match patches with
  | [] => Return state
  | patch :: rest =>
      state ← patch_body platform version patch state;
      patches_loop platform version rest state
  end.

(** [get_patch_info], on the parsed answer [root] of the search service. *)
Definition get_patch_info (root : Element) (platform version : string)
    : result (list Download) :=
  fst <$> patches_loop platform version (iter "patch" root) ([], None).

End PatchInfo.

(** [os.path.join(a, b)] *)
Definition os_path_join (a b : string) : string :=
  if String.prefix sep b then b
  else if String.eqb a EmptyString || ends_with sep a then a +:+ b
  else a +:+ sep +:+ b.

Section DownloadPatchFiles.
Context {T Dirs : Type}.
Variable requests_get : string -> option Response.
Variable progress_function : option (string -> Z -> Z -> T).
Variable dry_run_mode : bool.
(** [pathlib.Path(dldir).mkdir(parents=True, exist_ok=True)], taken as it
    answers: from the files and the directories [Dirs] there are, the
    directories there are after it, or the exception it raises. *)
Variable mkdir : string -> Disk -> Dirs -> result Dirs.

(** [for file_to_download in files_to_download] of [download_patch_files]:
    the directory is made before every file, in dry-run mode as well, and
    outside the [try]; a [ChecksumMismatch] of [__download_link] is logged
    and the loop goes on, without the size of that file; any other
    exception ends the call. *)
Fixpoint download_files_loop (dldir : string)
    (files_to_download : list PatchInfo.Download) (bytes_downloaded : Z)
    (w : Effects T) (dirs : Dirs) : result Z * Effects T * Dirs :=
  match files_to_download with
  | [] => (Return bytes_downloaded, w, dirs)
  | file_to_download :: rest =>
      match mkdir dldir (disk w) dirs with
      | Raise e => (Raise e, w, dirs)
      | Return dirs =>
          match download_link requests_get (PatchInfo.url file_to_download)
                              (PatchInfo.sha file_to_download) dldir
                              progress_function dry_run_mode w with
          | (Return file_size, w) =>
              download_files_loop dldir rest (bytes_downloaded + file_size) w dirs
          | (Raise ChecksumMismatch, w) =>
              download_files_loop dldir rest bytes_downloaded w dirs
          | (Raise e, w) => (Raise e, w, dirs)
          end
      end
  end.

(** [download_patch_files]; [search] is the parsed answer of the search
    service for the patch number, [None] when [requests] raises. *)
Definition download_patch_files (search : string -> option Element)
    (target_dir number platform version subdir : string) (w : Effects T)
    (dirs : Dirs) : result Z * Effects T * Dirs :=
  let dldir := os_path_join target_dir subdir in
  match search number with
  | None => (Raise ConnectionError, w, dirs)
  | Some root =>
      match PatchInfo.get_patch_info root platform version with
      | Raise e => (Raise e, w, dirs)
      | Return files_to_download =>
          download_files_loop dldir files_to_download 0 w dirs
      end
  end.

(** [mkdir] on the same directory and the same files, [n] times over. *)
Fixpoint mkdir_times (n : nat) (dldir : string) (d : Disk) (dirs : Dirs)
    : result Dirs :=
  match n with
  | O => Return dirs
  | S n' => dirs ← mkdir dldir d dirs; mkdir_times n' dldir d dirs
  end.
End DownloadPatchFiles.

(** A [mkdir] for the examples: the directories are the list of those
    made, the last one first. *)
Definition example_mkdir (dldir : string) (d : Disk) (dirs : list string)
    : result (list string) :=
  Return (dldir :: dirs).

(** ** The platform codes: [list_platforms] and [__build_dict_platform_codes] *)

Section Platforms.
(** [str.strip()], which takes away the white space of Unicode at both
    ends, is taken as it answers. *)
Variable strip : string -> string.

(** [tag.text.strip()] *)
Definition stripped_text (platform_tag : Element) : result string :=
  strip <$> deref (text platform_tag).

(** [aru_platforms_doc_root.iterfind("./platform")] *)
Definition iterfind_platform (root : Element) : list Element :=
  List.filter (fun child => String.eqb (tag child) "platform") (children root).

(** The dict comprehension of [list_platforms], one tag after the other;
    a key met again gets the later value. *)
Fixpoint all_platform_codes (tags : list Element) (platforms : gmap PyStr string)
    : result (gmap PyStr string) :=
  match tags with
  | [] => Return platforms
  | platform_tag :: rest =>
      platform_name ← stripped_text platform_tag;
      all_platform_codes rest (<[get "id" platform_tag := platform_name]> platforms)
  end.

(** [list_platforms], on the root of [aru_platforms.xml]. *)
Definition list_platforms (root : Element) : result (gmap PyStr string) :=
  all_platform_codes (iterfind_platform root) ∅.

(** The dict comprehension of [__build_dict_platform_codes]: the condition
    is looked at first, for every tag. *)
Fixpoint wanted_platform_codes (wanted_platforms : list string)
    (tags : list Element) (platforms : gmap PyStr string)
    : result (gmap PyStr string) :=
  match tags with
  | [] => Return platforms
  | platform_tag :: rest =>
      platform_name ← stripped_text platform_tag;
      if bool_decide (platform_name ∈ wanted_platforms) then
        platform_name ← stripped_text platform_tag;
        wanted_platform_codes wanted_platforms rest
          (<[get "id" platform_tag := platform_name]> platforms)
      else wanted_platform_codes wanted_platforms rest platforms
  end.

(** [__build_dict_platform_codes], giving [self.__all_platforms]. *)
Definition build_dict_platform_codes (wanted_platforms : list string)
    (root : Element) : result (gmap PyStr string) :=
  wanted_platform_codes wanted_platforms (iterfind_platform root) ∅.
End Platforms.

(** [str.strip()] on ASCII text, for the examples. *)
Definition is_ascii_space (c : ascii) : bool :=
  in_range (ascii_of_N 9) (ascii_of_N 13) c
  || in_range (ascii_of_N 28) (ascii_of_N 32) c.

Fixpoint lstrip_ascii (s : string) : string :=
  match s with
  | String c s' => if is_ascii_space c then lstrip_ascii s' else s
  | EmptyString => EmptyString
  end.

Fixpoint rstrip_ascii (s : string) : string :=
  match s with
  | String c s' =>
      match rstrip_ascii s' with
      | EmptyString => if is_ascii_space c then EmptyString else String c EmptyString
      | r => String c r
      end
  | EmptyString => EmptyString
  end.

Definition strip_ascii (s : string) : string := rstrip_ascii (lstrip_ascii s).

(** ** Words for the further statements *)

(** The characters of an upper-case hexadecimal digest. *)
Definition is_upper_hex (c : ascii) : bool :=
  in_range "0" "9" c || in_range "A" "F" c.

Fixpoint all_chars (P : ascii -> bool) (s : string) : bool :=
  match s with
  | EmptyString => true
  | String c s' => P c && all_chars P s'
  end.

(** A digest as [__calculate_file_checksum] gives it. *)
Definition is_upper_digest (s : string) : bool :=
  (String.length s =? 64)%nat && all_chars is_upper_hex s.

(** The byte counts after each chunk, starting from [total_dl]. *)
Fixpoint running_totals (total_dl : Z) (chunks : list (list Byte.byte)) : list Z :=
  match chunks with
  | [] => []
  | chunk :: rest =>
      (total_dl + Z.of_nat (length chunk))
      :: running_totals (total_dl + Z.of_nat (length chunk)) rest
  end.

(** [new_url] of a redirect of the logon. *)
Definition resolve_location (loc : string) : string :=
  if String.prefix "/" loc then "https://updates.oracle.com" +:+ loc else loc.

(** A response the logon follows: a redirect status and a [Location]. *)
Definition redirect_target (resp : Logon.Response) : option string :=
  if (Logon.status_code resp =? Logon.FOUND)
     || (Logon.status_code resp =? Logon.TEMPORARY_REDIRECT)
     || (Logon.status_code resp =? Logon.MOVED_PERMANENTLY)
  then Logon.location resp else None.

(** The cookies of the responses, each one over those before it. *)
Definition cookies_in_order (responses : list Logon.Response)
    : gmap string string :=
  fold_left (fun jar resp => Logon.jar_update jar (Logon.cookies resp))
            responses ∅.

(** The first request of the logon. *)
Definition LOGIN_URL : string :=
  "https://updates.oracle.com/Orion/Services/download".

(** Every key of the recommendation index is a known component with a
    wanted platform. *)
Definition recommendations_known {Component : Type}
    (all_platforms : gmap PyStr string)
    (db_release_components : gmap PyStr Component) (rp : Recommended) : Prop :=
  forall component_id platform_id uids,
    rp !! (component_id, platform_id) = Some uids ->
    is_Some (db_release_components !! component_id)
    /\ is_Some (all_platforms !! platform_id).

(** The index [rp'] has every key of [rp], with at least its uids. *)
Definition recommendations_grow (rp rp' : Recommended) : Prop :=
  forall key uids,
    rp !! key = Some uids -> exists uids', rp' !! key = Some uids' /\ uids ⊆ uids'.

(** Every record of the patch index is stored under its own uid. *)
Definition keyed_by_uid (patches : gmap PyStr OraclePatch) : Prop :=
  forall key patch, patches !! key = Some patch -> uid patch = key.

(** The number of events [evt] on elements with the tag [t]. *)
Definition count_events (evt t : string) (events : list (string * Element)) : Z :=
  Z.of_nat (length (List.filter (fun event : string * Element =>
                                   String.eqb (fst event) evt
                                   && String.eqb (tag (snd event)) t) events)).

(** The directories of a URL path, each followed by its slash. *)
Definition directories (dirs : list string) : string :=
  fold_right (fun dir path => dir +:+ "/" +:+ path) EmptyString dirs.

(** A query of a URL: nothing, or a question mark and at least one
    character, none of them a newline. *)
Definition is_query (s : string) : bool :=
  match s with
  | EmptyString => true
  | String c q =>
      Ascii.eqb c "?" && negb (String.eqb q EmptyString)
      && all_chars (fun c => negb (Ascii.eqb c newline)) q
  end.

Definition no_slash (s : string) : bool :=
  all_chars (fun c => negb (Ascii.eqb c "/")) s.

(** A logon chain for the examples: a relative redirect, an absolute one,
    and the last response with the [status] given. *)
Definition example_login_chain : list Logon.Response :=
  [ Logon.mkResponse 302 (Some "/Orion/Services/download?step=2")
                     {[ "ORA_SESSION" := "first" ]};
    Logon.mkResponse 307 (Some "https://login.oracle.com/oam/server/sso")
                     {[ "OAM_ID" := "abc" ]} ].

Definition example_login_last (status : Z) : Logon.Response :=
  Logon.mkResponse status None {[ "ORA_SESSION" := "last" ]}.

(** What an event on an element with the tag [t] adds to the counter of
    the section [section]. *)
Definition section_delta (section evt t : string) : Z :=
  (if String.eqb evt "start" && String.eqb t section then 1 else 0)
  - (if String.eqb evt "end" && String.eqb t section then 1 else 0).

(** The sections the handlers count. *)
Definition SECTIONS : list string :=
  [ "patches"; "standalone_recommendations"; "components_recommendations" ].

(** A digest element of another type than SHA-256. *)
Definition other_digest (patch_digest : Element) : Prop :=
  exists digest_type,
    attrib patch_digest !! "type" = Some digest_type
    /\ digest_type <> "SHA-256".

(** The entry [download] is the one of the [file] element [patch_file]:
    its URL is the host and the path of the [download_url] child, its name
    the text of the [name] child. *)
Definition describes (download : PatchInfo.Download) (patch_file : Element)
    : Prop :=
  exists download_url_tag host path name_tag,
    find "download_url" patch_file = Some download_url_tag
    /\ attrib download_url_tag !! "host" = Some host
    /\ text download_url_tag = Some path
    /\ find "name" patch_file = Some name_tag
    /\ PatchInfo.url download = host +:+ path
    /\ PatchInfo.name download = text name_tag.

(** The patch is for [platform] and its release name starts with
    [version]. *)
Definition patch_selected (platform version : string) (patch : Element) : bool :=
  match find "platform" patch, find "release" patch with
  | Some platform_tag, Some release_tag =>
      match attrib platform_tag !! "id", attrib release_tag !! "name" with
      | Some patch_platform, Some patch_version =>
          String.eqb patch_platform platform
          && String.prefix version patch_version
      | _, _ => false
      end
  | _, _ => false
  end.

(** The [file] elements of the selected patches, in document order. *)
Definition selected_files (root : Element) (platform version : string)
    : list Element :=
  flat_map (fun patch =>
              if patch_selected platform version patch
              then from_option (findall "file") [] (find "files" patch)
              else [])
           (iter "patch" root).

(** An answer of the search service for the examples: one patch with two
    files, the second of them without a SHA-256 digest. *)
Definition example_search_file (file_name : string) (digests : list Element)
    : Element :=
  mkElement "file" ∅ None
    ([ leaf "name" ∅ (Some file_name);
       leaf "download_url" {[ "host" := "https://updates.oracle.com" ]}
            (Some ("/Orion/Download/" +:+ file_name)) ]
     ++ digests).

Definition example_search_root : Element :=
  mkElement "results" ∅ None
    [ mkElement "patch" ∅ None
        [ leaf "platform" {[ "id" := "226" ]} None;
          leaf "release" {[ "name" := "19.0.0.0.0" ]} None;
          mkElement "files" ∅ None
            [ example_search_file "p1.zip"
                [ leaf "digest" {[ "type" := "SHA-1" ]} (Some "0A");
                  leaf "digest" {[ "type" := "SHA-256" ]} (Some "AA") ];
              example_search_file "p2.zip"
                [ leaf "digest" {[ "type" := "SHA-1" ]} (Some "0B") ] ] ] ].

(** The [digest] children of a [file] element that have the type SHA-256,
    the ones that bind [patch_sha]. *)
Definition sha256_digests (patch_file : Element) : list Element :=
  List.filter (fun patch_digest =>
                 bool_decide (attrib patch_digest !! "type" = Some "SHA-256"))
              (findall "digest" patch_file).

(** An answer with two patches: the only file of the second has no SHA-256
    digest. *)
Definition example_search_two_patches : Element :=
  mkElement "results" ∅ None
    [ mkElement "patch" ∅ None
        [ leaf "platform" {[ "id" := "226" ]} None;
          leaf "release" {[ "name" := "19.0.0.0.0" ]} None;
          mkElement "files" ∅ None
            [ example_search_file "p1.zip"
                [ leaf "digest" {[ "type" := "SHA-256" ]} (Some "AA") ] ] ];
      mkElement "patch" ∅ None
        [ leaf "platform" {[ "id" := "226" ]} None;
          leaf "release" {[ "name" := "19.3.0.0.0" ]} None;
          mkElement "files" ∅ None
            [ example_search_file "p3.zip"
                [ leaf "digest" {[ "type" := "SHA-1" ]} (Some "0C") ] ] ] ].

(** The size the server declares for a URL, 0 without the header. *)
Definition declared_size (requests_get : string -> option Response)
    (url : string) : Z :=
  match requests_get url with
  | Some resp => default 0 (content_length resp)
  | None => 0
  end.

(** The declared sizes of the files of a list, added up. *)
Definition declared_total (requests_get : string -> option Response)
    (files : list PatchInfo.Download) : Z :=
  fold_right (fun file total => declared_size requests_get (PatchInfo.url file) + total)
             0 files.

(** The server answers for every file of the list. *)
Definition all_answered (requests_get : string -> option Response)
    (files : list PatchInfo.Download) : Prop :=
  Forall (fun file => is_Some (requests_get (PatchInfo.url file))) files.

(** The root of an [aru_platforms.xml] for the examples. *)
Definition example_platforms_root : Element :=
  mkElement "platforms" ∅ None
    [ leaf "platform" {[ "id" := "226" ]} (Some " Linux x86-64 ");
      leaf "platform" {[ "id" := "233" ]} (Some "Microsoft Windows x64 (64-bit)");
      leaf "comment" ∅ None;
      leaf "platform" {[ "id" := "23" ]} (Some "Oracle Solaris on SPARC (64-bit)") ].

(** The entries of the platform codes whose name is wanted. *)
Definition wanted_entry (wanted_platforms : list string)
    (entry : PyStr * string) : Prop :=
  entry.2 ∈ wanted_platforms.

#[global] Instance wanted_entry_dec wanted_platforms entry :
  Decision (wanted_entry wanted_platforms entry).
Proof. unfold wanted_entry. apply _. Defined.

(** * Properties *)

(** ** The digest on the test vectors of FIPS 180-4 *)

Example sha256_test_vectors :
  SHA256.hexdigest []
  = "e3b0c44298fc1c149afbf4c8996fb92427ae41e4649b934ca495991b7852b855"
  /\ SHA256.hexdigest (list_byte_of_string "abc")
     = "ba7816bf8f01cfea414140de5dae2223b00361a396177a9cb410ff61f20015ad"
  /\ SHA256.hexdigest
       (list_byte_of_string "abcdbcdecdefdefgefghfghighijhijkijkljklmklmnlmnomnopnopq")
     = "248d6a61d20638b8e5c026930c3e6039a33ce45964ff2167f6ecedd419db06c1".
Proof. by vm_compute. Qed.

(** ** The verified downloader *)

Lemma hash_chunk_size_pos : (0 < hash_chunk_size)%nat.
Proof. unfold hash_chunk_size. lia. Qed.

#[local] Opaque hash_chunk_size.

(** The read loop feeds the whole file to the hash. *)
Lemma hash_loop_all (fuel : nat) :
  forall file_hash checked_file : list Byte.byte,
    (length checked_file < fuel)%nat ->
    hash_loop fuel file_hash checked_file = file_hash ++ checked_file.
Proof.
  induction fuel as [|fuel IH]; intros file_hash checked_file Hlen; [lia|].
  simpl. pose proof hash_chunk_size_pos as Hpos.
  destruct (take hash_chunk_size checked_file) as [|b chunk] eqn:Htake.
  - destruct checked_file as [|b rest]; [by rewrite app_nil_r|].
    destruct hash_chunk_size; [lia|discriminate].
  - rewrite IH.
    + rewrite <- app_assoc, <- Htake, take_drop. done.
    + rewrite length_drop.
      assert (length checked_file <> 0)%nat
        by (destruct checked_file; [by rewrite take_nil in Htake|simpl; lia]).
      lia.
Qed.

Lemma calculate_file_checksum_content (d : Disk) target_dir file_name content :
  d !! file_path target_dir file_name = Some content ->
  calculate_file_checksum d target_dir file_name
  = Return (upper (SHA256.hexdigest content)).
Proof.
  intros Hfile. unfold calculate_file_checksum. rewrite Hfile.
  rewrite hash_loop_all by lia. done.
Qed.

Lemma check_file_exists_true (d : Disk) target_dir file_name file_size :
  check_file_exists d target_dir file_name file_size = true ->
  exists content,
    d !! file_path target_dir file_name = Some content
    /\ Z.of_nat (length content) = file_size.
Proof.
  unfold check_file_exists.
  destruct (d !! file_path target_dir file_name) as [content|]; [|done].
  destruct (Z.eqb_spec (Z.of_nat (length content)) file_size); [|done].
  eauto.
Qed.

Section DownloadLinkFacts.
Context {T : Type}.
Implicit Types (w : Effects T) (progress_function : option (string -> Z -> Z -> T)).

(** The write loop never raises; it appends every chunk to the file and
    calls nothing when there is no callback. *)
Lemma write_chunks_appends progress_function path file_name file_size chunks :
  forall total_dl w written,
    disk w !! path = Some written ->
    exists calls,
      write_chunks progress_function path file_name file_size chunks total_dl w
      = (Return (),
         mkEffects (<[path := written ++ concat chunks]> (disk w))
                   (progress_calls w ++ calls)
                   (body_reads w + length chunks))
      /\ (progress_function = None -> calls = []).
Proof.
  induction chunks as [|chunk chunks IH]; intros total_dl w written Hw; simpl.
  - exists []. split; [|done].
    rewrite !app_nil_r, Nat.add_0_r, insert_id by done. by destruct w.
  - rewrite Hw. simpl.
    set (w1 := mkEffects (<[path:=written ++ chunk]> (disk w)) (progress_calls w)
                         (S (body_reads w))).
    assert (disk w1 !! path = Some (written ++ chunk)) as Hw1
      by apply lookup_insert_eq.
    destruct (negb (file_size =? 0) && bool_decide (is_Some progress_function))
      eqn:Hcall.
    + destruct progress_function as [f|]; simpl.
      * set (w2 := mkEffects _ _ _).
        destruct (IH (total_dl + Z.of_nat (length chunk)) w2 (written ++ chunk) Hw1)
          as (calls & -> & _).
        exists (f file_name file_size (total_dl + Z.of_nat (length chunk)) :: calls).
        split; [|done]. subst w2 w1; simpl.
        rewrite insert_insert_eq, <- !app_assoc, Nat.add_succ_r. done.
      * rewrite andb_false_r in Hcall. done.
    + destruct (IH (total_dl + Z.of_nat (length chunk)) w1 (written ++ chunk) Hw1)
        as (calls & -> & Hnone).
      exists calls. split; [|done]. subst w1; simpl.
      rewrite insert_insert_eq, <- !app_assoc, Nat.add_succ_r. done.
Qed.

(** The skip path with a callback: one call, no read, no write, then the
    comparison on the file that was found. *)
Lemma download_link_skip requests_get url oracle_file_checksum target_dir f w
    resp content :
  requests_get url = Some resp ->
  disk w !! file_path target_dir (extract_file_name_from_url url) = Some content ->
  Z.of_nat (length content) = default 0 (content_length resp) ->
  download_link requests_get url oracle_file_checksum target_dir (Some f) false w
  = (verdict oracle_file_checksum content (default 0 (content_length resp)),
     mkEffects (disk w)
               (progress_calls w
                ++ [f (extract_file_name_from_url url)
                      (default 0 (content_length resp))
                      (default 0 (content_length resp))])
               (body_reads w)).
Proof.
  intros Hget Hfile Hsize. unfold download_link, check_file_exists.
  rewrite Hget, Hfile, Hsize, Z.eqb_refl. simpl.
  rewrite (calculate_file_checksum_content _ _ _ content) by done.
  unfold verdict.
  by destruct (truthy oracle_file_checksum && _).
Qed.

(** The streaming path: the file is created, every chunk is read and
    written, then the comparison is made on what was written. *)
Lemma download_link_stream requests_get url oracle_file_checksum target_dir
    progress_function w resp :
  requests_get url = Some resp ->
  check_file_exists (disk w) target_dir (extract_file_name_from_url url)
                    (default 0 (content_length resp)) = false ->
  exists calls,
    download_link requests_get url oracle_file_checksum target_dir
                  progress_function false w
    = (verdict oracle_file_checksum (concat (iter_content resp))
               (default 0 (content_length resp)),
       mkEffects (<[file_path target_dir (extract_file_name_from_url url)
                    := concat (iter_content resp)]> (disk w))
                 (progress_calls w ++ calls)
                 (body_reads w + length (iter_content resp)))
    /\ (progress_function = None -> calls = []).
Proof.
  intros Hget Hcheck. unfold download_link. rewrite Hget, Hcheck.
  set (path := file_path target_dir (extract_file_name_from_url url)).
  set (w0 := mkEffects (<[path:=[]]> (disk w)) (progress_calls w) (body_reads w)).
  destruct (write_chunks_appends progress_function path
              (extract_file_name_from_url url) (default 0 (content_length resp))
              (iter_content resp) 0 w0 [])
    as (calls & -> & Hnone); [apply lookup_insert_eq|].
  exists calls. split; [|done]. subst w0; simpl.
  rewrite insert_insert_eq.
  rewrite (calculate_file_checksum_content _ _ _ (concat (iter_content resp)))
    by apply lookup_insert_eq.
  unfold verdict.
  by destruct (truthy oracle_file_checksum && _).
Qed.
End DownloadLinkFacts.

Lemma verdict_return_iff oracle_file_checksum content file_size :
  truthy oracle_file_checksum = true ->
  verdict oracle_file_checksum content file_size = Return file_size
  <-> oracle_file_checksum = Some (upper (SHA256.hexdigest content)).
Proof.
  intros Htruthy. unfold verdict. rewrite Htruthy. simpl.
  case_bool_decide; simpl; split; intros; done.
Qed.

Lemma verdict_unverified oracle_file_checksum content file_size :
  truthy oracle_file_checksum = false ->
  verdict oracle_file_checksum content file_size = Return file_size.
Proof. intros Htruthy. unfold verdict. by rewrite Htruthy. Qed.

(** With an expected checksum that is not empty, and a callback or a file
    to transfer, the call returns exactly when the expected checksum is,
    character for character, the upper-case digest of the file then on
    disk; otherwise it raises [ChecksumMismatch].  The file is on disk in
    both cases. *)
Lemma download_link_verified {T} requests_get url oracle_file_checksum
    target_dir (progress_function : option (string -> Z -> Z -> T)) w resp :
  requests_get url = Some resp ->
  truthy oracle_file_checksum = true ->
  is_Some progress_function
  \/ check_file_exists (disk w) target_dir (extract_file_name_from_url url)
                       (default 0 (content_length resp)) = false ->
  let out :=
    download_link requests_get url oracle_file_checksum target_dir
                  progress_function false w in
  exists content,
    disk (snd out) !! file_path target_dir (extract_file_name_from_url url)
    = Some content
    /\ fst out
       = if bool_decide (oracle_file_checksum
                         = Some (upper (SHA256.hexdigest content)))
         then Return (default 0 (content_length resp))
         else Raise ChecksumMismatch.
Proof.
  intros Hget Htruthy Hpath out. subst out.
  destruct (check_file_exists (disk w) target_dir (extract_file_name_from_url url)
              (default 0 (content_length resp))) eqn:Hcheck.
  - destruct Hpath as [[f ->]|?]; [|done].
    destruct (check_file_exists_true _ _ _ _ Hcheck) as (content & Hfile & Hsize).
    rewrite (download_link_skip _ _ _ _ _ _ resp content) by done.
    exists content. split; [done|]. unfold verdict. rewrite Htruthy. simpl.
    by case_bool_decide.
  - destruct (download_link_stream requests_get url oracle_file_checksum
                target_dir progress_function w resp Hget Hcheck)
      as (calls & -> & _).
    exists (concat (iter_content resp)). simpl.
    split; [apply lookup_insert_eq|].
    unfold verdict. rewrite Htruthy. simpl. by case_bool_decide.
Qed.

(** C1, at the input where the code departs from the claim.  The file
    [p1.zip] is streamed with the bytes of "abc" and the expected checksum
    is the SHA-256 of these bytes in lower-case digits, as a catalogue
    digest can be spelled.  The two digests are equal when case is ignored,
    yet [__download_link] raises [ChecksumMismatch]; the file stays on disk
    with the bytes received. *)
Example download_link_lowercase_digest_raises :
  let expected :=
    "ba7816bf8f01cfea414140de5dae2223b00361a396177a9cb410ff61f20015ad" in
  let body := list_byte_of_string "abc" in
  let requests_get := fun _ : string => Some (mkResponse (Some 3) [body]) in
  let out :=
    download_link requests_get "https://updates.oracle.com/Orion/Download/p1.zip"
                  (Some expected) "/patches"
                  (Some (fun file_name file_size total => (file_name, file_size, total)))
                  false (mkEffects ∅ [] 0%nat) in
  upper expected = upper (SHA256.hexdigest body)
  /\ fst out = Raise ChecksumMismatch
  /\ disk (snd out) !! "/patches/p1.zip" = Some body.
Proof. vm_compute. repeat split. Qed.

(** C3 as stated fails: [p1.zip] is on disk with the declared three bytes,
    a callback is given, and the expected checksum is not the one of the
    file.  The transfer is skipped and the callback called, but the call
    does not return the declared size: it raises [ChecksumMismatch]. *)
Example download_link_skip_can_raise :
  let d : Disk := {[ "/patches/p1.zip" := list_byte_of_string "abc" ]} in
  let requests_get :=
    fun _ : string => Some (mkResponse (Some 3) [list_byte_of_string "abc"]) in
  let out :=
    download_link requests_get "https://updates.oracle.com/Orion/Download/p1.zip"
                  (Some "00") "/patches"
                  (Some (fun file_name file_size total => (file_name, file_size, total)))
                  false (mkEffects d [] 0%nat) in
  check_file_exists d "/patches" "p1.zip" 3 = true
  /\ progress_calls (snd out) = [("p1.zip", 3, 3)]
  /\ body_reads (snd out) = 0%nat
  /\ fst out = Raise ChecksumMismatch
  /\ fst out <> Return 3.
Proof. vm_compute. repeat split. discriminate. Qed.

Lemma upper_ascii_again c : upper_ascii (upper_ascii c) = upper_ascii c.
Proof. destruct c as [[] [] [] [] [] [] [] []]; reflexivity. Qed.

Lemma upper_again s : upper (upper s) = upper s.
Proof. induction s as [|c s IH]; simpl; [done|]. by rewrite upper_ascii_again, IH. Qed.

(** C3, amended.  Not in dry-run mode and with a progress callback, when
    the file of that name is on disk with the declared size,
    [__download_link] reads no chunk of the body, leaves the disk as it is
    and calls the callback once, with (name, size, size).  It then returns
    the declared size when the expected checksum is absent, empty or the
    upper-case SHA-256 digest of the file found, and raises
    [ChecksumMismatch] when an expected checksum that is not empty differs
    from that digest even with the case of the letters set aside. *)
Theorem download_link_skip_on_match {T} requests_get url oracle_file_checksum
    target_dir (f : string -> Z -> Z -> T) w resp :
  requests_get url = Some resp ->
  check_file_exists (disk w) target_dir (extract_file_name_from_url url)
                    (default 0 (content_length resp)) = true ->
  let file_name := extract_file_name_from_url url in
  let file_size := default 0 (content_length resp) in
  let out :=
    download_link requests_get url oracle_file_checksum target_dir (Some f)
                  false w in
  body_reads (snd out) = body_reads w
  /\ disk (snd out) = disk w
  /\ progress_calls (snd out)
     = progress_calls w ++ [f file_name file_size file_size]
  /\ exists content,
       disk w !! file_path target_dir file_name = Some content
       /\ (oracle_file_checksum = None
           \/ oracle_file_checksum = Some EmptyString
           \/ oracle_file_checksum = Some (upper (SHA256.hexdigest content)) ->
           fst out = Return file_size)
       /\ (forall expected,
             oracle_file_checksum = Some expected ->
             expected <> EmptyString ->
             upper expected <> upper (SHA256.hexdigest content) ->
             fst out = Raise ChecksumMismatch).
Proof.
  intros Hget Hcheck file_name file_size out.
  destruct (check_file_exists_true _ _ _ _ Hcheck) as (content & Hfile & Hsize).
  subst out. rewrite (download_link_skip _ _ _ _ _ _ resp content) by done.
  simpl. do 3 (split; [done|]). exists content. split; [done|].
  unfold verdict. split.
  - intros [->| [->| ->]]; [done|done|].
    rewrite bool_decide_eq_true_2 by done. by rewrite andb_false_r.
  - intros expected -> Hexpected Hdiffers.
    destruct expected as [|c expected]; [done|]. simpl.
    rewrite bool_decide_eq_false_2; [done|].
    intros [= Heq]. apply Hdiffers. by rewrite Heq, upper_again.
Qed.

Lemma download_link_skip_on_match_witness :
  let d : Disk := {[ "/patches/p1.zip" := list_byte_of_string "abc" ]} in
  let requests_get :=
    fun _ : string => Some (mkResponse (Some 3) [list_byte_of_string "abc"]) in
  let oracle_file_checksum :=
    Some "BA7816BF8F01CFEA414140DE5DAE2223B00361A396177A9CB410FF61F20015AD" in
  let out :=
    download_link requests_get "https://updates.oracle.com/Orion/Download/p1.zip"
                  oracle_file_checksum "/patches"
                  (Some (fun file_name file_size total => (file_name, file_size, total)))
                  false (mkEffects d [] 0%nat) in
  body_reads (snd out) = 0%nat
  /\ disk (snd out) = d
  /\ progress_calls (snd out) = [] ++ [("p1.zip", 3, 3)]
  /\ exists content,
       d !! file_path "/patches" "p1.zip" = Some content
       /\ (oracle_file_checksum = None
           \/ oracle_file_checksum = Some EmptyString
           \/ oracle_file_checksum = Some (upper (SHA256.hexdigest content)) ->
           fst out = Return 3)
       /\ (forall expected,
             oracle_file_checksum = Some expected ->
             expected <> EmptyString ->
             upper expected <> upper (SHA256.hexdigest content) ->
             fst out = Raise ChecksumMismatch).
Proof.
  intros d requests_get oracle_file_checksum.
  exact (download_link_skip_on_match requests_get
           "https://updates.oracle.com/Orion/Download/p1.zip"
           oracle_file_checksum
           "/patches" (fun file_name file_size total => (file_name, file_size, total))
           (mkEffects d [] 0%nat) (mkResponse (Some 3) [list_byte_of_string "abc"])
           eq_refl eq_refl).
Defined.

Lemma obtain_sha256_checksum_oracle_empty search_aru get_digest_form
    search_sha256 url :
  search_aru url = None
  \/ (exists aru, search_aru url = Some aru /\ get_digest_form aru = Some "")
  \/ (exists aru text, search_aru url = Some aru
                       /\ get_digest_form aru = Some text
                       /\ search_sha256 text = None) ->
  obtain_sha256_checksum_oracle search_aru get_digest_form search_sha256 url
  = Return "".
Proof.
  unfold obtain_sha256_checksum_oracle.
  intros [-> | [(aru & -> & ->) | (aru & text & -> & -> & ->)]]; [done..|].
  by case_bool_decide.
Qed.

(** C4.  With an expected checksum that is [None] or the empty string,
    [__download_link] never raises [ChecksumMismatch], whatever the server
    sends and whatever is on disk; and once the response is there it
    returns the declared size, except on the skip path without a callback.
    The empty string is what [__obtain_sha256_checksum_oracle] returns when
    the URL has no [aru] number, the digest page is empty, or the page has
    no 64-digit word. *)
Theorem download_link_empty_checksum_unverified {T} requests_get url
    oracle_file_checksum target_dir
    (progress_function : option (string -> Z -> Z -> T)) dry_run_mode w :
  oracle_file_checksum = None \/ oracle_file_checksum = Some "" ->
  let out :=
    download_link requests_get url oracle_file_checksum target_dir
                  progress_function dry_run_mode w in
  fst out <> Raise ChecksumMismatch
  /\ (forall resp,
        requests_get url = Some resp ->
        dry_run_mode = true \/ is_Some progress_function
        \/ check_file_exists (disk w) target_dir (extract_file_name_from_url url)
                             (default 0 (content_length resp)) = false ->
        fst out = Return (default 0 (content_length resp)))
  /\ (forall search_aru get_digest_form search_sha256 link,
        search_aru link = None
        \/ (exists aru, search_aru link = Some aru /\ get_digest_form aru = Some "")
        \/ (exists aru text, search_aru link = Some aru
                             /\ get_digest_form aru = Some text
                             /\ search_sha256 text = None) ->
        obtain_sha256_checksum_oracle search_aru get_digest_form search_sha256 link
        = Return "").
Proof.
  intros Hempty out.
  assert (truthy oracle_file_checksum = false) as Htruthy
    by (destruct Hempty as [-> | ->]; done).
  assert (forall resp,
            requests_get url = Some resp ->
            fst out = Return (default 0 (content_length resp))
            \/ (fst out = Raise TypeError /\ dry_run_mode = false
                /\ progress_function = None
                /\ check_file_exists (disk w) target_dir
                     (extract_file_name_from_url url)
                     (default 0 (content_length resp)) = true)) as Hcases.
  { intros resp Hget. subst out.
    destruct dry_run_mode.
    { left. unfold download_link. by rewrite Hget. }
    destruct (check_file_exists (disk w) target_dir (extract_file_name_from_url url)
                (default 0 (content_length resp))) eqn:Hcheck.
    - destruct progress_function as [f|].
      + left. destruct (check_file_exists_true _ _ _ _ Hcheck)
          as (content & Hfile & Hsize).
        rewrite (download_link_skip _ _ _ _ _ _ resp content) by done.
        simpl. by apply verdict_unverified.
      + right. unfold download_link. rewrite Hget, Hcheck. done.
    - left.
      destruct (download_link_stream requests_get url oracle_file_checksum
                  target_dir progress_function w resp Hget Hcheck)
        as (calls & -> & _).
      simpl. by apply verdict_unverified. }
  split; [|split].
  - destruct (requests_get url) as [resp|] eqn:Hget.
    + destruct (Hcases resp eq_refl) as [-> | (-> & _)]; done.
    + subst out. unfold download_link. rewrite Hget. done.
  - intros resp Hget Hpath.
    destruct (Hcases resp Hget) as [? | (_ & Hdry & Hnone & Hcheck)]; [done|].
    destruct Hpath as [? | [[f ?] | ?]]; congruence.
  - intros. by apply obtain_sha256_checksum_oracle_empty.
Qed.

Lemma download_link_empty_checksum_unverified_witness :
  let requests_get :=
    fun _ : string => Some (mkResponse (Some 3) [list_byte_of_string "abc"]) in
  fst (download_link (T := unit) requests_get
         "https://updates.oracle.com/Orion/Download/p1.zip" (Some "") "/patches"
         None false (mkEffects ∅ [] 0%nat))
  <> Raise ChecksumMismatch.
Proof.
  intros requests_get.
  exact (proj1 (download_link_empty_checksum_unverified requests_get
                  "https://updates.oracle.com/Orion/Download/p1.zip" (Some "")
                  "/patches" None false (mkEffects ∅ [] 0%nat)
                  (or_intror eq_refl))).
Defined.

(** C10.  Not in dry-run mode and without a progress callback ([None]):
    when the file is on disk with the declared size the call raises
    [TypeError] where it would call the callback, before any checksum is
    computed, and returns no size; on the streaming path the callback is
    not called and the call ends as the checksum comparison decides. *)
Theorem download_link_skip_without_callback {T} requests_get url
    oracle_file_checksum target_dir (w : Effects T) resp :
  requests_get url = Some resp ->
  let file_name := extract_file_name_from_url url in
  let file_size := default 0 (content_length resp) in
  let out :=
    download_link requests_get url oracle_file_checksum target_dir None false w in
  (check_file_exists (disk w) target_dir file_name file_size = true ->
   out = (Raise TypeError, w))
  /\ (check_file_exists (disk w) target_dir file_name file_size = false ->
      fst out = verdict oracle_file_checksum (concat (iter_content resp)) file_size
      /\ progress_calls (snd out) = progress_calls w).
Proof.
  intros Hget file_name file_size out. split; intros Hcheck.
  - subst out. unfold download_link. fold file_name. fold file_size.
    rewrite Hget. fold file_size. rewrite Hcheck. done.
  - destruct (download_link_stream requests_get url oracle_file_checksum
                target_dir None w resp Hget Hcheck) as (calls & Hout & Hnone).
    subst out. rewrite Hout, Hnone by done. simpl.
    by rewrite app_nil_r.
Qed.

Lemma download_link_skip_without_callback_witness :
  let d : Disk := {[ "/patches/p1.zip" := list_byte_of_string "abc" ]} in
  let requests_get :=
    fun _ : string => Some (mkResponse (Some 3) [list_byte_of_string "abc"]) in
  download_link (T := unit) requests_get
    "https://updates.oracle.com/Orion/Download/p1.zip" None "/patches" None false
    (mkEffects d [] 0%nat)
  = (Raise TypeError, mkEffects d [] 0%nat).
Proof.
  intros d requests_get.
  exact (proj1 (download_link_skip_without_callback requests_get
                  "https://updates.oracle.com/Orion/Download/p1.zip" None
                  "/patches" (mkEffects d [] 0%nat)
                  (mkResponse (Some 3) [list_byte_of_string "abc"]) eq_refl)
               eq_refl).
Defined.

(** ** Logon to Oracle Support *)

(** On a status the loop has no branch for, a pass through the body changes
    nothing and goes round again. *)
Lemma loop_body_unexpected_status (st : Logon.State) :
  handled_status (Logon.status st) = false ->
  Logon.loop_body st = Logon.Again st.
Proof.
  unfold handled_status, Logon.loop_body. intros Hstatus.
  repeat (apply orb_false_elim in Hstatus as [Hstatus ?]).
  by repeat match goal with H : (_ =? _) = false |- _ => rewrite H; clear H end.
Qed.

Lemma loop_unexpected_status_runs_on (fuel : nat) (st : Logon.State) :
  handled_status (Logon.status st) = false -> Logon.loop fuel st = None.
Proof.
  intros Hstatus. induction fuel as [|fuel IH]; [done|].
  simpl. by rewrite loop_body_unexpected_status.
Qed.

(** A 401 ends the logon with 1, a 200 with 0, each in one pass. *)
Lemma logon_unauthorized resp rest fuel :
  Logon.status_code resp = Logon.UNAUTHORIZED ->
  exists st, Logon.logon_oracle_support (S fuel) (resp :: rest)
             = Some (Return 1, Some st)
             /\ Logon.cookie_jar st = None.
Proof.
  intros Hstatus. unfold Logon.logon_oracle_support. simpl.
  unfold Logon.loop_body. simpl. rewrite Hstatus. simpl.
  rewrite Hstatus. simpl. eauto.
Qed.

Lemma logon_ok resp rest fuel :
  Logon.status_code resp = Logon.OK ->
  exists st, Logon.logon_oracle_support (S fuel) (resp :: rest)
             = Some (Return 0, Some st)
             /\ Logon.cookie_jar st
                = Some (Logon.jar_update (Logon.cookies resp) (Logon.cookies resp)).
Proof.
  intros Hstatus. unfold Logon.logon_oracle_support. simpl.
  unfold Logon.loop_body. simpl. rewrite Hstatus. simpl.
  rewrite Hstatus. simpl. eauto.
Qed.

(** On a status the loop has a branch for, a pass either leaves the loop
    or takes the next response of the server. *)
Lemma loop_body_handled (st : Logon.State) :
  handled_status (Logon.status st) = true ->
  is_Some (Logon.cookie_jar st) ->
  match Logon.loop_body st with
  | Logon.Break _ | Logon.Raised _ _ => True
  | Logon.Again st' =>
      exists resp,
        Logon.remote st = resp :: Logon.remote st'
        /\ Logon.status st' = Logon.status_code resp
        /\ is_Some (Logon.cookie_jar st')
  end.
Proof.
  unfold handled_status, Logon.loop_body. intros Hstatus [jar ->].
  destruct (Logon.status st =? Logon.UNAUTHORIZED) eqn:H401; [done|].
  destruct (Logon.status st =? Logon.FOUND) eqn:H302;
    [|destruct (Logon.status st =? Logon.TEMPORARY_REDIRECT) eqn:H307;
      [|destruct (Logon.status st =? Logon.MOVED_PERMANENTLY) eqn:H301]];
    simpl in *.
  1-3: destruct (Logon.location (Logon.login_response st)); [|done];
       destruct (Logon.remote st) as [|resp rest]; [done|]; simpl; eauto.
  by rewrite Hstatus.
Qed.

(** The loop ends within one pass per response when every status is one
    the loop has a branch for. *)
Lemma loop_handled_ends (remote : list Logon.Response) :
  forall st : Logon.State,
    Logon.remote st = remote ->
    handled_status (Logon.status st) = true ->
    Forall (fun resp => handled_status (Logon.status_code resp) = true) remote ->
    is_Some (Logon.cookie_jar st) ->
    is_Some (Logon.loop (S (length remote)) st).
Proof.
  induction remote as [|next remote IH]; intros st Hremote Hstatus Hall Hjar;
    pose proof (loop_body_handled st Hstatus Hjar) as Hbody;
    cbn [Logon.loop length]; destruct (Logon.loop_body st) as [st'|st'|e st'];
    eauto.
  - destruct Hbody as (resp & Hresp & _). congruence.
  - destruct Hbody as (resp & Hresp & Hstatus' & Hjar').
    rewrite Hremote in Hresp. injection Hresp as <- Hrest.
    inversion Hall; subst. apply IH; [done|congruence|done..].
Qed.

(** C2, where the code departs from the claim.  When the first response has
    a status other than 401, 302, 307, 301 and 200, the loop of
    [__logon_oracle_support] logs and goes round on the same status: no
    number of passes ends it, so the call neither returns nor raises. *)
Theorem logon_unexpected_status_never_ends (fuel : nat)
    (resp : Logon.Response) (rest : list Logon.Response) :
  handled_status (Logon.status_code resp) = false ->
  Logon.logon_oracle_support fuel (resp :: rest) = None.
Proof.
  intros Hstatus. unfold Logon.logon_oracle_support.
  by rewrite loop_unexpected_status_runs_on.
Qed.

Lemma logon_unexpected_status_never_ends_witness :
  handled_status 500 = false
  /\ Logon.logon_oracle_support 1000 [Logon.mkResponse 500 None ∅] = None.
Proof.
  split; [reflexivity|].
  exact (logon_unexpected_status_never_ends 1000 (Logon.mkResponse 500 None ∅) []
           eq_refl).
Defined.

(** ** The description ledger *)

Lemma translate_newlines_no_carriage_return (s : string) :
  forall after_cr, no_carriage_return (translate_newlines after_cr s) = true.
Proof.
  induction s as [|c s IH]; intros after_cr; simpl; [done|].
  destruct (Ascii.eqb c carriage_return) eqn:Hcr; simpl; [by rewrite IH|].
  destruct (Ascii.eqb c newline) eqn:Hnl.
  - destruct after_cr; simpl; by rewrite IH.
  - simpl. by rewrite Hcr, IH.
Qed.

Lemma newline_terminated_tail c s :
  newline_terminated (String c s) = true -> newline_terminated s = true.
Proof. by destruct s. Qed.

Lemma newline_terminated_cons c s :
  newline_terminated s = true -> s <> EmptyString ->
  newline_terminated (String c s) = true.
Proof. by destruct s. Qed.

Lemma newline_terminated_newline_cons s :
  newline_terminated s = true -> newline_terminated (String newline s) = true.
Proof. by destruct s. Qed.

Lemma translate_newlines_terminated (s : string) :
  forall after_cr,
    newline_terminated s = true ->
    newline_terminated (translate_newlines after_cr s) = true.
Proof.
  induction s as [|c s IH]; intros after_cr Hs; [done|].
  pose proof (newline_terminated_tail _ _ Hs) as Hs'.
  cbn [translate_newlines].
  destruct (Ascii.eqb c carriage_return) eqn:Hcr;
    [by apply newline_terminated_newline_cons, IH|].
  destruct (Ascii.eqb c newline) eqn:Hnl.
  { destruct after_cr; [by apply IH|by apply newline_terminated_newline_cons, IH]. }
  destruct s as [|c' s]; [simpl in Hs; congruence|].
  apply newline_terminated_cons; [by apply IH|].
  cbn [translate_newlines].
  destruct (Ascii.eqb c' carriage_return); [done|].
  by destruct (Ascii.eqb c' newline).
Qed.

Lemma readlines_nil s : readlines s = [] -> s = EmptyString.
Proof.
  destruct s as [|c s]; [done|]. simpl.
  destruct (Ascii.eqb c newline); [done|]. by destruct (readlines s).
Qed.

(** Of a text without carriage returns that ends in a newline, [readlines]
    gives lines that are all ended. *)
Lemma readlines_lines (s : string) :
  no_carriage_return s = true -> newline_terminated s = true ->
  Forall (fun l => is_line l = true) (readlines s).
Proof.
  induction s as [|c s IH]; intros Hcr Hnl; [constructor|].
  simpl in Hcr. apply andb_prop in Hcr as [Hc Hcr].
  pose proof (newline_terminated_tail _ _ Hnl) as Hnl'.
  specialize (IH Hcr Hnl'). simpl.
  destruct (Ascii.eqb c newline) eqn:Hc'.
  - constructor; [|done]. simpl. by rewrite Hc'.
  - destruct (readlines s) as [|line lines] eqn:Hlines.
    + apply readlines_nil in Hlines as ->. simpl in Hnl. congruence.
    + inversion IH; subst. constructor; [|done]. simpl. by rewrite Hc', Hc.
Qed.

Lemma insert_line_Forall (P : string -> Prop) x l :
  P x -> Forall P l -> Forall P (insert_line x l).
Proof.
  intros Hx. induction 1 as [|y l Hy Hl IH]; simpl; [by repeat constructor|].
  destruct (String.compare x y); repeat constructor; done.
Qed.

Lemma sorted_set_Forall (P : string -> Prop) l :
  Forall P l -> Forall P (sorted_set l).
Proof.
  induction 1; simpl; [constructor|]. by apply insert_line_Forall.
Qed.

Lemma insert_line_ascending x l : ascending l -> ascending (insert_line x l).
Proof.
  induction l as [|y l IH]; intros Hl; simpl; [done|].
  destruct (String.compare x y) eqn:Hxy; [done|done|].
  destruct Hl as [Hy Hl]. specialize (IH Hl).
  split; [|done].
  destruct l as [|z l]; simpl.
  - rewrite String.compare_antisym, Hxy. done.
  - destruct (String.compare x z); [done| |done].
    rewrite String.compare_antisym, Hxy. done.
Qed.

Lemma sorted_set_ascending l : ascending (sorted_set l).
Proof. induction l; simpl; [done|]. by apply insert_line_ascending. Qed.

(** [sorted(set(...))] leaves a list alone that is ascending already. *)
Lemma sorted_set_fixed l : ascending l -> sorted_set l = l.
Proof.
  induction l as [|x l IH]; intros Hl; simpl; [done|].
  destruct Hl as [Hx Hl]. rewrite IH by done. destruct l as [|y l]; simpl; [done|]. by rewrite Hx.
Qed.

Lemma readlines_line_app line rest :
  is_line line = true ->
  readlines (line +:+ rest) = line :: readlines rest.
Proof.
  induction line as [|c line IH]; intros Hline; [done|]. simpl in *.
  destruct (Ascii.eqb c newline).
  - apply String.eqb_eq in Hline as ->. done.
  - apply andb_prop in Hline as [_ Hline]. by rewrite IH.
Qed.

Lemma readlines_writelines lines :
  Forall (fun l => is_line l = true) lines ->
  readlines (writelines lines) = lines.
Proof.
  induction 1 as [|line lines Hline Hlines IH]; simpl; [done|].
  by rewrite readlines_line_app, IH.
Qed.

Lemma is_line_no_carriage_return line rest :
  is_line line = true -> no_carriage_return rest = true ->
  no_carriage_return (line +:+ rest) = true.
Proof.
  induction line as [|c line IH]; intros Hline Hrest; [done|]. simpl in *.
  destruct (Ascii.eqb c newline) eqn:Hnl.
  - apply String.eqb_eq in Hline as ->. simpl.
    apply Ascii.eqb_eq in Hnl as ->. done.
  - apply andb_prop in Hline as [-> Hline]. by apply IH.
Qed.

Lemma writelines_no_carriage_return lines :
  Forall (fun l => is_line l = true) lines ->
  no_carriage_return (writelines lines) = true.
Proof.
  induction 1; simpl; [done|]. by apply is_line_no_carriage_return.
Qed.

Lemma translate_newlines_id s :
  no_carriage_return s = true -> translate_newlines false s = s.
Proof.
  induction s as [|c s IH]; intros Hs; [done|]. simpl in *.
  apply andb_prop in Hs as [Hc Hs]. apply negb_true_iff in Hc. rewrite Hc.
  destruct (Ascii.eqb c newline) eqn:Hnl; rewrite IH by done; [|done].
  apply Ascii.eqb_eq in Hnl as ->. done.
Qed.

Lemma append_cons c (s t : string) : String c s +:+ t = String c (s +:+ t).
Proof. reflexivity. Qed.

(** *** Decoding *)

Lemma utf8_run_app st a b :
  utf8_run st (a +:+ b)
  = match utf8_run st a with
    | Some st' => utf8_run st' b
    | None => None
    end.
Proof.
  revert st. induction a as [|c a IH]; intros st; [done|].
  rewrite append_cons. simpl. destruct (utf8_step st c); [apply IH|done].
Qed.

(** A newline or a carriage return is a character of its own. *)
Lemma utf8_step_newline st st' :
  utf8_step st newline = Some st' -> st = Utf8Start /\ st' = Utf8Start.
Proof. destruct st; vm_compute; intros [= <-] || discriminate; done. Qed.

Lemma utf8_step_carriage_return st st' :
  utf8_step st carriage_return = Some st' -> st = Utf8Start /\ st' = Utf8Start.
Proof. destruct st; vm_compute; intros [= <-] || discriminate; done. Qed.

(** Translating the newlines of a text that decodes gives one that does. *)
Lemma utf8_run_translate_newlines s : forall st after_cr,
  (after_cr = true -> st = Utf8Start) ->
  utf8_run st s = Some Utf8Start ->
  utf8_run st (translate_newlines after_cr s) = Some Utf8Start.
Proof.
  induction s as [|c s IH]; intros st after_cr Hcr Hrun; [done|].
  simpl in *.
  destruct (utf8_step st c) as [st'|] eqn:Hstep; [|done].
  destruct (Ascii.eqb c carriage_return) eqn:Hc.
  - apply Ascii.eqb_eq in Hc as ->.
    apply utf8_step_carriage_return in Hstep as [-> ->].
    simpl. by apply IH.
  - destruct (Ascii.eqb c newline) eqn:Hn.
    + apply Ascii.eqb_eq in Hn as ->.
      apply utf8_step_newline in Hstep as [-> ->].
      destruct after_cr; simpl; by apply IH.
    + simpl. rewrite Hstep. by apply IH.
Qed.

(** The lines of a text that decodes decode, each on its own. *)
Lemma utf8_run_readlines s : forall st,
  utf8_run st s = Some Utf8Start ->
  match readlines s with
  | [] => st = Utf8Start
  | line :: lines =>
      utf8_run st line = Some Utf8Start
      /\ Forall (fun l => utf8_run Utf8Start l = Some Utf8Start) lines
  end.
Proof.
  induction s as [|c s IH]; intros st Hrun; simpl in *; [congruence|].
  destruct (utf8_step st c) as [st'|] eqn:Hstep; [|done].
  specialize (IH st' Hrun).
  destruct (Ascii.eqb c newline) eqn:Hn.
  - apply Ascii.eqb_eq in Hn as ->.
    apply utf8_step_newline in Hstep as [-> ->]. split; [done|].
    destruct (readlines s) as [|line lines]; [constructor|].
    destruct IH. by constructor.
  - destruct (readlines s) as [|line lines].
    + subst st'. simpl. by rewrite Hstep.
    + destruct IH as [Hline Hlines]. split; [|done]. simpl. by rewrite Hstep.
Qed.

Lemma utf8_run_readlines_Forall s :
  utf8_run Utf8Start s = Some Utf8Start ->
  Forall (fun l => utf8_run Utf8Start l = Some Utf8Start) (readlines s).
Proof.
  intros Hrun. apply utf8_run_readlines in Hrun.
  destruct (readlines s); [constructor|]. destruct Hrun. by constructor.
Qed.

Lemma utf8_run_writelines lines :
  Forall (fun l => utf8_run Utf8Start l = Some Utf8Start) lines ->
  utf8_run Utf8Start (writelines lines) = Some Utf8Start.
Proof.
  induction 1 as [|line lines Hline Hlines IH]; simpl; [done|].
  by rewrite utf8_run_app, Hline.
Qed.

Lemma utf8_decodes_run content :
  utf8_decodes content = true
  <-> utf8_run Utf8Start (string_of_list_byte content) = Some Utf8Start.
Proof.
  unfold utf8_decodes.
  destruct (utf8_run Utf8Start (string_of_list_byte content)) as [[]|];
    split; congruence.
Qed.

(** What the deduplication writes decodes again. *)
Lemma dedup_desc_file_decodes content content' :
  dedup_desc_file content = Return content' ->
  utf8_decodes content = true /\ utf8_decodes content' = true.
Proof.
  unfold dedup_desc_file.
  destruct (utf8_decodes content) eqn:Hdec; [|done]. intros [= <-].
  split; [done|]. apply utf8_decodes_run.
  rewrite string_of_list_byte_of_string.
  apply utf8_run_writelines, sorted_set_Forall, utf8_run_readlines_Forall.
  apply utf8_run_translate_newlines; [done|]. by apply utf8_decodes_run.
Qed.

Lemma dedup_desc_file_Return content :
  utf8_decodes content = true ->
  dedup_desc_file content
  = Return (list_byte_of_string
              (writelines (sorted_set (readlines (universal_newlines
                 (string_of_list_byte content)))))).
Proof. unfold dedup_desc_file. by intros ->. Qed.

(** One file: what the deduplication leaves of a ledger with every line
    ended is left alone by the next. *)
Lemma dedup_desc_file_fixed (content : list Byte.byte) :
  ended_lines content -> utf8_decodes content = true ->
  exists content',
    dedup_desc_file content = Return content'
    /\ dedup_desc_file content' = Return content'.
Proof.
  intros Hended Hdec. eexists. split; [by apply dedup_desc_file_Return|].
  pose proof (dedup_desc_file_decodes _ _ (dedup_desc_file_Return _ Hdec))
    as [_ Hdec'].
  rewrite dedup_desc_file_Return by done. f_equal.
  unfold ended_lines, universal_newlines in *.
  set (lines := sorted_set (readlines (translate_newlines false
                                         (string_of_list_byte content)))).
  assert (Forall (fun l => is_line l = true) lines) as Hlines.
  { apply sorted_set_Forall, readlines_lines.
    - apply translate_newlines_no_carriage_return.
    - by apply translate_newlines_terminated. }
  rewrite string_of_list_byte_of_string.
  rewrite translate_newlines_id by by apply writelines_no_carriage_return.
  rewrite readlines_writelines by done.
  rewrite sorted_set_fixed by apply sorted_set_ascending.
  done.
Qed.

(** C5.  The deduplication does not only remove duplicate lines, and a
    second run does not leave what the first one wrote.  Of a ledger with
    the lines "b", "ba" and a last "b" without its newline, the first run
    returns and writes the text "bb\nba\n": the line "b" is gone and a line
    "bb" is there that the ledger never had.  The second run returns and
    writes "ba\nbb\n", other bytes than the first. *)
Theorem remove_duplicate_lines_desc_files_not_fixed :
  let desc_file := "/patches/19.0.0.0/Linux_x86-64/description.txt" in
  let ledger (lines : list string) : list Byte.byte :=
    list_byte_of_string
      (writelines ((fun line => line +:+ String newline EmptyString) <$> lines)) in
  let d : Disk :=
    {[ desc_file := list_byte_of_string
         (String "b" (String newline (String "b" (String "a"
            (String newline (String "b" EmptyString)))))) ]} in
  let once := remove_duplicate_lines_desc_files [desc_file] d in
  let twice := remove_duplicate_lines_desc_files [desc_file] (snd once) in
  fst once = Return ()
  /\ snd once !! desc_file = Some (ledger ["bb"; "ba"])
  /\ fst twice = Return ()
  /\ snd twice !! desc_file = Some (ledger ["ba"; "bb"])
  /\ snd twice <> snd once.
Proof.
  intros desc_file ledger d once twice.
  assert (snd once !! desc_file = Some (ledger ["bb"; "ba"])) as Honce
    by (vm_compute; reflexivity).
  assert (snd twice !! desc_file = Some (ledger ["ba"; "bb"])) as Htwice
    by (vm_compute; reflexivity).
  split; [vm_compute; reflexivity|]. split; [done|].
  split; [vm_compute; reflexivity|]. split; [done|].
  intros Heq. rewrite Heq, Honce in Htwice. vm_compute in Htwice. discriminate.
Qed.

(** ** Directory names *)

Lemma sub_other_chars_in_match s :
  starts_other s = false -> sub_other_chars true s = sub_other_chars false s.
Proof.
  destruct s as [|c s]; [done|]. simpl. by destruct (is_name_char c).
Qed.

Lemma sub_other_chars_enter_match s :
  starts_other s = true ->
  sub_other_chars false s = String "_" (sub_other_chars true s).
Proof.
  destruct s as [|c s]; [done|]. simpl. by destruct (is_name_char c).
Qed.

Lemma runs_nil s : runs s = [] -> s = EmptyString.
Proof.
  destruct s as [|c s]; [done|]. simpl.
  destruct (runs s) as [|[b r] rest]; [done|].
  by destruct (Bool.eqb b (is_name_char c)).
Qed.

(** The first run is on the side of the first character. *)
Lemma runs_head s b r rest :
  runs s = (b, r) :: rest -> starts_other s = negb b.
Proof.
  destruct s as [|c s]; [done|]. simpl.
  destruct (runs s) as [|[b' r'] rest'].
  - intros [= <- _ _]. done.
  - destruct (Bool.eqb b' (is_name_char c)) eqn:Hside.
    + apply Bool.eqb_prop in Hside. intros [= <- _ _]. by rewrite Hside.
    + intros [= <- _ _]. done.
Qed.

(** Scanning for matches and cutting into runs give the same text. *)
Lemma sub_other_chars_collapse s : sub_other_chars false s = collapse_runs s.
Proof.
  unfold collapse_runs.
  induction s as [|c s IH]; [done|].
  cbn [sub_other_chars runs].
  destruct (runs s) as [|[b r] rest] eqn:Hruns.
  - apply runs_nil in Hruns as ->. simpl.
    unfold replace_run. simpl. by destruct (is_name_char c).
  - pose proof (runs_head _ _ _ _ Hruns) as Hhead.
    cbn [fold_right] in IH. unfold replace_run in *. cbn [fst snd] in *.
    destruct (is_name_char c) eqn:Hc, b; cbn [Bool.eqb fold_right fst snd].
    + by rewrite IH.
    + by rewrite IH.
    + rewrite sub_other_chars_in_match by done. by rewrite IH.
    + rewrite <- IH. symmetry. by apply sub_other_chars_enter_match.
Qed.

Lemma sub_other_chars_name_chars s :
  forall in_match, all_name_chars (sub_other_chars in_match s) = true.
Proof.
  induction s as [|c s IH]; intros in_match; [done|]. simpl.
  destruct (is_name_char c) eqn:Hc; simpl; [by rewrite Hc, IH|].
  destruct in_match; simpl; by rewrite IH.
Qed.

(** Without a newline in the text, [$] is the end of the text. *)
Lemma sub_underscore_at_end_drop s :
  all_name_chars s = true ->
  sub_underscore_at_end s = drop_trailing_underscore s.
Proof.
  induction s as [|c s IH]; intros Hs; [done|].
  simpl in Hs. apply andb_prop in Hs as [Hc Hs]. specialize (IH Hs).
  cbn [sub_underscore_at_end drop_trailing_underscore].
  destruct s as [|c' s].
  - simpl. by destruct (Ascii.eqb c "_").
  - rewrite IH.
    assert (String.eqb (String c' s) (String newline EmptyString) = false) as ->.
    { apply String.eqb_neq. intros [= -> ->]. simpl in Hs. done. }
    simpl. by rewrite andb_false_r.
Qed.

(** C9.  [__normalize_directory_name] computes what the specification
    words: every maximal run of characters outside [[A-Za-z0-9_.-]] becomes
    one underscore, then one leading and one trailing underscore are taken
    away when they are there; and "Linux x86-64 (64-bit)" is mapped to
    "Linux_x86-64_64-bit". *)
Theorem normalize_directory_name_spec :
  (forall orig_name, normalize_directory_name orig_name = normalize_spec orig_name)
  /\ normalize_directory_name "Linux x86-64 (64-bit)" = "Linux_x86-64_64-bit".
Proof.
  split; [|reflexivity].
  intros orig_name. unfold normalize_directory_name, normalize_spec.
  rewrite sub_underscore_at_end_drop by apply sub_other_chars_name_chars.
  rewrite sub_other_chars_collapse.
  by destruct (drop_trailing_underscore (collapse_runs orig_name)).
Qed.

(** ** The streaming catalogue indexer *)

Lemma bind_Return {A B} (r : result A) (k : A -> result B) b :
  r ≫= k = Return b -> exists a, r = Return a /\ k a = Return b.
Proof. destruct r as [e|a]; [done|]. eauto. Qed.

Lemma fmap_Return {A B} (f : A -> B) (r : result A) b :
  f <$> r = Return b -> exists a, r = Return a /\ b = f a.
Proof. destruct r as [e|a]; [done|]. intros [= <-]. eauto. Qed.

Section IndexerFacts.
Context {Component : Type}.
Variable all_platforms : gmap PyStr string.
Variable db_release_components : gmap PyStr Component.

(** A [patch] element either leaves the patch index as it is or adds one
    record, for a platform that is wanted. *)
Lemma index_patch_Return patches elem patches' :
  index_patch all_platforms patches elem = Return patches' ->
  patches' = patches
  \/ exists patch,
       patches' = <[get "uid" elem := patch]> patches
       /\ is_Some (all_platforms !! platform_code patch).
Proof.
  unfold index_patch. intros Hindex.
  apply bind_Return in Hindex as (platform_id & _ & Hindex).
  unfold is_in in Hindex. case_bool_decide as Hwanted.
  - repeat (apply bind_Return in Hindex as (? & _ & Hindex)).
    destruct (find "access" elem); [|done].
    injection Hindex as <-. right. eauto.
  - injection Hindex as <-. by left.
Qed.

Lemma index_patch_wanted patches elem patches' :
  platforms_wanted all_platforms patches ->
  index_patch all_platforms patches elem = Return patches' ->
  platforms_wanted all_platforms patches'.
Proof.
  intros Hinv Hindex.
  destruct (index_patch_Return _ _ _ Hindex) as [-> | (patch & -> & Hpatch)];
    [done|].
  intros patch_uid patch'. rewrite lookup_insert.
  case_decide; [intros [= <-]; done|]. apply Hinv.
Qed.

Lemma process_patches_tag_wanted pc patches evt elem pc' patches' elem' :
  platforms_wanted all_platforms patches ->
  process_patches_tag all_platforms pc patches evt elem
  = Return (pc', patches', elem') ->
  platforms_wanted all_platforms patches'.
Proof.
  unfold process_patches_tag. intros Hinv Hprocess.
  apply bind_Return in Hprocess as ([patches1 elem1] & Hpatch & Hprocess).
  assert (platforms_wanted all_platforms patches1) as Hinv1.
  { destruct (_ && _ && _) in Hpatch.
    - apply bind_Return in Hpatch as (patches2 & Hindex & [= <- _]).
      by eapply index_patch_wanted.
    - by injection Hpatch as <- _. }
  destruct (_ && _) in Hprocess; by injection Hprocess as _ <- _.
Qed.

(** The body of the loop keeps the patch index to wanted platforms. *)
Lemma process_event_wanted ix event ix' :
  platforms_wanted all_platforms (all_db_patches ix) ->
  process_event all_platforms db_release_components ix event = Return ix' ->
  platforms_wanted all_platforms (all_db_patches ix').
Proof.
  unfold process_event. destruct event as [evt elem]. intros Hinv Hevent.
  apply bind_Return in Hevent as ([[pc patches] elem1] & Hpatches & Hevent).
  destruct (process_standalone_recommendations_tag _ _ _ _ _ _)
    as [[pc2 rp2] elem2].
  destruct (process_components_recommendations_tag _ _ _ _ _ _)
    as [[pc3 rp3] elem3].
  injection Hevent as <-. simpl.
  by eapply process_patches_tag_wanted.
Qed.

Lemma process_events_wanted events :
  forall ix,
    platforms_wanted all_platforms (all_db_patches ix) ->
    platforms_wanted all_platforms
      (all_db_patches
         (snd (process_events all_platforms db_release_components ix events))).
Proof.
  induction events as [|event events IH]; intros ix Hinv; [done|]. simpl.
  destruct (process_event all_platforms db_release_components ix event)
    as [e|ix'] eqn:Hevent; [done|].
  apply IH. by eapply process_event_wanted.
Qed.
End IndexerFacts.

(** C7.  Every record of the patch index is for a platform that is a key
    of the wanted platforms: each pass through the loop body keeps it so,
    and it holds of the index [__process_patch_recommendations_file] is
    left with after any events, be it at the end of the events or at the
    event that raised. *)
Theorem patch_index_platforms_wanted {Component : Type}
    (all_platforms : gmap PyStr string)
    (db_release_components : gmap PyStr Component) :
  (forall ix event ix',
     platforms_wanted all_platforms (all_db_patches ix) ->
     process_event all_platforms db_release_components ix event = Return ix' ->
     platforms_wanted all_platforms (all_db_patches ix'))
  /\ (forall events,
        platforms_wanted all_platforms
          (all_db_patches
             (snd (process_patch_recommendations_file all_platforms
                     db_release_components events)))).
Proof.
  split.
  - apply process_event_wanted.
  - intros events. apply process_events_wanted. intros patch_uid patch.
    simpl. by rewrite lookup_empty.
Qed.

Lemma patch_index_platforms_wanted_witness :
  let ix :=
    snd (process_patch_recommendations_file example_platforms example_components
           example_patches_events) in
  platforms_wanted example_platforms (all_db_patches ix)
  /\ platform_code <$> all_db_patches ix !! Some "U1" = Some (Some "P1")
  /\ all_db_patches ix !! Some "U2" = None.
Proof.
  split; [|by vm_compute].
  exact (proj2 (patch_index_platforms_wanted example_platforms example_components)
               example_patches_events).
Defined.

Lemma deref_Raise {A} (o : option A) e : deref o = Raise e -> e = AttributeError.
Proof. destruct o; [done|]. by intros [= <-]. Qed.

Lemma build_patch_file_Raise file e :
  build_patch_file file = Raise e -> e = AttributeError \/ e = TypeError.
Proof.
  unfold build_patch_file.
  destruct (find "download_url" file) as [download_url_tag|]; simpl;
    [|intros [= <-]; by left].
  destruct (str_add _ _) as [e'|url] eqn:Hadd; simpl.
  { unfold str_add in Hadd. intros [= <-].
    repeat case_match; simplify_eq. all: by right. }
  destruct (find_sha256_digest file); simpl; [|intros [= <-]; by left].
  destruct (find "name" file); simpl; [|intros [= <-]; by left].
  destruct (find "size" file); simpl; [|intros [= <-]; by left].
  done.
Qed.

Lemma mapM_build_patch_file_Raise l e :
  mapM build_patch_file l = Raise e -> e = AttributeError \/ e = TypeError.
Proof.
  induction l as [|file l IH]; [done|]. simpl.
  destruct (build_patch_file file) eqn:Hfile; simpl.
  { intros [= <-]. by eapply build_patch_file_Raise. }
  destruct (mapM build_patch_file l); simpl; [|done].
  intros [= <-]. by apply IH.
Qed.

#[local] Ltac raises_with e :=
  exists e; split; [done|split; [tauto|intros; simplify_eq; done]].

(** C8, where the code departs from the claim.  At the end of a [patch]
    element of an active [patches] section that has no [access] child and
    whose platform is wanted, [__process_patches_tag] builds no record: it
    raises, whatever the patch index holds from the patches before.  When
    the files, name, bug abstract and release of the patch can be read, the
    exception is the [UnboundLocalError] of reading [access_level]. *)
Theorem process_patches_tag_without_access (all_platforms : gmap PyStr string)
    (pc : Counter) (patches : gmap PyStr OraclePatch) (elem platform : Element) :
  0 < count pc "patches" ->
  tag elem = "patch" ->
  find "access" elem = None ->
  find "platform" elem = Some platform ->
  is_Some (all_platforms !! get "id" platform) ->
  exists e,
    process_patches_tag all_platforms pc patches "end" elem = Raise e
    /\ (e = UnboundLocalError \/ e = AttributeError \/ e = TypeError)
    /\ (forall patch_files name_tag bug abstract release,
          mapM build_patch_file (iterfind_files_file elem) = Return patch_files ->
          find "name" elem = Some name_tag ->
          find "bug" elem = Some bug ->
          find "abstract" bug = Some abstract ->
          find "release" elem = Some release ->
          e = UnboundLocalError).
Proof.
  intros Hpatches Htag Haccess Hplatform Hwanted.
  unfold process_patches_tag. simpl. rewrite Htag. simpl.
  apply Z.ltb_lt in Hpatches. rewrite Hpatches. simpl.
  unfold index_patch. rewrite Haccess, Hplatform. simpl.
  unfold is_in. rewrite bool_decide_eq_true_2 by done.
  destruct (mapM build_patch_file (iterfind_files_file elem)) as [e|patch_files]
    eqn:Hfiles; simpl.
  { exists e. apply mapM_build_patch_file_Raise in Hfiles.
    split; [done|]. split; [tauto|]. intros; done. }
  destruct (find "name" elem); simpl; [|raises_with AttributeError].
  destruct (find "bug" elem) as [bug|]; simpl; [|raises_with AttributeError].
  destruct (find "abstract" bug) eqn:Habstract; simpl;
    [|raises_with AttributeError].
  destruct (find "release" elem); simpl; [|raises_with AttributeError].
  raises_with UnboundLocalError.
Qed.

Lemma process_patches_tag_without_access_witness :
  let pc : Counter := {[ "patches" := 1 ]} in
  let elem := example_patch "U1" "P1" [] in
  exists e,
    process_patches_tag example_platforms pc ∅ "end" elem = Raise e
    /\ (e = UnboundLocalError \/ e = AttributeError \/ e = TypeError)
    /\ (forall patch_files name_tag bug abstract release,
          mapM build_patch_file (iterfind_files_file elem) = Return patch_files ->
          find "name" elem = Some name_tag ->
          find "bug" elem = Some bug ->
          find "abstract" bug = Some abstract ->
          find "release" elem = Some release ->
          e = UnboundLocalError).
Proof.
  intros pc elem.
  apply (process_patches_tag_without_access example_platforms pc ∅ elem
           (leaf "platform" {[ "id" := "P1" ]} None)).
  - reflexivity.
  - reflexivity.
  - reflexivity.
  - reflexivity.
  - eexists. reflexivity.
Defined.

(** The first patch without an [access] child ends the call with
    [UnboundLocalError]; with the child the record is built. *)
Example process_patches_tag_unbound_access_level :
  process_patches_tag example_platforms {[ "patches" := 1 ]} ∅ "end"
    (example_patch "U1" "P1" [])
  = Raise UnboundLocalError
  /\ (fun r : Counter * gmap PyStr OraclePatch * Element =>
        access_level <$> r.1.2 !! Some "U1")
     <$> process_patches_tag example_platforms {[ "patches" := 1 ]} ∅ "end"
           (example_patch "U1" "P1" [example_access])
     = Return (Some (Some "Open access")).
Proof. by vm_compute. Qed.

Section RecommendationFacts.
Context {Component : Type}.
Variable all_platforms : gmap PyStr string.
Variable db_release_components : gmap PyStr Component.
Implicit Types (rp : Recommended) (key : PyStr * PyStr).

(** Adding to a set that is there is an update of the entry. *)
Lemma add_uids_insert key (patches : list Element) :
  forall rp uids,
    rp !! key = Some uids ->
    fold_left (fun rp patch => alter (fun uids => {[get "uid" patch]} ∪ uids) key rp)
              patches rp
    = <[key := list_to_set (get "uid" <$> patches) ∪ uids]> rp.
Proof.
  induction patches as [|patch patches IH]; intros rp uids Hkey; simpl.
  - rewrite insert_id; [done|]. rewrite Hkey. f_equal. set_solver.
  - rewrite (IH _ ({[get "uid" patch]} ∪ uids))
      by (by rewrite lookup_alter_eq, Hkey).
    apply map_eq. intros key'.
    destruct (decide (key = key')) as [<-|Hne].
    + rewrite !lookup_insert_eq. f_equal. set_solver.
    + by rewrite !lookup_insert_ne, lookup_alter_ne.
Qed.

Lemma merge_release_fold component_id elem rp :
  merge_release all_platforms component_id elem rp
  = fold_left (merge_platform all_platforms component_id) (children elem) rp.
Proof. reflexivity. Qed.

(** A wanted platform: the uids of its patches join the set of its key,
    the empty set when the key is new. *)
Lemma merge_platform_lookup component_id rp platform key :
  merge_platform all_platforms component_id rp platform !! key
  = if hits all_platforms component_id key platform
    then Some (default ∅ (rp !! key) ∪ platform_uids platform)
    else rp !! key.
Proof.
  unfold merge_platform, hits, is_in, add_patches.
  destruct (bool_decide (is_Some (all_platforms !! get "id" platform)));
    [|by rewrite andb_false_r].
  rewrite andb_true_r.
  set (key0 := (component_id, get "id" platform)).
  case_bool_decide as Hthere.
  - destruct Hthere as [uids Huids].
    rewrite (add_uids_insert _ _ _ uids) by done.
    case_bool_decide as Hkey.
    + subst key. rewrite lookup_insert_eq, Huids. simpl. f_equal.
      unfold platform_uids. set_solver.
    + by rewrite lookup_insert_ne.
  - rewrite (add_uids_insert _ _ _ ∅) by apply lookup_insert_eq.
    rewrite insert_insert_eq.
    case_bool_decide as Hkey.
    + subst key. rewrite lookup_insert_eq.
      apply eq_None_not_Some in Hthere. rewrite Hthere. simpl. f_equal.
      unfold platform_uids. set_solver.
    + by rewrite lookup_insert_ne.
Qed.

Lemma added_uids_untouched component_id key platforms :
  existsb (hits all_platforms component_id key) platforms = false ->
  added_uids all_platforms component_id key platforms = ∅.
Proof.
  induction platforms as [|platform platforms IH]; [done|]. simpl.
  intros [Hhit Hrest]%orb_false_elim. rewrite Hhit, IH by done. set_solver.
Qed.

(** The entry of a key after the loop over the platforms: the union of
    what was there, nothing when the key was not there, and of what the
    platforms with this key have. *)
Lemma merge_platforms_lookup component_id key platforms :
  forall rp,
    fold_left (merge_platform all_platforms component_id) platforms rp !! key
    = if existsb (hits all_platforms component_id key) platforms
      then Some (default ∅ (rp !! key)
                 ∪ added_uids all_platforms component_id key platforms)
      else rp !! key.
Proof.
  induction platforms as [|platform platforms IH]; intros rp; [done|].
  cbn [fold_left existsb added_uids]. rewrite IH, merge_platform_lookup.
  destruct (hits all_platforms component_id key platform) eqn:Hhit;
    destruct (existsb (hits all_platforms component_id key) platforms) eqn:Hrest;
    cbn [orb default].
  - f_equal. set_solver.
  - rewrite added_uids_untouched by done. f_equal. set_solver.
  - f_equal. set_solver.
  - done.
Qed.

Lemma merge_release_lookup component_id elem rp key :
  merge_release all_platforms component_id elem rp !! key
  = if existsb (hits all_platforms component_id key) (children elem)
    then Some (default ∅ (rp !! key)
               ∪ added_uids all_platforms component_id key (children elem))
    else rp !! key.
Proof. rewrite merge_release_fold. apply merge_platforms_lookup. Qed.

(** Merging the same release a second time changes nothing. *)
Lemma merge_release_twice component_id elem rp :
  merge_release all_platforms component_id elem
    (merge_release all_platforms component_id elem rp)
  = merge_release all_platforms component_id elem rp.
Proof.
  apply map_eq. intros key. rewrite !merge_release_lookup.
  destruct (existsb _ _); [|done]. simpl. f_equal. set_solver.
Qed.

Lemma process_standalone_recommendations_tag_release pc rp elem :
  tag elem = "release" ->
  0 < count pc "standalone_recommendations" ->
  process_standalone_recommendations_tag all_platforms db_release_components
    pc rp "end" elem
  = (pc, merged all_platforms db_release_components rp elem, clear elem).
Proof.
  intros Htag Hactive%Z.ltb_lt.
  unfold process_standalone_recommendations_tag. simpl.
  rewrite Htag, Hactive. simpl. rewrite Htag. done.
Qed.

Lemma process_components_recommendations_tag_release pc rp elem :
  tag elem = "release" ->
  0 < count pc "components_recommendations" ->
  process_components_recommendations_tag all_platforms db_release_components
    pc rp "end" elem
  = (pc, merged all_platforms db_release_components rp elem, clear elem).
Proof.
  intros Htag Hactive%Z.ltb_lt.
  unfold process_components_recommendations_tag. simpl.
  rewrite Htag, Hactive. simpl. rewrite Htag. done.
Qed.
End RecommendationFacts.

(** C6.  At the end of a [release] element, each inside its own active
    section, the standalone handler and the components handler leave the
    same recommendation index; running the second on what the first left
    changes nothing, every uid being in its set once; and the set of a key
    is the union of what the key had before, nothing when it was absent,
    and of the uids the release has for it. *)
Theorem recommendation_handlers_agree {Component : Type}
    (all_platforms : gmap PyStr string)
    (db_release_components : gmap PyStr Component)
    (pc_standalone pc_components : Counter) (rp : Recommended) (elem : Element) :
  tag elem = "release" ->
  0 < count pc_standalone "standalone_recommendations" ->
  0 < count pc_components "components_recommendations" ->
  let standalone :=
    (process_standalone_recommendations_tag all_platforms db_release_components
       pc_standalone rp "end" elem).1.2 in
  let components :=
    (process_components_recommendations_tag all_platforms db_release_components
       pc_components rp "end" elem).1.2 in
  standalone = components
  /\ (process_components_recommendations_tag all_platforms db_release_components
        pc_components standalone "end" elem).1.2 = standalone
  /\ (forall key uids, standalone !! key = Some uids -> NoDup (elements uids))
  /\ (forall key,
        default ∅ (standalone !! key)
        = default ∅ (rp !! key)
          ∪ (if is_in (get "cid" elem) db_release_components
             then added_uids all_platforms (get "cid" elem) key (children elem)
             else ∅)).
Proof.
  intros Htag Hstandalone Hcomponents standalone components.
  subst standalone components.
  rewrite !process_standalone_recommendations_tag_release by done.
  rewrite !process_components_recommendations_tag_release by done.
  cbn [fst snd]. unfold merged.
  destruct (is_in (get "cid" elem) db_release_components).
  - split; [done|]. split; [apply merge_release_twice|].
    split; [intros; apply NoDup_elements|].
    intros key. rewrite merge_release_lookup.
    destruct (existsb _ _) eqn:Htouched; [done|].
    rewrite added_uids_untouched by done. set_solver.
  - split; [done|]. split; [done|].
    split; [intros; apply NoDup_elements|].
    intros key. set_solver.
Qed.

Lemma recommendation_handlers_agree_witness :
  let pc_standalone : Counter := {[ "standalone_recommendations" := 1 ]} in
  let pc_components : Counter := {[ "components_recommendations" := 1 ]} in
  let standalone :=
    (process_standalone_recommendations_tag example_platforms example_components
       pc_standalone ∅ "end" example_release).1.2 in
  let components :=
    (process_components_recommendations_tag example_platforms example_components
       pc_components ∅ "end" example_release).1.2 in
  standalone = components
  /\ (process_components_recommendations_tag example_platforms example_components
        pc_components standalone "end" example_release).1.2 = standalone
  /\ standalone = {[ (Some "C1", Some "P1") := {[ Some "U1"; Some "U2" ]} ]}.
Proof.
  intros pc_standalone pc_components standalone components.
  pose proof (recommendation_handlers_agree example_platforms example_components
                pc_standalone pc_components ∅ example_release
                eq_refl eq_refl eq_refl) as (Hsame & Htwice & _).
  split; [exact Hsame|]. split; [exact Htwice|]. by vm_compute.
Defined.

(** The example of the specification: the release in the standalone
    section and again in the components section; the run ends without an
    exception and the index has the one key with the two uids. *)
Example recommendation_merge_example :
  process_patch_recommendations_file example_platforms example_components
    example_recommendation_events
  = (None,
     mkIndices {[ "standalone_recommendations" := 0;
                  "components_recommendations" := 0 ]}
               ∅
               {[ (Some "C1", Some "P1") := {[ Some "U1"; Some "U2" ]} ]}).
Proof. by vm_compute. Qed.

(** * Further properties *)

(** ** The form of a digest *)

Lemma round_length v kw : length v = 8%nat -> length (SHA256.round v kw) = 8%nat.
Proof.
  intros Hv. do 9 (destruct v as [|? v]; try discriminate). done.
Qed.

Lemma rounds_length kws : forall v,
  length v = 8%nat -> length (fold_left SHA256.round kws v) = 8%nat.
Proof.
  induction kws as [|kw kws IH]; intros v Hv; [done|].
  simpl. by apply IH, round_length.
Qed.

Lemma compress_length h block :
  length h = 8%nat -> length (SHA256.compress h block) = 8%nat.
Proof.
  intros Hh. unfold SHA256.compress.
  rewrite length_map, length_combine, rounds_length by done. lia.
Qed.

Lemma blocks_length n : forall h bs,
  length h = 8%nat -> length (SHA256.blocks n h bs) = 8%nat.
Proof.
  induction n as [|n IH]; intros h bs Hh; [done|].
  simpl. by apply IH, compress_length.
Qed.

Lemma digest_words_length msg : length (SHA256.digest_words msg) = 8%nat.
Proof. unfold SHA256.digest_words. apply blocks_length. by vm_compute. Qed.

Lemma upper_hex_digit d :
  0 <= d < 16 -> is_upper_hex (upper_ascii (SHA256.hex_digit d)) = true.
Proof.
  intros Hd.
  assert (d = 0 \/ d = 1 \/ d = 2 \/ d = 3 \/ d = 4 \/ d = 5 \/ d = 6 \/ d = 7
          \/ d = 8 \/ d = 9 \/ d = 10 \/ d = 11 \/ d = 12 \/ d = 13 \/ d = 14
          \/ d = 15) as Hcases by lia.
  repeat (destruct Hcases as [->|Hcases]; [reflexivity|]). by subst.
Qed.

Lemma upper_append s t : upper (s +:+ t) = upper s +:+ upper t.
Proof. induction s as [|c s IH]; simpl; [done|]. by rewrite IH. Qed.

Lemma all_chars_append P s t :
  all_chars P (s +:+ t) = all_chars P s && all_chars P t.
Proof.
  induction s as [|c s IH]; simpl; [done|]. by rewrite IH, andb_assoc.
Qed.

Lemma string_length_append s t :
  String.length (s +:+ t) = (String.length s + String.length t)%nat.
Proof. induction s as [|c s IH]; simpl; [done|]. by rewrite IH. Qed.

Lemma upper_hex_of n x :
  String.length (upper (SHA256.hex_of n x)) = n
  /\ all_chars is_upper_hex (upper (SHA256.hex_of n x)) = true.
Proof.
  induction n as [|n [IHlen IHall]]; simpl; [done|].
  rewrite IHlen, IHall, upper_hex_digit; [done|].
  apply Z.mod_pos_bound. lia.
Qed.

Lemma upper_hex_words ws :
  String.length
    (upper (fold_right (fun w s => SHA256.hex_of 8 w +:+ s) EmptyString ws))
  = (8 * length ws)%nat
  /\ all_chars is_upper_hex
       (upper (fold_right (fun w s => SHA256.hex_of 8 w +:+ s) EmptyString ws))
     = true.
Proof.
  induction ws as [|w ws [IHlen IHall]]; [done|].
  cbn [fold_right length].
  rewrite upper_append, string_length_append, all_chars_append, IHlen, IHall.
  destruct (upper_hex_of 8 w) as [-> ->]. split; [lia|done].
Qed.

Lemma upper_hexdigest_form content :
  is_upper_digest (upper (SHA256.hexdigest content)) = true.
Proof.
  unfold is_upper_digest, SHA256.hexdigest.
  destruct (upper_hex_words
              (SHA256.digest_words
                 (map (fun b => Z.of_N (Byte.to_N b)) content))) as [-> ->].
  by rewrite digest_words_length.
Qed.

(** X3.  [__calculate_file_checksum] raises [FileNotFoundError] when the file is
    not there, and for a file that is there returns 64 characters that are
    digits or upper-case letters from A to F, whatever the file holds. *)
Theorem calculate_file_checksum_form (d : Disk) target_dir file_name :
  match d !! file_path target_dir file_name with
  | None => calculate_file_checksum d target_dir file_name = Raise FileNotFoundError
  | Some content =>
      exists checksum,
        calculate_file_checksum d target_dir file_name = Return checksum
        /\ String.length checksum = 64%nat
        /\ all_chars is_upper_hex checksum = true
  end.
Proof.
  destruct (d !! file_path target_dir file_name) as [content|] eqn:Hfile.
  - rewrite (calculate_file_checksum_content _ _ _ content) by done.
    eexists. split; [done|].
    pose proof (upper_hexdigest_form content) as Hform.
    unfold is_upper_digest in Hform.
    apply andb_prop in Hform as [Hlen Hall]. by apply Nat.eqb_eq in Hlen.
  - unfold calculate_file_checksum. by rewrite Hfile.
Qed.

(** X4.  An expected checksum that is not empty and is not 64 upper-case
    hexadecimal digits, one in lower-case letters for instance, makes every
    transfer end in [ChecksumMismatch], whatever the server sends. *)
Theorem download_link_malformed_checksum_raises {T} requests_get url expected
    target_dir (progress_function : option (string -> Z -> Z -> T)) w resp :
  requests_get url = Some resp ->
  expected <> EmptyString ->
  is_upper_digest expected = false ->
  is_Some progress_function
  \/ check_file_exists (disk w) target_dir (extract_file_name_from_url url)
                       (default 0 (content_length resp)) = false ->
  fst (download_link requests_get url (Some expected) target_dir
                     progress_function false w)
  = Raise ChecksumMismatch.
Proof.
  intros Hget Hnonempty Hform Hpath.
  assert (truthy (Some expected) = true) as Htruthy by by destruct expected.
  destruct (download_link_verified requests_get url (Some expected) target_dir
              progress_function w resp Hget Htruthy Hpath)
    as (content & _ & ->).
  case_bool_decide as Hsame; [|done].
  injection Hsame as ->. by rewrite upper_hexdigest_form in Hform.
Qed.

Lemma download_link_malformed_checksum_raises_witness :
  fst (download_link (T := unit)
         (fun _ => Some (mkResponse (Some 3) [list_byte_of_string "abc"]))
         "https://updates.oracle.com/Orion/Download/p1.zip"
         (Some "ba7816bf8f01cfea414140de5dae2223b00361a396177a9cb410ff61f20015ad")
         "/patches" None false (mkEffects ∅ [] 0%nat))
  = Raise ChecksumMismatch.
Proof.
  apply (download_link_malformed_checksum_raises _ _ _ _ _ _
           (mkResponse (Some 3) [list_byte_of_string "abc"])).
  - reflexivity.
  - discriminate.
  - reflexivity.
  - right. reflexivity.
Defined.

(** ** More on the verified downloader *)

Section DownloadLinkMore.
Context {T : Type}.
Implicit Types (w : Effects T) (f : string -> Z -> Z -> T).

(** What the write loop reports: with a callback and a declared size that
    is not zero, the byte count after each chunk; nothing otherwise. *)
Lemma write_chunks_calls progress_function path file_name file_size chunks :
  forall total_dl w,
    progress_calls
      (snd (write_chunks progress_function path file_name file_size chunks
                         total_dl w))
    = progress_calls w
      ++ match progress_function with
         | Some f =>
             if file_size =? 0 then []
             else map (f file_name file_size) (running_totals total_dl chunks)
         | None => []
         end.
Proof.
  induction chunks as [|chunk chunks IH]; intros total_dl w; simpl.
  - destruct progress_function; [destruct (file_size =? 0)|]; by rewrite app_nil_r.
  - destruct progress_function as [f|]; simpl.
    + destruct (file_size =? 0) eqn:Hsize; simpl.
      * by rewrite IH.
      * rewrite IH. simpl. by rewrite <- app_assoc.
    + rewrite andb_false_r. rewrite IH. done.
Qed.

(** X5.  On the streaming path the callback is called once per chunk, with the
    declared size and the number of bytes received so far; it is not
    called at all when the declared size is zero or absent. *)
Theorem download_link_progress_totals requests_get url oracle_file_checksum
    target_dir f w resp :
  requests_get url = Some resp ->
  check_file_exists (disk w) target_dir (extract_file_name_from_url url)
                    (default 0 (content_length resp)) = false ->
  progress_calls
    (snd (download_link requests_get url oracle_file_checksum target_dir
                        (Some f) false w))
  = progress_calls w
    ++ (if default 0 (content_length resp) =? 0 then []
        else map (f (extract_file_name_from_url url)
                    (default 0 (content_length resp)))
                 (running_totals 0 (iter_content resp))).
Proof.
  intros Hget Hcheck. unfold download_link. rewrite Hget, Hcheck.
  set (path := file_path target_dir (extract_file_name_from_url url)).
  set (w0 := mkEffects (<[path:=[]]> (disk w)) (progress_calls w) (body_reads w)).
  pose proof (write_chunks_calls (Some f) path (extract_file_name_from_url url)
                (default 0 (content_length resp)) (iter_content resp) 0 w0)
    as Hcalls.
  destruct (write_chunks _ _ _ _ _ _ _) as [[e|[]] w1]; simpl in *; [done|].
  destruct (calculate_file_checksum _ _ _); [done|].
  by destruct (_ && _).
Qed.

(** X6.  A second call for a file just transferred: the file is read from the
    network again exactly when its length is not the declared size; the
    disk and the outcome are those of the first call either way. *)
Theorem download_link_again requests_get url oracle_file_checksum target_dir
    f w resp :
  requests_get url = Some resp ->
  check_file_exists (disk w) target_dir (extract_file_name_from_url url)
                    (default 0 (content_length resp)) = false ->
  let first :=
    download_link requests_get url oracle_file_checksum target_dir (Some f)
                  false w in
  let second :=
    download_link requests_get url oracle_file_checksum target_dir (Some f)
                  false (snd first) in
  fst second = fst first
  /\ disk (snd second) = disk (snd first)
  /\ body_reads (snd second)
     = (body_reads (snd first)
        + if (Z.of_nat (length (concat (iter_content resp)))
              =? default 0 (content_length resp))%Z
          then 0 else length (iter_content resp))%nat.
Proof.
  intros Hget Hcheck first second.
  destruct (download_link_stream requests_get url oracle_file_checksum
              target_dir (Some f) w resp Hget Hcheck) as (calls & Hfirst & _).
  subst second first. rewrite Hfirst. cbn [fst snd].
  set (path := file_path target_dir (extract_file_name_from_url url)).
  set (w1 := mkEffects _ _ _).
  assert (disk w1 !! path = Some (concat (iter_content resp))) as Hfile
    by apply lookup_insert_eq.
  destruct (Z.eqb_spec (Z.of_nat (length (concat (iter_content resp))))
                       (default 0 (content_length resp))) as [Hsize|Hsize].
  - rewrite (download_link_skip _ _ _ _ _ _ resp (concat (iter_content resp)))
      by done.
    simpl. by rewrite Nat.add_0_r.
  - assert (check_file_exists (disk w1) target_dir (extract_file_name_from_url url)
              (default 0 (content_length resp)) = false) as Hcheck1.
    { unfold check_file_exists. fold path. rewrite Hfile.
      by destruct (Z.eqb_spec (Z.of_nat (length (concat (iter_content resp))))
                              (default 0 (content_length resp))). }
    destruct (download_link_stream requests_get url oracle_file_checksum
                target_dir (Some f) w1 resp Hget Hcheck1)
      as (calls' & -> & _).
    simpl. fold path. by rewrite insert_insert_eq.
Qed.

(** X7.  The call [__download_em_catalog] makes, with no checksum and no
    callback and only when [em_catalog.zip] is not in the target directory:
    once the server answers it returns the declared size and leaves the
    archive on disk with the bytes received, calling nothing. *)
Theorem download_link_em_catalog requests_get target_dir w resp :
  requests_get "https://updates.oracle.com/download/em_catalog.zip" = Some resp ->
  disk w !! file_path target_dir "em_catalog.zip" = None ->
  download_link requests_get "https://updates.oracle.com/download/em_catalog.zip"
                None target_dir None false w
  = (Return (default 0 (content_length resp)),
     mkEffects (<[file_path target_dir "em_catalog.zip"
                  := concat (iter_content resp)]> (disk w))
               (progress_calls w)
               (body_reads w + length (iter_content resp))).
Proof.
  intros Hget Hfile.
  assert (check_file_exists (disk w) target_dir
            (extract_file_name_from_url
               "https://updates.oracle.com/download/em_catalog.zip")
            (default 0 (content_length resp)) = false) as Hcheck.
  { unfold check_file_exists.
    change (extract_file_name_from_url _) with "em_catalog.zip".
    by rewrite Hfile. }
  destruct (download_link_stream requests_get _ None target_dir None w resp
              Hget Hcheck) as (calls & -> & Hnone).
  rewrite Hnone, app_nil_r by done. done.
Qed.
End DownloadLinkMore.

Lemma download_link_progress_totals_witness :
  let body := list_byte_of_string "abc" in
  progress_calls
    (snd (download_link
            (fun _ => Some (mkResponse (Some 6) [body; body]))
            "https://updates.oracle.com/Orion/Download/p1.zip" None "/patches"
            (Some (fun file_name file_size total => (file_name, file_size, total)))
            false (mkEffects ∅ [] 0%nat)))
  = [("p1.zip", 6, 3); ("p1.zip", 6, 6)].
Proof.
  intros body.
  exact (download_link_progress_totals
           (fun _ => Some (mkResponse (Some 6) [body; body]))
           "https://updates.oracle.com/Orion/Download/p1.zip" None "/patches"
           (fun file_name file_size total => (file_name, file_size, total))
           (mkEffects ∅ [] 0%nat) (mkResponse (Some 6) [body; body])
           eq_refl eq_refl).
Defined.

Lemma download_link_again_witness :
  let body := list_byte_of_string "abc" in
  let requests_get := fun _ : string => Some (mkResponse (Some 6) [body; body]) in
  let first :=
    download_link requests_get "https://updates.oracle.com/Orion/Download/p1.zip"
                  None "/patches"
                  (Some (fun file_name file_size total => (file_name, file_size, total)))
                  false (mkEffects ∅ [] 0%nat) in
  let second :=
    download_link requests_get "https://updates.oracle.com/Orion/Download/p1.zip"
                  None "/patches"
                  (Some (fun file_name file_size total => (file_name, file_size, total)))
                  false (snd first) in
  fst second = fst first
  /\ disk (snd second) = disk (snd first)
  /\ body_reads (snd second) = (body_reads (snd first) + 0)%nat.
Proof.
  intros body requests_get.
  exact (download_link_again requests_get
           "https://updates.oracle.com/Orion/Download/p1.zip" None "/patches"
           (fun file_name file_size total => (file_name, file_size, total))
           (mkEffects ∅ [] 0%nat) (mkResponse (Some 6) [body; body])
           eq_refl eq_refl).
Defined.

Lemma download_link_em_catalog_witness :
  let body := list_byte_of_string "PK" in
  download_link (T := unit) (fun _ => Some (mkResponse (Some 2) [body]))
                "https://updates.oracle.com/download/em_catalog.zip"
                None "/patches" None false (mkEffects ∅ [] 0%nat)
  = (Return 2,
     mkEffects (<[file_path "/patches" "em_catalog.zip" := concat [body]]> ∅)
               [] (0 + 1)%nat).
Proof.
  intros body.
  exact (download_link_em_catalog (T := unit)
           (fun _ => Some (mkResponse (Some 2) [body])) "/patches"
           (mkEffects ∅ [] 0%nat) (mkResponse (Some 2) [body]) eq_refl eq_refl).
Defined.

(** ** File names from URLs *)

Lemma strip_literal_Some lit : forall s r,
  strip_literal lit s = Some r -> s = lit +:+ r.
Proof.
  induction lit as [|a lit IH]; intros s r; simpl; [by intros [= ->]|].
  destruct s as [|b s]; [done|].
  destruct (Ascii.eqb_spec a b) as [->|]; [|done].
  intros Hrest. by rewrite (IH _ _ Hrest).
Qed.

Lemma host_prefix_len_no_slash s : no_slash s = true -> host_prefix_len s = None.
Proof.
  intros Hs. unfold host_prefix_len.
  destruct (strip_literal "https://" s) as [r|] eqn:Hstrip; [|done].
  apply strip_literal_Some in Hstrip as ->. done.
Qed.

Lemma sub_host_prefix_no_slash s : no_slash s = true -> sub_host_prefix O s = s.
Proof.
  induction s as [|c s IH]; intros Hs; [done|].
  cbn [sub_host_prefix]. rewrite host_prefix_len_no_slash by done.
  simpl in Hs. apply andb_prop in Hs as [_ Hs]. by rewrite IH.
Qed.

Lemma sub_query_no_question s :
  all_chars (fun c => negb (Ascii.eqb c "?")) s = true -> sub_query s = s.
Proof.
  induction s as [|c s IH]; intros Hs; [done|]. simpl in *.
  apply andb_prop in Hs as [Hc Hs]. apply negb_true_iff in Hc.
  by rewrite Hc, IH.
Qed.

(** X2.  A name with no slash and no question mark in it is its own file name. *)
Theorem extract_file_name_plain url :
  no_slash url = true ->
  all_chars (fun c => negb (Ascii.eqb c "?")) url = true ->
  extract_file_name_from_url url = url.
Proof.
  intros Hslash Hquestion. unfold extract_file_name_from_url.
  by rewrite sub_host_prefix_no_slash, sub_query_no_question.
Qed.

Lemma extract_file_name_plain_witness :
  extract_file_name_from_url "p6880880_190000_Linux-x86-64.zip"
  = "p6880880_190000_Linux-x86-64.zip".
Proof.
  exact (extract_file_name_plain "p6880880_190000_Linux-x86-64.zip"
           eq_refl eq_refl).
Defined.

Lemma append_assoc (s t u : string) : (s +:+ t) +:+ u = s +:+ (t +:+ u).
Proof. induction s as [|c s IH]; [done|]. by rewrite !append_cons, IH. Qed.

Lemma no_slash_append s t : no_slash (s +:+ t) = no_slash s && no_slash t.
Proof. apply all_chars_append. Qed.

Lemma segments_len_no_slash rest : forall n cur,
  no_slash rest = true -> segments_len n cur rest = n.
Proof.
  induction rest as [|c rest IH]; intros n cur Hrest; [reflexivity|].
  simpl in *. apply andb_prop in Hrest as [Hc Hrest].
  apply negb_true_iff in Hc. rewrite Hc.
  destruct (is_segment_char c); [by apply IH|reflexivity].
Qed.

Lemma segments_len_directory dir : forall n cur rest,
  all_chars is_segment_char dir = true ->
  (0 < cur + String.length dir)%nat ->
  segments_len n cur (dir +:+ "/" +:+ rest)
  = segments_len (n + cur + String.length dir + 1) O rest.
Proof.
  induction dir as [|c dir IH]; intros n cur rest Hdir Hlen.
  - simpl in *. destruct cur as [|cur]; [lia|]. do 2 f_equal. lia.
  - rewrite append_cons. simpl in *.
    apply andb_prop in Hdir as [-> Hdir].
    rewrite IH by (assumption || lia). f_equal. lia.
Qed.

Lemma segments_len_directories dirs : forall n rest,
  Forall (fun dir => dir <> EmptyString /\ all_chars is_segment_char dir = true)
         dirs ->
  no_slash rest = true ->
  segments_len n O (directories dirs +:+ rest)
  = (n + String.length (directories dirs))%nat.
Proof.
  induction dirs as [|dir dirs IH]; intros n rest Hdirs Hrest;
    cbn [directories fold_right].
  - change (EmptyString +:+ rest) with rest.
    rewrite segments_len_no_slash by assumption. simpl. lia.
  - inversion Hdirs as [|? ? [Hdir Hseg] Hdirs']; subst.
    fold (directories dirs). rewrite !append_assoc.
    rewrite (segments_len_directory dir);
      [|assumption|destruct dir; simpl; [congruence|lia]].
    rewrite IH by assumption.
    rewrite !string_length_append. cbn [String.length]. lia.
Qed.

Lemma non_dot_run_host host rest :
  all_chars (fun c => negb (Ascii.eqb c ".")) host = true ->
  non_dot_run (host +:+ String "." rest) = String.length host.
Proof.
  induction host as [|c host IH]; intros Hhost; [done|]. simpl in *.
  apply andb_prop in Hhost as [Hc Hhost]. apply negb_true_iff in Hc.
  by rewrite Hc, IH.
Qed.

Lemma drop_chars_append s t : drop_chars (String.length s) (s +:+ t) = t.
Proof. induction s as [|c s IH]; simpl; [by destruct t|done]. Qed.

Lemma sub_host_prefix_skip s : forall t,
  sub_host_prefix (String.length s) (s +:+ t) = sub_host_prefix O t.
Proof. induction s as [|c s IH]; intros t; simpl; [done|]. apply IH. Qed.

Lemma sub_query_file file query :
  all_chars (fun c => negb (Ascii.eqb c "?")) file = true ->
  is_query query = true ->
  sub_query (file +:+ query) = file.
Proof.
  intros Hfile Hquery.
  induction file as [|c file IH]; simpl in *.
  - destruct query as [|c q]; [done|]. simpl in *.
    apply andb_prop in Hquery as [Hquery Hline].
    apply andb_prop in Hquery as [-> Hq].
    assert (forall s seen, all_chars (fun c => negb (Ascii.eqb c newline)) s = true ->
                           (seen = true \/ s <> EmptyString) ->
                           rest_of_line seen s = Some EmptyString) as Hrest.
    { clear. induction s as [|c s IH]; intros seen Hs Hseen; simpl in *.
      - destruct Hseen as [->|?]; done.
      - apply andb_prop in Hs as [Hc Hs]. apply negb_true_iff in Hc.
        rewrite Hc. apply IH; [done|by left]. }
    rewrite Hrest; [done|done|].
    right. intros ->. done.
  - apply andb_prop in Hfile as [Hc Hfile]. apply negb_true_iff in Hc.
    by rewrite Hc, IH.
Qed.

Lemma strip_literal_append lit rest : strip_literal lit (lit +:+ rest) = Some rest.
Proof.
  induction lit as [|c lit IH]; [by destruct rest|].
  rewrite append_cons. simpl. by rewrite Ascii.eqb_refl.
Qed.

Lemma host_prefix_len_oracle host dirs rest :
  host <> EmptyString ->
  all_chars (fun c => negb (Ascii.eqb c ".")) host = true ->
  Forall (fun dir => dir <> EmptyString /\ all_chars is_segment_char dir = true)
         dirs ->
  no_slash rest = true ->
  host_prefix_len
    ("https://" +:+ host +:+ ".oracle.com/" +:+ directories dirs +:+ rest)
  = Some (String.length
            ("https://" +:+ host +:+ ".oracle.com/" +:+ directories dirs)).
Proof.
  intros Hhost Hdots Hdirs Hrest. unfold host_prefix_len.
  rewrite strip_literal_append.
  change (".oracle.com/" +:+ directories dirs +:+ rest)
    with (String "." ("oracle.com/" +:+ directories dirs +:+ rest)).
  rewrite non_dot_run_host by assumption.
  destruct (String.length host) as [|k] eqn:Hk; [by destruct host|].
  rewrite <- Hk, drop_chars_append.
  change (String "." ("oracle.com/" +:+ directories dirs +:+ rest))
    with (".oracle.com/" +:+ directories dirs +:+ rest).
  rewrite strip_literal_append, segments_len_directories by assumption.
  rewrite !string_length_append. f_equal. simpl. lia.
Qed.

(** X1.  The file name of a download URL of an [oracle.com] host: the host, the
    directories and the query are taken away.  The host has no dot before
    [.oracle.com], every directory is made of letters, digits, hyphens and
    underscores, and neither the file name nor the query has a slash. *)
Theorem extract_file_name_oracle_url host dirs file query :
  host <> EmptyString ->
  all_chars (fun c => negb (Ascii.eqb c ".")) host = true ->
  Forall (fun dir => dir <> EmptyString /\ all_chars is_segment_char dir = true)
         dirs ->
  no_slash file = true ->
  all_chars (fun c => negb (Ascii.eqb c "?")) file = true ->
  is_query query = true ->
  no_slash query = true ->
  extract_file_name_from_url
    ("https://" +:+ host +:+ ".oracle.com/" +:+ directories dirs +:+ file +:+ query)
  = file.
Proof.
  intros Hhost Hdots Hdirs Hfile Hquestion Hquery Hslash.
  assert (no_slash (file +:+ query) = true) as Hrest
    by (by rewrite no_slash_append, Hfile, Hslash).
  unfold extract_file_name_from_url.
  set (rest := file +:+ query) in *.
  pose proof (host_prefix_len_oracle host dirs rest Hhost Hdots Hdirs Hrest)
    as Hlen.
  assert ("https://" +:+ host +:+ ".oracle.com/" +:+ directories dirs +:+ rest
          = String "h" (("ttps://" +:+ host +:+ ".oracle.com/" +:+ directories dirs)
                        +:+ rest)) as Hurl.
  { rewrite !append_assoc. reflexivity. }
  rewrite Hurl in *. cbn [sub_host_prefix]. rewrite Hlen.
  change (String.length
            ("https://" +:+ host +:+ ".oracle.com/" +:+ directories dirs))
    with (S (String.length
               ("ttps://" +:+ host +:+ ".oracle.com/" +:+ directories dirs))).
  cbv beta iota.
  rewrite sub_host_prefix_skip, sub_host_prefix_no_slash by assumption.
  by apply sub_query_file.
Qed.

Lemma extract_file_name_oracle_url_witness :
  extract_file_name_from_url
    ("https://" +:+ "updates" +:+ ".oracle.com/"
     +:+ directories ["Orion"; "Services"; "download"]
     +:+ "p6880880_190000_Linux-x86-64.zip" +:+ "?aru=25527362&patch_file=x")
  = "p6880880_190000_Linux-x86-64.zip".
Proof.
  apply (extract_file_name_oracle_url "updates" ["Orion"; "Services"; "download"]);
    try reflexivity.
  - discriminate.
  - repeat constructor; discriminate.
Defined.

(** ** More on the logon *)

Lemma jar_update_twice jar new :
  Logon.jar_update (Logon.jar_update jar new) new = Logon.jar_update jar new.
Proof.
  unfold Logon.jar_update. apply map_eq. intros name.
  rewrite !lookup_union. by destruct (new !! name), (jar !! name).
Qed.

(** One pass on a redirect with a [Location], when the server answers. *)
Lemma loop_body_redirect resp loc jar next rest requested :
  redirect_target resp = Some loc ->
  Logon.loop_body
    (Logon.mkState resp (Some jar) (Logon.status_code resp) (next :: rest) requested)
  = Logon.Again
      (Logon.mkState next (Some (Logon.jar_update jar (Logon.cookies next)))
                     (Logon.status_code next) rest
                     (requested ++ [resolve_location loc])).
Proof.
  unfold redirect_target, Logon.loop_body. simpl.
  destruct (Logon.status_code resp =? Logon.UNAUTHORIZED) eqn:H401.
  { apply Z.eqb_eq in H401. rewrite H401. done. }
  destruct (_ || _ || _); [|done]. by intros ->.
Qed.

Lemma loop_again fuel st st' :
  Logon.loop_body st = Logon.Again st' ->
  Logon.loop (S fuel) st = Logon.loop fuel st'.
Proof. intros Hbody. simpl. by rewrite Hbody. Qed.

(** The passes over a chain of redirects. *)
Lemma loop_redirects chain : forall current jar requested fuel last rest,
  Forall (fun resp => is_Some (redirect_target resp)) (current :: chain) ->
  Logon.loop (length (current :: chain) + fuel)
    (Logon.mkState current (Some jar) (Logon.status_code current)
                   (chain ++ last :: rest) requested)
  = Logon.loop fuel
      (Logon.mkState last
         (Some (fold_left (fun jar resp => Logon.jar_update jar (Logon.cookies resp))
                          (chain ++ [last]) jar))
         (Logon.status_code last) rest
         (requested
          ++ (resolve_location <$> omap redirect_target (current :: chain)))).
Proof.
  induction chain as [|next chain IH];
    intros current jar requested fuel last rest Hredirects;
    inversion Hredirects as [|? ? [loc Hloc] Hchain]; subst.
  - change (length [current] + fuel)%nat with (S fuel).
    change ([] ++ last :: rest) with (last :: rest).
    rewrite (loop_again _ _ _ (loop_body_redirect _ loc _ _ _ _ Hloc)).
    simpl. rewrite Hloc. done.
  - change (length (current :: next :: chain) + fuel)%nat
      with (S (length (next :: chain) + fuel)).
    change ((next :: chain) ++ last :: rest) with (next :: (chain ++ last :: rest)).
    rewrite (loop_again _ _ _ (loop_body_redirect _ loc _ _ _ _ Hloc)).
    rewrite IH by done.
    change (omap redirect_target (current :: next :: chain))
      with (match redirect_target current with
            | Some y => y :: omap redirect_target (next :: chain)
            | None => omap redirect_target (next :: chain)
            end).
    rewrite Hloc. rewrite fmap_cons, <- app_assoc. done.
Qed.

Lemma cookies_in_order_first first others :
  cookies_in_order (first :: others)
  = fold_left (fun jar resp => Logon.jar_update jar (Logon.cookies resp)) others
              (Logon.cookies first).
Proof.
  unfold cookies_in_order. simpl. f_equal.
  unfold Logon.jar_update. apply map_eq. intros name.
  rewrite lookup_union, lookup_empty. by destruct (Logon.cookies first !! name).
Qed.

Lemma fold_jar_update_last responses : forall jar last,
  Logon.jar_update
    (fold_left (fun jar resp => Logon.jar_update jar (Logon.cookies resp))
               (responses ++ [last]) jar)
    (Logon.cookies last)
  = fold_left (fun jar resp => Logon.jar_update jar (Logon.cookies resp))
              (responses ++ [last]) jar.
Proof.
  intros jar last. rewrite fold_left_app. simpl. apply jar_update_twice.
Qed.

(** The state the chain of redirects of a server ends in, and the number
    of passes it takes. *)
Lemma logon_follows_redirects redirects last rest fuel :
  Forall (fun resp => is_Some (redirect_target resp)) redirects ->
  exists jar,
    Some jar = Some (cookies_in_order (redirects ++ [last]))
    /\ Logon.logon_oracle_support (length redirects + fuel)
         (redirects ++ last :: rest)
       = match Logon.loop fuel
                 (Logon.mkState last (Some jar) (Logon.status_code last) rest
                    (LOGIN_URL
                     :: (resolve_location <$> omap redirect_target redirects)))
         with
         | None => None
         | Some (Raise e, st') => Some (Raise e, Some st')
         | Some (Return _, st') =>
             if Logon.status_code (Logon.login_response st') =? Logon.UNAUTHORIZED
             then Some (Return 1, Some st')
             else Some (Return 0, Some st')
         end.
Proof.
  intros Hredirects. eexists. split; [reflexivity|].
  destruct redirects as [|first chain].
  - simpl. rewrite cookies_in_order_first. done.
  - unfold Logon.logon_oracle_support. cbn [app].
    rewrite (loop_redirects chain first) by done.
    rewrite cookies_in_order_first. done.
Qed.

(** X8.  A chain of redirects that ends in a 200: the logon returns 0 after one
    pass per response, having asked for the login URL and then for each
    [Location], a path being put behind the host; the cookie jar holds the
    cookies of all the responses, a later one over an earlier one of the
    same name. *)
Theorem logon_redirects_then_ok redirects last rest :
  Forall (fun resp => is_Some (redirect_target resp)) redirects ->
  Logon.status_code last = Logon.OK ->
  exists st,
    Logon.logon_oracle_support (S (length redirects)) (redirects ++ last :: rest)
    = Some (Return 0, Some st)
    /\ Logon.cookie_jar st = Some (cookies_in_order (redirects ++ [last]))
    /\ Logon.requested st
       = LOGIN_URL :: (resolve_location <$> omap redirect_target redirects)
    /\ Logon.remote st = rest.
Proof.
  intros Hredirects Hok.
  destruct (logon_follows_redirects redirects last rest 1 Hredirects)
    as (jar & [= ->] & Hlogon).
  rewrite Nat.add_1_r in Hlogon. rewrite Hlogon.
  cbn [Logon.loop]. unfold Logon.loop_body. simpl. rewrite Hok. simpl.
  rewrite Hok. simpl. eexists. split; [done|]. simpl.
  split; [|done]. f_equal. unfold cookies_in_order. apply fold_jar_update_last.
Qed.

(** X9.  A chain of redirects that ends in a 401: the logon returns 1 and the
    cookie jar is dropped. *)
Theorem logon_redirects_then_unauthorized redirects last rest :
  Forall (fun resp => is_Some (redirect_target resp)) redirects ->
  Logon.status_code last = Logon.UNAUTHORIZED ->
  exists st,
    Logon.logon_oracle_support (S (length redirects)) (redirects ++ last :: rest)
    = Some (Return 1, Some st)
    /\ Logon.cookie_jar st = None
    /\ Logon.remote st = rest.
Proof.
  intros Hredirects H401.
  destruct (logon_follows_redirects redirects last rest 1 Hredirects)
    as (jar & _ & Hlogon).
  rewrite Nat.add_1_r in Hlogon. rewrite Hlogon.
  cbn [Logon.loop]. unfold Logon.loop_body. simpl. rewrite H401. simpl.
  rewrite H401. simpl. eauto.
Qed.

Lemma logon_redirects_then_ok_witness :
  exists st,
    Logon.logon_oracle_support 3
      (example_login_chain ++ example_login_last 200 :: [])
    = Some (Return 0, Some st)
    /\ Logon.cookie_jar st
       = Some (cookies_in_order (example_login_chain ++ [example_login_last 200]))
    /\ Logon.requested st
       = LOGIN_URL :: (resolve_location <$> omap redirect_target example_login_chain)
    /\ Logon.remote st = [].
Proof.
  apply (logon_redirects_then_ok example_login_chain (example_login_last 200) []).
  - repeat constructor; eexists; reflexivity.
  - reflexivity.
Defined.

Lemma logon_redirects_then_unauthorized_witness :
  exists st,
    Logon.logon_oracle_support 3
      (example_login_chain ++ example_login_last 401 :: [])
    = Some (Return 1, Some st)
    /\ Logon.cookie_jar st = None
    /\ Logon.remote st = [].
Proof.
  apply (logon_redirects_then_unauthorized example_login_chain
           (example_login_last 401) []).
  - repeat constructor; eexists; reflexivity.
  - reflexivity.
Defined.

(** The chain of the examples, as the logon leaves it. *)
Example logon_example_chain :
  (fun r : result Z * option Logon.State =>
     (fst r, Logon.cookie_jar <$> snd r, Logon.requested <$> snd r))
  <$> Logon.logon_oracle_support 3 (example_login_chain ++ [example_login_last 200])
  = Some (Return 0,
          Some (Some ({[ "ORA_SESSION" := "last"; "OAM_ID" := "abc" ]}
                      : gmap string string)),
          Some [ LOGIN_URL;
                 "https://updates.oracle.com/Orion/Services/download?step=2";
                 "https://login.oracle.com/oam/server/sso" ]).
Proof. by vm_compute. Qed.

Lemma loop_body_handled_outcome (st : Logon.State) :
  handled_status (Logon.status st) = true ->
  is_Some (Logon.cookie_jar st) ->
  match Logon.loop_body st with
  | Logon.Break _ => True
  | Logon.Raised e _ => e = KeyError \/ e = ConnectionError
  | Logon.Again st' =>
      exists resp,
        Logon.remote st = resp :: Logon.remote st'
        /\ Logon.status st' = Logon.status_code resp
        /\ is_Some (Logon.cookie_jar st')
  end.
Proof.
  unfold handled_status, Logon.loop_body. intros Hstatus [jar ->].
  destruct (Logon.status st =? Logon.UNAUTHORIZED) eqn:H401; [done|].
  destruct (Logon.status st =? Logon.FOUND) eqn:H302;
    [|destruct (Logon.status st =? Logon.TEMPORARY_REDIRECT) eqn:H307;
      [|destruct (Logon.status st =? Logon.MOVED_PERMANENTLY) eqn:H301]];
    simpl in *.
  1-3: destruct (Logon.location (Logon.login_response st)); [|by left];
       destruct (Logon.remote st) as [|resp rest]; [by right|]; simpl; eauto.
  by rewrite Hstatus.
Qed.

Lemma loop_handled_outcome (remote : list Logon.Response) :
  forall st : Logon.State,
    Logon.remote st = remote ->
    handled_status (Logon.status st) = true ->
    Forall (fun resp => handled_status (Logon.status_code resp) = true) remote ->
    is_Some (Logon.cookie_jar st) ->
    exists r st',
      Logon.loop (S (length remote)) st = Some (r, st')
      /\ (r = Return () \/ r = Raise KeyError \/ r = Raise ConnectionError).
Proof.
  induction remote as [|next remote IH]; intros st Hremote Hstatus Hall Hjar;
    pose proof (loop_body_handled_outcome st Hstatus Hjar) as Hbody;
    cbn [Logon.loop length]; destruct (Logon.loop_body st) as [st'|st'|e st'].
  - eexists _, _. split; [reflexivity|by left].
  - destruct Hbody as (resp & Hresp & _). congruence.
  - eexists _, _. split; [reflexivity|]. destruct Hbody as [-> | ->]; tauto.
  - eexists _, _. split; [reflexivity|by left].
  - destruct Hbody as (resp & Hresp & Hstatus' & Hjar').
    rewrite Hremote in Hresp. injection Hresp as <- Hrest.
    inversion Hall; subst. apply IH; [done|congruence|done..].
  - eexists _, _. split; [reflexivity|]. destruct Hbody as [-> | ->]; tauto.
Qed.

(** X10.  When every response of the server has a status the loop has a branch
    for, the logon ends within one pass per response: it returns 0 or 1, or
    raises [KeyError] at a redirect without [Location] or, when the server
    has no response left for a redirect, the error of the request. *)
Theorem logon_handled_terminates (server : list Logon.Response) :
  Forall (fun resp => handled_status (Logon.status_code resp) = true) server ->
  exists r st,
    Logon.logon_oracle_support (length server) server = Some (r, st)
    /\ (r = Return 0 \/ r = Return 1 \/ r = Raise KeyError
        \/ r = Raise ConnectionError).
Proof.
  intros Hall. destruct server as [|first rest].
  { eexists _, _. split; [reflexivity|tauto]. }
  inversion Hall; subst. unfold Logon.logon_oracle_support.
  destruct (loop_handled_outcome rest
              (Logon.mkState first (Some (Logon.cookies first))
                 (Logon.status_code first) rest
                 ["https://updates.oracle.com/Orion/Services/download"]))
    as (r & st' & Hloop & Hr); [done|done|done|eauto|].
  cbn [length]. rewrite Hloop.
  destruct Hr as [-> | [-> | ->]].
  - destruct (_ =? _); eexists _, _; (split; [reflexivity|tauto]).
  - eexists _, _. split; [reflexivity|tauto].
  - eexists _, _. split; [reflexivity|tauto].
Qed.

Lemma logon_handled_terminates_witness :
  exists r st,
    Logon.logon_oracle_support 2 example_login_chain = Some (r, st)
    /\ (r = Return 0 \/ r = Return 1 \/ r = Raise KeyError
        \/ r = Raise ConnectionError).
Proof.
  apply (logon_handled_terminates example_login_chain).
  repeat constructor.
Defined.

(** ** More on the description ledger *)

Lemma string_compare_lt_trans (s : string) : forall t u,
  String.compare s t = Lt -> String.compare t u = Lt -> String.compare s u = Lt.
Proof.
  induction s as [|a s IH]; intros [|b t] [|c u]; simpl; try done.
  unfold Ascii.compare.
  destruct (N.compare_spec (N_of_ascii a) (N_of_ascii b)) as [Hab|Hab|Hab];
    destruct (N.compare_spec (N_of_ascii b) (N_of_ascii c)) as [Hbc|Hbc|Hbc];
    try done; intros Hst Htu.
  - rewrite Hab, Hbc, N.compare_refl. by eapply IH.
  - rewrite Hab. by apply N.compare_lt_iff in Hbc as ->.
  - rewrite <- Hbc. by apply N.compare_lt_iff in Hab as ->.
  - assert (N_of_ascii a < N_of_ascii c)%N as Hac by lia.
    by apply N.compare_lt_iff in Hac as ->.
Qed.

Lemma string_compare_refl (s : string) : String.compare s s = Eq.
Proof.
  induction s as [|a s IH]; simpl; [done|].
  unfold Ascii.compare. by rewrite N.compare_refl.
Qed.

Lemma ascending_below x l :
  ascending (x :: l) -> Forall (fun y => String.compare x y = Lt) l.
Proof.
  revert x. induction l as [|y l IH]; intros x [Hxy Hl]; constructor; [done|].
  apply IH. destruct l as [|z l]; [done|].
  destruct Hl as [Hyz Hl]. split; [|by destruct Hl].
  by eapply string_compare_lt_trans.
Qed.

Lemma ascending_NoDup l : ascending l -> NoDup l.
Proof.
  induction l as [|x l IH]; intros Hl; constructor.
  - pose proof (ascending_below _ _ Hl) as Hbelow.
    intros Hx. rewrite Forall_forall in Hbelow.
    specialize (Hbelow _ Hx). by rewrite string_compare_refl in Hbelow.
  - apply IH. by destruct Hl.
Qed.

Lemma elem_of_insert_line l x ls : l ∈ insert_line x ls <-> l = x \/ l ∈ ls.
Proof.
  induction ls as [|y ls IH]; simpl.
  - rewrite list_elem_of_singleton. set_solver.
  - destruct (String.compare x y) eqn:Hxy.
    + apply String.compare_eq_iff in Hxy as ->. set_solver.
    + set_solver.
    + rewrite !elem_of_cons, IH. tauto.
Qed.

Lemma elem_of_sorted_set l ls : l ∈ sorted_set ls <-> l ∈ ls.
Proof.
  induction ls as [|x ls IH]; simpl; [done|].
  rewrite elem_of_insert_line, IH. set_solver.
Qed.

(** A ledger that does not decode: [readlines] raises before anything is
    written, so that ledger keeps its bytes, and so does the one after it
    in the list, which the loop never reaches. *)
Example remove_duplicate_lines_desc_files_undecodable :
  let first := "/patches/19.0.0.0/Linux_x86-64/description.txt" in
  let second := "/patches/21.0.0.0/Linux_x86-64/description.txt" in
  let d : Disk :=
    {[ first := [Byte.x62; Byte.x0a; Byte.xff; Byte.x0a; Byte.x62; Byte.x0a];
       second := [Byte.x62; Byte.x0a; Byte.x62; Byte.x0a] ]} in
  remove_duplicate_lines_desc_files [first; second] d
  = (Raise UnicodeDecodeError, d).
Proof. by vm_compute. Qed.

(** X11.  Of a ledger that decodes as UTF-8 and has all its lines ended,
    the deduplication returns, and the lines of what it writes are the
    lines the ledger had before, each of them once and in ascending
    order. *)
Theorem dedup_desc_file_lines (content : list Byte.byte) :
  ended_lines content -> utf8_decodes content = true ->
  exists content',
    dedup_desc_file content = Return content'
    /\ let lines_before :=
         readlines (universal_newlines (string_of_list_byte content)) in
       let lines_after :=
         readlines (universal_newlines (string_of_list_byte content')) in
       ascending lines_after
       /\ NoDup lines_after
       /\ (forall line, line ∈ lines_after <-> line ∈ lines_before).
Proof.
  intros Hended Hdec. eexists. split; [by apply dedup_desc_file_Return|].
  intros lines_before lines_after. subst lines_before lines_after.
  unfold ended_lines, universal_newlines in *.
  set (lines := sorted_set (readlines (translate_newlines false
                                         (string_of_list_byte content)))).
  assert (Forall (fun l => is_line l = true) lines) as Hlines.
  { apply sorted_set_Forall, readlines_lines.
    - apply translate_newlines_no_carriage_return.
    - by apply translate_newlines_terminated. }
  rewrite string_of_list_byte_of_string.
  rewrite translate_newlines_id by by apply writelines_no_carriage_return.
  rewrite readlines_writelines by done.
  split; [apply sorted_set_ascending|].
  split; [apply ascending_NoDup, sorted_set_ascending|].
  intros line. apply elem_of_sorted_set.
Qed.

Lemma dedup_desc_file_lines_witness :
  let content :=
    list_byte_of_string (String "b" (String newline (String "a"
      (String newline (String "b" (String newline EmptyString)))))) in
  exists content',
    dedup_desc_file content = Return content'
    /\ let lines_before :=
         readlines (universal_newlines (string_of_list_byte content)) in
       let lines_after :=
         readlines (universal_newlines (string_of_list_byte content')) in
       ascending lines_after
       /\ NoDup lines_after
       /\ (forall line, line ∈ lines_after <-> line ∈ lines_before).
Proof.
  intros content.
  exact (dedup_desc_file_lines content eq_refl eq_refl).
Defined.

Lemma remove_duplicate_lines_desc_files_settles desc_file_list :
  forall d : Disk,
  (forall desc_file, desc_file ∈ desc_file_list ->
     settled d desc_file
     \/ exists content,
          d !! desc_file = Some content
          /\ ended_lines content /\ utf8_decodes content = true) ->
  exists d',
    remove_duplicate_lines_desc_files desc_file_list d = (Return (), d')
    /\ (forall desc_file, desc_file ∈ desc_file_list -> settled d' desc_file)
    /\ (forall desc_file, settled d desc_file -> d' !! desc_file = d !! desc_file).
Proof.
  induction desc_file_list as [|desc_file rest IH]; intros d Hfiles; simpl.
  { exists d. split; [done|]. split; [|done]. intros ? Hin. by apply elem_of_nil in Hin. }
  assert (exists content content',
            d !! desc_file = Some content
            /\ dedup_desc_file content = Return content'
            /\ dedup_desc_file content' = Return content'
            /\ (settled d desc_file -> content' = content))
    as (content & content' & Hfile & Hrun & Hagain & Hsame).
  { destruct (Hfiles desc_file) as [(content & Hfile & Hrun)|(content & Hfile & Hended & Hdec)];
      [left|..].
    - exists content, content. repeat split; done.
    - destruct (dedup_desc_file_fixed content Hended Hdec) as (content' & Hrun & Hagain).
      exists content, content'. repeat split; try done.
      intros (content0 & Hfile0 & Hrun0). congruence. }
  rewrite Hfile, Hrun.
  destruct (IH (<[desc_file := content']> d)) as (d' & Hd' & Hsettled & Hkept).
  { intros other Hother.
    destruct (decide (other = desc_file)) as [->|Hne].
    - left. exists content'. by rewrite lookup_insert_eq.
    - destruct (Hfiles other) as [(c & Hc & Hs)|(c & Hc & Hs)]; [by right|left|right];
        exists c; by rewrite lookup_insert_ne. }
  assert (settled (<[desc_file := content']> d) desc_file) as Hnow.
  { exists content'. by rewrite lookup_insert_eq. }
  exists d'. split; [done|]. split.
  - intros other [->|Hother]%elem_of_cons; [|by apply Hsettled].
    pose proof (Hkept _ Hnow) as Hlook. rewrite lookup_insert_eq in Hlook.
    by exists content'.
  - intros other Hother.
    destruct (decide (other = desc_file)) as [->|Hne].
    + rewrite (Hkept _ Hnow), lookup_insert_eq, Hfile. f_equal. by apply Hsame.
    + rewrite Hkept; [by rewrite lookup_insert_ne|].
      destruct Hother as (c & Hc & Hs). exists c. by rewrite lookup_insert_ne.
Qed.

Lemma remove_duplicate_lines_desc_files_settled desc_file_list (d : Disk) :
  (forall desc_file, desc_file ∈ desc_file_list -> settled d desc_file) ->
  remove_duplicate_lines_desc_files desc_file_list d = (Return (), d).
Proof.
  induction desc_file_list as [|desc_file rest IH]; intros Hfiles; simpl; [done|].
  destruct (Hfiles desc_file) as (content & Hfile & Hrun); [left|].
  rewrite Hfile, Hrun, insert_id by done.
  apply IH. intros other Hother. apply Hfiles. by right.
Qed.

(** X12.  When every ledger the glob yields is on the disk, decodes as
    UTF-8 and has all its lines ended, the deduplication returns, and
    running it again over the same ledgers returns and leaves every file
    with the bytes the first run gave it. *)
Theorem remove_duplicate_lines_desc_files_fixed desc_file_list (d : Disk) :
  (forall desc_file, desc_file ∈ desc_file_list ->
     exists content,
       d !! desc_file = Some content
       /\ ended_lines content /\ utf8_decodes content = true) ->
  exists d',
    remove_duplicate_lines_desc_files desc_file_list d = (Return (), d')
    /\ remove_duplicate_lines_desc_files desc_file_list d' = (Return (), d').
Proof.
  intros Hfiles.
  destruct (remove_duplicate_lines_desc_files_settles desc_file_list d)
    as (d' & Hd' & Hsettled & _); [by right; apply Hfiles|].
  exists d'. split; [done|].
  by apply remove_duplicate_lines_desc_files_settled.
Qed.

Lemma remove_duplicate_lines_desc_files_fixed_witness :
  let desc_file := "/patches/19.0.0.0/Linux_x86-64/description.txt" in
  let d : Disk :=
    {[ desc_file := list_byte_of_string (String "b" (String newline (String "a"
         (String newline (String "b" (String newline EmptyString)))))) ]} in
  exists d',
    remove_duplicate_lines_desc_files [desc_file] d = (Return (), d')
    /\ remove_duplicate_lines_desc_files [desc_file] d' = (Return (), d').
Proof.
  intros desc_file d.
  apply (remove_duplicate_lines_desc_files_fixed [desc_file] d).
  intros path Hpath. apply list_elem_of_singleton in Hpath as ->.
  eexists. split; [apply lookup_singleton_eq|]. split; reflexivity.
Defined.

(** ** More on the streaming catalogue indexer *)

Section IndexerMore.
Context {Component : Type}.
Variable all_platforms : gmap PyStr string.
Variable db_release_components : gmap PyStr Component.
Implicit Types (rp : Recommended) (pc : Counter) (elem : Element).

(** A record that is added is stored under its own uid. *)
Lemma index_patch_Return_uid patches elem patches' :
  index_patch all_platforms patches elem = Return patches' ->
  patches' = patches
  \/ exists patch,
       patches' = <[get "uid" elem := patch]> patches
       /\ uid patch = get "uid" elem.
Proof.
  unfold index_patch. intros Hindex.
  apply bind_Return in Hindex as (platform_id & _ & Hindex).
  destruct (is_in platform_id all_platforms).
  - repeat (apply bind_Return in Hindex as (? & _ & Hindex)).
    destruct (find "access" elem); [|done].
    injection Hindex as <-. right. eauto.
  - injection Hindex as <-. by left.
Qed.

(** What [index_patch] keeps, the run over any events keeps. *)
Lemma process_events_patches_invariant (P : gmap PyStr OraclePatch -> Prop) :
  (forall patches elem patches',
     P patches -> index_patch all_platforms patches elem = Return patches' ->
     P patches') ->
  forall events ix,
    P (all_db_patches ix) ->
    P (all_db_patches
         (snd (process_events all_platforms db_release_components ix events))).
Proof.
  intros Hindex events.
  induction events as [|[evt elem] events IH]; intros ix Hix; [done|].
  cbn [process_events].
  destruct (process_event all_platforms db_release_components ix (evt, elem))
    as [e|ix'] eqn:Hevent; [done|].
  apply IH. unfold process_event in Hevent.
  apply bind_Return in Hevent as ([[pc patches] elem1] & Hpatches & Hevent).
  destruct (process_standalone_recommendations_tag _ _ _ _ _ _)
    as [[pc2 rp2] elem2].
  destruct (process_components_recommendations_tag _ _ _ _ _ _)
    as [[pc3 rp3] elem3].
  injection Hevent as <-. simpl.
  unfold process_patches_tag in Hpatches.
  apply bind_Return in Hpatches as ([patches1 elem'] & Hpatch & Hpatches).
  assert (P patches1) as Hpatches1.
  { destruct (_ && _ && _) in Hpatch.
    - apply bind_Return in Hpatch as (patches2 & Hpatch & [= <- _]).
      by eapply Hindex.
    - by injection Hpatch as <- _. }
  destruct (_ && _) in Hpatches; by injection Hpatches as _ <- _.
Qed.

Lemma merged_lookup rp elem key :
  merged all_platforms db_release_components rp elem !! key
  = if is_in (get "cid" elem) db_release_components
       && existsb (hits all_platforms (get "cid" elem) key) (children elem)
    then Some (default ∅ (rp !! key)
               ∪ added_uids all_platforms (get "cid" elem) key (children elem))
    else rp !! key.
Proof.
  unfold merged. destruct (is_in _ _); [|done].
  by rewrite merge_release_lookup.
Qed.

Lemma merged_known rp elem :
  recommendations_known all_platforms db_release_components rp ->
  recommendations_known all_platforms db_release_components
    (merged all_platforms db_release_components rp elem).
Proof.
  intros Hknown component_id platform_id uids. rewrite merged_lookup.
  destruct (is_in _ _ && _) eqn:Hhit; [|apply Hknown].
  intros _. apply andb_prop in Hhit as [Hcid Hhit].
  apply existsb_exists in Hhit as (platform & _ & Hhit).
  unfold hits in Hhit. apply andb_prop in Hhit as [Hkey Hwanted].
  apply bool_decide_eq_true_1 in Hkey, Hwanted, Hcid.
  by injection Hkey as -> ->.
Qed.

Lemma merged_grow rp elem :
  recommendations_grow rp (merged all_platforms db_release_components rp elem).
Proof.
  intros key uids Hkey. rewrite merged_lookup, Hkey.
  destruct (_ && _); [|by exists uids].
  eexists. split; [done|]. simpl. set_solver.
Qed.

(** Each handler leaves the index as it was or merges the element. *)
Lemma process_standalone_recommendations_tag_index pc rp evt elem :
  (process_standalone_recommendations_tag all_platforms db_release_components
     pc rp evt elem).1.2 = rp
  \/ (process_standalone_recommendations_tag all_platforms db_release_components
        pc rp evt elem).1.2
     = merged all_platforms db_release_components rp elem.
Proof.
  unfold process_standalone_recommendations_tag, merged.
  destruct (_ && _ && _); simpl; destruct (_ && _); simpl; tauto.
Qed.

Lemma process_components_recommendations_tag_index pc rp evt elem :
  (process_components_recommendations_tag all_platforms db_release_components
     pc rp evt elem).1.2 = rp
  \/ (process_components_recommendations_tag all_platforms db_release_components
        pc rp evt elem).1.2
     = merged all_platforms db_release_components rp elem.
Proof.
  unfold process_components_recommendations_tag, merged.
  destruct (_ && _ && _); simpl; destruct (_ && _); simpl; tauto.
Qed.

(** What merging keeps, the run over any events keeps. *)
Lemma process_events_recommended_invariant (R : Recommended -> Recommended -> Prop) :
  (forall rp, R rp rp) ->
  (forall rp1 rp2 rp3, R rp1 rp2 -> R rp2 rp3 -> R rp1 rp3) ->
  (forall rp elem, R rp (merged all_platforms db_release_components rp elem)) ->
  forall events ix,
    R (recommended_db_patches ix)
      (recommended_db_patches
         (snd (process_events all_platforms db_release_components ix events))).
Proof.
  intros Hrefl Htrans Hmerged events.
  induction events as [|[evt elem] events IH]; intros ix; [apply Hrefl|].
  cbn [process_events].
  destruct (process_event all_platforms db_release_components ix (evt, elem))
    as [e|ix'] eqn:Hevent; [apply Hrefl|].
  eapply Htrans; [|apply IH]. unfold process_event in Hevent.
  apply bind_Return in Hevent as ([[pc patches] elem1] & _ & Hevent).
  pose proof (process_standalone_recommendations_tag_index pc
                (recommended_db_patches ix) evt elem1) as Hstandalone.
  destruct (process_standalone_recommendations_tag _ _ _ _ _ _)
    as [[pc2 rp2] elem2].
  pose proof (process_components_recommendations_tag_index pc2 rp2 evt elem2)
    as Hcomponents.
  destruct (process_components_recommendations_tag _ _ _ _ _ _)
    as [[pc3 rp3] elem3].
  injection Hevent as <-. simpl in *.
  apply (Htrans _ rp2).
  - destruct Hstandalone as [-> | ->]; [apply Hrefl|apply Hmerged].
  - destruct Hcomponents as [-> | ->]; [apply Hrefl|apply Hmerged].
Qed.
End IndexerMore.

(** X13.  After any events, every key of the recommendation index pairs a known
    release component with a wanted platform. *)
Theorem recommendation_index_known {Component : Type}
    (all_platforms : gmap PyStr string)
    (db_release_components : gmap PyStr Component)
    (events : list (string * Element)) :
  recommendations_known all_platforms db_release_components
    (recommended_db_patches
       (snd (process_patch_recommendations_file all_platforms
               db_release_components events))).
Proof.
  unfold process_patch_recommendations_file.
  pose proof (process_events_recommended_invariant all_platforms
                db_release_components
                (fun rp rp' =>
                   recommendations_known all_platforms db_release_components rp ->
                   recommendations_known all_platforms db_release_components rp'))
    as Hrun.
  apply Hrun; [tauto|tauto|intros rp elem; apply merged_known|].
  intros component_id platform_id uids. simpl. by rewrite lookup_empty.
Qed.

(** X14.  The recommendation index only grows: whatever the events, a key that
    is in the index stays in it, and its set of uids loses nothing. *)
Theorem recommendation_index_grows {Component : Type}
    (all_platforms : gmap PyStr string)
    (db_release_components : gmap PyStr Component)
    (ix : Indices) (events : list (string * Element)) :
  recommendations_grow
    (recommended_db_patches ix)
    (recommended_db_patches
       (snd (process_events all_platforms db_release_components ix events))).
Proof.
  apply process_events_recommended_invariant.
  - intros rp key uids Hkey. by exists uids.
  - intros rp1 rp2 rp3 H12 H23 key uids Hkey.
    destruct (H12 _ _ Hkey) as (uids2 & Hkey2 & Hsub2).
    destruct (H23 _ _ Hkey2) as (uids3 & Hkey3 & Hsub3).
    exists uids3. split; [done|]. set_solver.
  - apply merged_grow.
Qed.

(** X15.  After any events, every record of the patch index is stored under its
    own uid: the key of an entry is the uid its record holds. *)
Theorem patch_index_keyed_by_uid {Component : Type}
    (all_platforms : gmap PyStr string)
    (db_release_components : gmap PyStr Component)
    (events : list (string * Element)) :
  keyed_by_uid
    (all_db_patches
       (snd (process_patch_recommendations_file all_platforms
               db_release_components events))).
Proof.
  unfold process_patch_recommendations_file.
  apply (process_events_patches_invariant all_platforms db_release_components
           keyed_by_uid).
  - intros patches elem patches' Hkeyed Hindex.
    destruct (index_patch_Return_uid _ _ _ _ Hindex) as [-> | (patch & -> & Huid)];
      [done|].
    intros key patch'. rewrite lookup_insert.
    case_decide; [by intros [= <-]; subst|]. apply Hkeyed.
  - intros key patch. simpl. by rewrite lookup_empty.
Qed.

Lemma count_add_count key n (c : Counter) s :
  count (add_count key n c) s
  = count c s + if bool_decide (s = key) then n else 0.
Proof.
  unfold count, add_count. case_bool_decide as Hs.
  - subst. by rewrite lookup_insert_eq.
  - rewrite lookup_insert_ne by done. lia.
Qed.

Lemma process_patches_tag_counter all_platforms pc patches evt elem pc' patches' elem' s :
  process_patches_tag all_platforms pc patches evt elem
  = Return (pc', patches', elem') ->
  tag elem' = tag elem
  /\ count pc' s
     = count pc s
       + if bool_decide (s = "patches")
         then section_delta "patches" evt (tag elem) else 0.
Proof.
  unfold process_patches_tag, section_delta. intros Hprocess.
  apply bind_Return in Hprocess as ([patches1 elem1] & Hpatch & Hprocess).
  set (elem0 := if String.eqb evt "start" && String.eqb (tag elem) "fixed_bugs"
                then clear elem else elem) in *.
  assert (tag elem0 = tag elem) as Htag0.
  { subst elem0.
    by destruct (String.eqb evt "start" && String.eqb (tag elem) "fixed_bugs"). }
  assert (tag elem1 = tag elem) as Htag1.
  { destruct (_ && _ && _) in Hpatch.
    - by apply bind_Return in Hpatch as (? & _ & [= _ <-]).
    - by injection Hpatch as _ <-. }
  rewrite Htag1 in Hprocess.
  destruct (String.eqb evt "start" && String.eqb (tag elem) "patches") eqn:Hstart;
    destruct (String.eqb evt "end" && String.eqb (tag elem) "patches") eqn:Hend;
    injection Hprocess as <- _ <-; simpl;
    rewrite ?count_add_count; (split; [done|]);
    case_bool_decide; lia.
Qed.

Lemma process_standalone_recommendations_tag_counter {Component : Type}
    (all_platforms : gmap PyStr string) (db : gmap PyStr Component)
    pc rp evt elem s :
  let out :=
    process_standalone_recommendations_tag all_platforms db pc rp evt elem in
  tag out.2 = tag elem
  /\ count out.1.1 s
     = count pc s
       + if bool_decide (s = "standalone_recommendations")
         then section_delta "standalone_recommendations" evt (tag elem) else 0.
Proof.
  unfold process_standalone_recommendations_tag, section_delta.
  destruct (String.eqb evt "start"
            && String.eqb (tag elem) "standalone_recommendations") eqn:Hstart;
    destruct (String.eqb evt "end" && _ && String.eqb (tag elem) "release");
    cbn [tag clear];
    destruct (String.eqb evt "end"
              && String.eqb (tag elem) "standalone_recommendations") eqn:Hend;
    cbn [fst snd tag clear]; rewrite ?count_add_count; (split; [done|]);
    case_bool_decide; lia.
Qed.

Lemma process_components_recommendations_tag_counter {Component : Type}
    (all_platforms : gmap PyStr string) (db : gmap PyStr Component)
    pc rp evt elem s :
  let out :=
    process_components_recommendations_tag all_platforms db pc rp evt elem in
  tag out.2 = tag elem
  /\ count out.1.1 s
     = count pc s
       + if bool_decide (s = "components_recommendations")
         then section_delta "components_recommendations" evt (tag elem) else 0.
Proof.
  unfold process_components_recommendations_tag, section_delta.
  destruct (String.eqb evt "start"
            && String.eqb (tag elem) "components_recommendations") eqn:Hstart;
    destruct (String.eqb evt "end" && _ && String.eqb (tag elem) "release");
    cbn [tag clear];
    destruct (String.eqb evt "end"
              && String.eqb (tag elem) "components_recommendations") eqn:Hend;
    cbn [fst snd tag clear]; rewrite ?count_add_count; (split; [done|]);
    case_bool_decide; lia.
Qed.

Lemma process_event_counter {Component : Type}
    (all_platforms : gmap PyStr string) (db : gmap PyStr Component)
    ix evt elem ix' s :
  process_event all_platforms db ix (evt, elem) = Return ix' ->
  s ∈ SECTIONS ->
  count (path_counter ix') s
  = count (path_counter ix) s + section_delta s evt (tag elem).
Proof.
  unfold process_event. intros Hevent Hs.
  apply bind_Return in Hevent as ([[pc1 patches] elem1] & Hpatches & Hevent).
  destruct (process_patches_tag_counter _ _ _ _ _ _ _ _ s Hpatches)
    as [Htag1 Hcount1].
  pose proof (process_standalone_recommendations_tag_counter all_platforms db
                pc1 (recommended_db_patches ix) evt elem1 s) as [Htag2 Hcount2].
  destruct (process_standalone_recommendations_tag _ _ _ _ _ _)
    as [[pc2 rp2] elem2].
  pose proof (process_components_recommendations_tag_counter all_platforms db
                pc2 rp2 evt elem2 s) as [Htag3 Hcount3].
  destruct (process_components_recommendations_tag _ _ _ _ _ _)
    as [[pc3 rp3] elem3].
  injection Hevent as <-. cbn [fst snd path_counter] in *.
  rewrite Hcount3, Hcount2, Hcount1, Htag2, Htag1.
  unfold SECTIONS in Hs. rewrite !elem_of_cons, elem_of_nil in Hs.
  destruct Hs as [-> | [-> | [-> | []]]]; repeat case_bool_decide; try done; lia.
Qed.

(** X16.  When the run over the events ends without an exception, the counter of
    each section is what it was, plus the number of start events of the
    section, minus the number of its end events. *)
Theorem section_counters_balance {Component : Type}
    (all_platforms : gmap PyStr string)
    (db_release_components : gmap PyStr Component)
    (events : list (string * Element)) (ix : Indices) (s : string) :
  fst (process_events all_platforms db_release_components ix events) = None ->
  s ∈ SECTIONS ->
  count (path_counter
           (snd (process_events all_platforms db_release_components ix events))) s
  = count (path_counter ix) s
    + count_events "start" s events - count_events "end" s events.
Proof.
  revert ix. induction events as [|[evt elem] events IH]; intros ix Hrun Hs.
  { unfold count_events. simpl. lia. }
  cbn [process_events] in *.
  destruct (process_event all_platforms db_release_components ix (evt, elem))
    as [e|ix'] eqn:Hevent; [done|].
  rewrite IH by done.
  rewrite (process_event_counter _ _ _ _ _ _ s Hevent Hs).
  unfold count_events, section_delta. cbn [List.filter fst snd].
  destruct (String.eqb evt "start" && String.eqb (tag elem) s);
    destruct (String.eqb evt "end" && String.eqb (tag elem) s);
    cbn [length]; lia.
Qed.

Lemma section_counters_balance_witness :
  count (path_counter
           (snd (process_events example_platforms example_components
                   (mkIndices ∅ ∅ ∅) example_recommendation_events)))
        "standalone_recommendations"
  = count (path_counter (mkIndices ∅ ∅ ∅)) "standalone_recommendations"
    + count_events "start" "standalone_recommendations"
                   example_recommendation_events
    - count_events "end" "standalone_recommendations"
                   example_recommendation_events.
Proof.
  apply (section_counters_balance example_platforms example_components).
  - by vm_compute.
  - unfold SECTIONS. rewrite !elem_of_cons. tauto.
Defined.

(** ** The patch search *)

Lemma digests_loop_others digests patch_sha :
  Forall other_digest digests ->
  PatchInfo.digests_loop digests patch_sha = Return patch_sha.
Proof.
  induction 1 as [|patch_digest digests (digest_type & Htype & Hother) _ IH];
    [done|].
  simpl. unfold attrib_item. rewrite Htype. simpl.
  by apply String.eqb_neq in Hother as ->.
Qed.

(** The answer of the examples: the second file comes out with the digest
    of the first. *)
Example get_patch_info_example :
  PatchInfo.get_patch_info example_search_root "226" "19"
  = Return [ PatchInfo.mkDownload "https://updates.oracle.com/Orion/Download/p1.zip"
                                  (Some "AA") (Some "p1.zip");
             PatchInfo.mkDownload "https://updates.oracle.com/Orion/Download/p2.zip"
                                  (Some "AA") (Some "p2.zip") ].
Proof. by vm_compute. Qed.

Lemma file_body_describes patch_file downloads patch_sha downloads' patch_sha' :
  PatchInfo.file_body patch_file (downloads, patch_sha)
  = Return (downloads', patch_sha') ->
  exists download,
    downloads' = downloads ++ [download] /\ describes download patch_file.
Proof.
  unfold PatchInfo.file_body. intros Hbody.
  apply bind_Return in Hbody as (host & Hhost & Hbody).
  apply bind_Return in Hhost as (download_url_tag & Htag & Hhost).
  apply bind_Return in Hbody as (path & Hpath & Hbody).
  apply bind_Return in Hbody as (file_name & Hname & Hbody).
  apply bind_Return in Hbody as (sha & _ & Hbody).
  apply bind_Return in Hbody as (full_url & Hurl & Hbody).
  destruct sha as [digest|]; [|done]. injection Hbody as <- _.
  destruct (find "download_url" patch_file) as [tag1|] eqn:Hfind; [|done].
  injection Htag as ->. simpl in Hpath. injection Hpath as <-.
  destruct (find "name" patch_file) as [name_tag|] eqn:Hfindname; [|done].
  simpl in Hname. injection Hname as <-.
  unfold attrib_item in Hhost.
  destruct (attrib download_url_tag !! "host") as [h|] eqn:Hattr; [|done].
  injection Hhost as ->.
  destruct (text download_url_tag) as [p|] eqn:Htext; [|done].
  injection Hurl as <-.
  eexists. split; [done|]. exists download_url_tag, host, p, name_tag. done.
Qed.

Lemma files_loop_describes patch_files : forall downloads patch_sha downloads' patch_sha',
  PatchInfo.files_loop patch_files (downloads, patch_sha)
  = Return (downloads', patch_sha') ->
  exists new, downloads' = downloads ++ new /\ Forall2 describes new patch_files.
Proof.
  induction patch_files as [|patch_file patch_files IH];
    intros downloads patch_sha downloads' patch_sha' Hloop; simpl in Hloop.
  - injection Hloop as <- _. exists []. by rewrite app_nil_r.
  - apply bind_Return in Hloop as ([downloads1 sha1] & Hbody & Hloop).
    apply file_body_describes in Hbody as (download & -> & Hdescribes).
    apply IH in Hloop as (new & -> & Hnew).
    exists (download :: new). rewrite <- app_assoc. split; [done|].
    by constructor.
Qed.

Lemma patch_body_describes platform version patch downloads patch_sha
    downloads' patch_sha' :
  PatchInfo.patch_body platform version patch (downloads, patch_sha)
  = Return (downloads', patch_sha') ->
  exists new,
    downloads' = downloads ++ new
    /\ Forall2 describes new
         (if patch_selected platform version patch
          then from_option (findall "file") [] (find "files" patch) else []).
Proof.
  unfold PatchInfo.patch_body, patch_selected, attrib_item. intros Hbody.
  destruct (find "platform" patch) as [platform_tag|]; [|done]. simpl in Hbody.
  destruct (attrib platform_tag !! "id") as [patch_platform|]; [|done].
  simpl in Hbody.
  destruct (find "release" patch) as [release_tag|]; [|done]. simpl in Hbody.
  destruct (attrib release_tag !! "name") as [patch_version|]; [|done].
  simpl in Hbody.
  destruct (String.eqb patch_platform platform && String.prefix version patch_version).
  - destruct (find "files" patch) as [files|]; [|done]. simpl in *.
    by eapply files_loop_describes.
  - injection Hbody as <- _. exists []. by rewrite app_nil_r.
Qed.

Lemma patches_loop_describes platform version patches :
  forall downloads patch_sha downloads' patch_sha',
    PatchInfo.patches_loop platform version patches (downloads, patch_sha)
    = Return (downloads', patch_sha') ->
    exists new,
      downloads' = downloads ++ new
      /\ Forall2 describes new
           (flat_map (fun patch =>
                        if patch_selected platform version patch
                        then from_option (findall "file") [] (find "files" patch)
                        else [])
                     patches).
Proof.
  induction patches as [|patch patches IH];
    intros downloads patch_sha downloads' patch_sha' Hloop; simpl in Hloop.
  - injection Hloop as <- _. exists []. by rewrite app_nil_r.
  - apply bind_Return in Hloop as ([downloads1 sha1] & Hbody & Hloop).
    apply patch_body_describes in Hbody as (new1 & -> & Hnew1).
    apply IH in Hloop as (new2 & -> & Hnew2).
    exists (new1 ++ new2). rewrite <- app_assoc. split; [done|].
    simpl. by apply Forall2_app.
Qed.

(** [patch_sha] is the text of the last SHA-256 digest met so far: the
    digests [seen] before the loop, then those of the loop. *)
Lemma digests_loop_last digests : forall patch_sha patch_sha' (seen : list Element),
  PatchInfo.digests_loop digests patch_sha = Return patch_sha' ->
  patch_sha = text <$> last seen ->
  patch_sha'
  = text <$> last (seen ++ List.filter
                             (fun patch_digest =>
                                bool_decide (attrib patch_digest !! "type"
                                             = Some "SHA-256"))
                             digests).
Proof.
  induction digests as [|patch_digest digests IH];
    intros patch_sha patch_sha' seen Hloop Hseen; simpl in *.
  { injection Hloop as <-. by rewrite app_nil_r. }
  unfold attrib_item in Hloop.
  destruct (attrib patch_digest !! "type") as [digest_type|] eqn:Htype; [|done].
  simpl in Hloop.
  destruct (String.eqb digest_type "SHA-256") eqn:Hsha.
  - apply String.eqb_eq in Hsha as ->.
    rewrite bool_decide_eq_true_2 by done.
    rewrite (IH _ _ (seen ++ [patch_digest]) Hloop) by by rewrite last_snoc.
    by rewrite <- app_assoc.
  - apply String.eqb_neq in Hsha.
    rewrite bool_decide_eq_false_2 by congruence. by eapply IH.
Qed.

Lemma file_body_digest patch_file downloads patch_sha downloads' patch_sha'
    (seen : list Element) :
  PatchInfo.file_body patch_file (downloads, patch_sha)
  = Return (downloads', patch_sha') ->
  patch_sha = text <$> last seen ->
  exists download,
    downloads' = downloads ++ [download]
    /\ patch_sha' = text <$> last (seen ++ sha256_digests patch_file)
    /\ Some (PatchInfo.sha download) = patch_sha'.
Proof.
  unfold PatchInfo.file_body. intros Hbody Hseen.
  apply bind_Return in Hbody as (host & _ & Hbody).
  apply bind_Return in Hbody as (path & _ & Hbody).
  apply bind_Return in Hbody as (file_name & _ & Hbody).
  apply bind_Return in Hbody as (sha & Hdigests & Hbody).
  apply bind_Return in Hbody as (full_url & _ & Hbody).
  destruct sha as [digest|]; [|done]. injection Hbody as <- <-.
  eexists. split; [done|]. split; [|done].
  by eapply digests_loop_last.
Qed.

Lemma files_loop_digest patch_files :
  forall downloads patch_sha downloads' patch_sha' (seen : list Element),
    PatchInfo.files_loop patch_files (downloads, patch_sha)
    = Return (downloads', patch_sha') ->
    patch_sha = text <$> last seen ->
    exists new,
      downloads' = downloads ++ new
      /\ length new = length patch_files
      /\ patch_sha' = text <$> last (seen ++ flat_map sha256_digests patch_files)
      /\ forall (i : nat) download,
           new !! i = Some download ->
           Some (PatchInfo.sha download)
           = text <$> last (seen ++ flat_map sha256_digests
                                      (take (S i) patch_files)).
Proof.
  induction patch_files as [|patch_file patch_files IH];
    intros downloads patch_sha downloads' patch_sha' seen Hloop Hseen;
    simpl in Hloop.
  - injection Hloop as <- <-. exists []. rewrite !app_nil_r. done.
  - apply bind_Return in Hloop as ([downloads1 sha1] & Hbody & Hloop).
    destruct (file_body_digest _ _ _ _ _ seen Hbody Hseen)
      as (download & -> & Hsha1 & Hdownload).
    destruct (IH _ _ _ _ (seen ++ sha256_digests patch_file) Hloop Hsha1)
      as (new & -> & Hlength & Hsha' & Hnew).
    exists (download :: new). rewrite <- app_assoc. split; [done|].
    split; [simpl; by rewrite Hlength|].
    split; [simpl; by rewrite app_assoc|].
    intros [|i] download' Hi; simpl in Hi.
    + injection Hi as <-. simpl. rewrite app_nil_r. congruence.
    + rewrite (Hnew _ _ Hi). cbn [take flat_map]. by rewrite app_assoc.
Qed.

Lemma patch_body_digest platform version patch downloads patch_sha
    downloads' patch_sha' (seen : list Element) :
  PatchInfo.patch_body platform version patch (downloads, patch_sha)
  = Return (downloads', patch_sha') ->
  patch_sha = text <$> last seen ->
  let patch_files :=
    if patch_selected platform version patch
    then from_option (findall "file") [] (find "files" patch) else [] in
  exists new,
    downloads' = downloads ++ new
    /\ length new = length patch_files
    /\ patch_sha' = text <$> last (seen ++ flat_map sha256_digests patch_files)
    /\ forall (i : nat) download,
         new !! i = Some download ->
         Some (PatchInfo.sha download)
         = text <$> last (seen ++ flat_map sha256_digests
                                    (take (S i) patch_files)).
Proof.
  unfold PatchInfo.patch_body, patch_selected, attrib_item. intros Hbody Hseen.
  destruct (find "platform" patch) as [platform_tag|]; [|done]. simpl in Hbody.
  destruct (attrib platform_tag !! "id") as [patch_platform|]; [|done].
  simpl in Hbody.
  destruct (find "release" patch) as [release_tag|]; [|done]. simpl in Hbody.
  destruct (attrib release_tag !! "name") as [patch_version|]; [|done].
  simpl in Hbody.
  destruct (String.eqb patch_platform platform && String.prefix version patch_version).
  - destruct (find "files" patch) as [files|]; [|done]. simpl in *.
    by eapply files_loop_digest.
  - injection Hbody as <- <-. exists []. simpl. rewrite !app_nil_r. done.
Qed.

Lemma patches_loop_digest platform version patches :
  forall downloads patch_sha downloads' patch_sha' (seen : list Element),
    PatchInfo.patches_loop platform version patches (downloads, patch_sha)
    = Return (downloads', patch_sha') ->
    patch_sha = text <$> last seen ->
    let patch_files :=
      flat_map (fun patch =>
                  if patch_selected platform version patch
                  then from_option (findall "file") [] (find "files" patch)
                  else [])
               patches in
    exists new,
      downloads' = downloads ++ new
      /\ length new = length patch_files
      /\ patch_sha' = text <$> last (seen ++ flat_map sha256_digests patch_files)
      /\ forall (i : nat) download,
           new !! i = Some download ->
           Some (PatchInfo.sha download)
           = text <$> last (seen ++ flat_map sha256_digests
                                      (take (S i) patch_files)).
Proof.
  induction patches as [|patch patches IH];
    intros downloads patch_sha downloads' patch_sha' seen Hloop Hseen;
    simpl in Hloop.
  - injection Hloop as <- <-. exists []. simpl. rewrite !app_nil_r. done.
  - apply bind_Return in Hloop as ([downloads1 sha1] & Hbody & Hloop).
    destruct (patch_body_digest _ _ _ _ _ _ _ seen Hbody Hseen)
      as (new1 & -> & Hlength1 & Hsha1 & Hnew1).
    destruct (IH _ _ _ _ _ Hloop Hsha1) as (new2 & -> & Hlength2 & Hsha' & Hnew2).
    exists (new1 ++ new2). rewrite <- app_assoc. split; [done|].
    cbn [flat_map].
    set (files1 := if patch_selected platform version patch
                   then from_option (findall "file") [] (find "files" patch)
                   else []) in *.
    split; [by rewrite !length_app, Hlength1, Hlength2|].
    split; [by rewrite flat_map_app, app_assoc|].
    intros i download Hi.
    apply lookup_app_Some in Hi as [Hi|[Hge Hi]].
    + rewrite (Hnew1 _ _ Hi). apply lookup_lt_Some in Hi.
      rewrite take_app_le by lia. done.
    + rewrite (Hnew2 _ _ Hi).
      rewrite take_app_ge by lia.
      rewrite flat_map_app, app_assoc.
      replace (S i - length files1)%nat with (S (i - length new1)) by lia.
      done.
Qed.

(** X17.  When [get_patch_info] returns, the digest of each entry is the
    text of the last [digest] element of type SHA-256 among those of the
    selected [file] elements up to its own, in document order: the file's
    own last one when it has one, and otherwise the one of the nearest file
    before it that has one, be it a file of an earlier patch.  So the first
    selected file has such a digest whenever [get_patch_info] returns. *)
Theorem get_patch_info_inherited_digest root platform version downloads :
  PatchInfo.get_patch_info root platform version = Return downloads ->
  (forall (i : nat) download,
     downloads !! i = Some download ->
     exists patch_digest,
       last (flat_map sha256_digests
               (take (S i) (selected_files root platform version)))
       = Some patch_digest
       /\ PatchInfo.sha download = text patch_digest)
  /\ (forall patch_file rest,
        selected_files root platform version = patch_file :: rest ->
        sha256_digests patch_file <> []).
Proof.
  unfold PatchInfo.get_patch_info. intros Hinfo.
  apply fmap_Return in Hinfo as ([downloads' sha] & Hloop & ->).
  destruct (patches_loop_digest _ _ _ _ _ _ _ [] Hloop eq_refl)
    as (new & -> & Hlength & _ & Hnew).
  fold (selected_files root platform version) in *. simpl in *.
  assert (forall (i : nat) download,
            new !! i = Some download ->
            exists patch_digest,
              last (flat_map sha256_digests
                      (take (S i) (selected_files root platform version)))
              = Some patch_digest
              /\ PatchInfo.sha download = text patch_digest) as Hdigest.
  { intros i download Hi. specialize (Hnew _ _ Hi).
    destruct (last _) as [patch_digest|]; [|done].
    exists patch_digest. split; [done|]. simpl in Hnew. congruence. }
  split; [done|].
  intros patch_file rest Hfiles Hnone.
  rewrite Hfiles in Hlength.
  destruct new as [|download new]; [done|].
  destruct (Hdigest 0%nat download eq_refl) as (patch_digest & Hlast & _).
  rewrite Hfiles in Hlast. simpl in Hlast.
  rewrite app_nil_r, Hnone in Hlast. done.
Qed.

Lemma get_patch_info_inherited_digest_witness :
  let downloads :=
    [ PatchInfo.mkDownload "https://updates.oracle.com/Orion/Download/p1.zip"
                           (Some "AA") (Some "p1.zip");
      PatchInfo.mkDownload "https://updates.oracle.com/Orion/Download/p3.zip"
                           (Some "AA") (Some "p3.zip") ] in
  (forall (i : nat) download,
     downloads !! i = Some download ->
     exists patch_digest,
       last (flat_map sha256_digests
               (take (S i) (selected_files example_search_two_patches "226" "19")))
       = Some patch_digest
       /\ PatchInfo.sha download = text patch_digest)
  /\ (forall patch_file rest,
        selected_files example_search_two_patches "226" "19" = patch_file :: rest ->
        sha256_digests patch_file <> []).
Proof.
  intros downloads.
  apply (get_patch_info_inherited_digest example_search_two_patches "226" "19").
  by vm_compute.
Defined.

(** X18.  When [get_patch_info] returns, its list has one entry for each [file]
    element of the patches that are for the platform asked for and whose
    release name starts with the version asked for, in document order:
    the URL is the host and the path of the file, the name its name. *)
Theorem get_patch_info_selected root platform version downloads :
  PatchInfo.get_patch_info root platform version = Return downloads ->
  Forall2 describes downloads (selected_files root platform version).
Proof.
  unfold PatchInfo.get_patch_info. intros Hinfo.
  apply fmap_Return in Hinfo as ([downloads' sha] & Hloop & ->).
  apply patches_loop_describes in Hloop as (new & -> & Hnew). done.
Qed.

Lemma get_patch_info_selected_witness :
  Forall2 describes
    [ PatchInfo.mkDownload "https://updates.oracle.com/Orion/Download/p1.zip"
                           (Some "AA") (Some "p1.zip");
      PatchInfo.mkDownload "https://updates.oracle.com/Orion/Download/p2.zip"
                           (Some "AA") (Some "p2.zip") ]
    (selected_files example_search_root "226" "19").
Proof.
  apply (get_patch_info_selected example_search_root "226" "19").
  by vm_compute.
Defined.

(** ** Downloading the files of a patch *)

Section DownloadPatchFilesFacts.
Context {T Dirs : Type}.
Variable requests_get : string -> option Response.
Variable mkdir : string -> Disk -> Dirs -> result Dirs.
Implicit Types (w : Effects T) (files : list PatchInfo.Download) (dirs : Dirs).

Lemma download_files_loop_dry_run progress_function dldir files :
  forall bytes_downloaded w dirs,
    snd (fst (download_files_loop requests_get progress_function true mkdir
                dldir files bytes_downloaded w dirs)) = w
    /\ (all_answered requests_get files ->
        match mkdir_times mkdir (length files) dldir (disk w) dirs with
        | Return dirs' =>
            download_files_loop requests_get progress_function true mkdir
              dldir files bytes_downloaded w dirs
            = (Return (bytes_downloaded + declared_total requests_get files),
               w, dirs')
        | Raise e =>
            fst (fst (download_files_loop requests_get progress_function true
                        mkdir dldir files bytes_downloaded w dirs))
            = Raise e
        end).
Proof.
  induction files as [|file files IH]; intros bytes_downloaded w dirs.
  { split; [done|]. intros _. simpl. repeat f_equal. lia. }
  cbn [download_files_loop mkdir_times length].
  destruct (mkdir dldir (disk w) dirs) as [e|dirs1]; [done|]. simpl.
  unfold download_link.
  destruct (requests_get (PatchInfo.url file)) as [resp|] eqn:Hget.
  - destruct (IH (bytes_downloaded + default 0 (content_length resp)) w dirs1)
      as [Hw Htotal].
    split; [done|]. intros Hall. inversion Hall; subst.
    specialize (Htotal ltac:(done)).
    destruct (mkdir_times mkdir (length files) dldir (disk w) dirs1); [done|].
    rewrite Htotal. simpl. unfold declared_size. rewrite Hget.
    do 3 f_equal. lia.
  - split; [done|]. intros Hall. inversion Hall as [|? ? [resp Hresp]]; subst.
    congruence.
Qed.


End DownloadPatchFilesFacts.

(** X19.  In dry-run mode [download_patch_files] writes no file, calls no
    callback and reads no body, whatever the answers are, but the directory
    of the patch is made all the same, once for every file of the list.
    When the search answers with a list of files and the server answers
    for each of them, the call returns the sum of their declared sizes if
    every [mkdir] returns, with the directories the last of them leaves,
    and ends with the exception of the first [mkdir] that raises. *)
Theorem download_patch_files_dry_run {T Dirs} requests_get
    (progress_function : option (string -> Z -> Z -> T))
    (mkdir : string -> Disk -> Dirs -> result Dirs) search
    target_dir number platform version subdir (w : Effects T) (dirs : Dirs) :
  let out :=
    download_patch_files requests_get progress_function true mkdir search
                         target_dir number platform version subdir w dirs in
  snd (fst out) = w
  /\ (forall root files,
        search number = Some root ->
        PatchInfo.get_patch_info root platform version = Return files ->
        all_answered requests_get files ->
        match mkdir_times mkdir (length files)
                          (os_path_join target_dir subdir) (disk w) dirs with
        | Return dirs' =>
            out = (Return (declared_total requests_get files), w, dirs')
        | Raise e => fst (fst out) = Raise e
        end).
Proof.
  intros out. subst out. unfold download_patch_files. split.
  - destruct (search number) as [root|]; [|done].
    destruct (PatchInfo.get_patch_info root platform version); [done|].
    apply download_files_loop_dry_run.
  - intros root files -> -> Hall.
    apply (proj2 (download_files_loop_dry_run requests_get mkdir
                    progress_function _ files 0 w dirs) Hall).
Qed.


Lemma download_patch_files_dry_run_witness :
  let requests_get :=
    fun _ : string => Some (mkResponse (Some 3) [list_byte_of_string "abc"]) in
  let search := fun _ : string => Some example_search_root in
  download_patch_files (T := unit) requests_get None true example_mkdir search
    "/patches" "35943157" "226" "19" "db" (mkEffects ∅ [] 0%nat) []
  = (Return 6, mkEffects ∅ [] 0%nat, ["/patches/db"; "/patches/db"]).
Proof.
  intros requests_get search.
  apply (proj2 (download_patch_files_dry_run (T := unit) requests_get None
                  example_mkdir search "/patches" "35943157" "226" "19" "db"
                  (mkEffects ∅ [] 0%nat) [])
               example_search_root
               [ PatchInfo.mkDownload
                   "https://updates.oracle.com/Orion/Download/p1.zip"
                   (Some "AA") (Some "p1.zip");
                 PatchInfo.mkDownload
                   "https://updates.oracle.com/Orion/Download/p2.zip"
                   (Some "AA") (Some "p2.zip") ]).
  - reflexivity.
  - reflexivity.
  - repeat constructor; eexists; reflexivity.
Defined.


(** The files of the examples: both are transferred although the digest of
    neither matches, and the total counts neither. *)
Example download_patch_files_example :
  let out :=
    download_patch_files
      (fun _ => Some (mkResponse (Some 3) [list_byte_of_string "abc"]))
      (Some (fun file_name file_size total => (file_name, file_size, total)))
      false example_mkdir (fun _ => Some example_search_root)
      "/patches" "35943157" "226" "19" "db" (mkEffects ∅ [] 0%nat) [] in
  fst (fst out) = Return 0
  /\ disk (snd (fst out)) !! "/patches/db/p1.zip" = Some (list_byte_of_string "abc")
  /\ disk (snd (fst out)) !! "/patches/db/p2.zip" = Some (list_byte_of_string "abc")
  /\ progress_calls (snd (fst out)) = [("p1.zip", 3, 3); ("p2.zip", 3, 3)]
  /\ snd out = ["/patches/db"; "/patches/db"].
Proof. by vm_compute. Qed.

(** A file in the way: [mkdir] raises, in dry-run mode as well, and the
    call ends before the first file is looked at. *)
Example download_patch_files_mkdir_raises :
  let mkdir := fun (dldir : string) (d : Disk) (dirs : list string) =>
                 if bool_decide (is_Some (d !! dldir))
                 then Raise FileExistsError else Return (dldir :: dirs) in
  let w : Effects unit :=
    mkEffects {[ "/patches/db" := list_byte_of_string "abc" ]} [] 0%nat in
  download_patch_files
    (fun _ => Some (mkResponse (Some 3) [list_byte_of_string "abc"]))
    None true mkdir (fun _ => Some example_search_root)
    "/patches" "35943157" "226" "19" "db" w []
  = (Raise FileExistsError, w, []).
Proof. by vm_compute. Qed.

(** ** More on directory names *)

Lemma sub_underscore_at_end_name_chars s :
  all_name_chars s = true -> all_name_chars (sub_underscore_at_end s) = true.
Proof.
  induction s as [|c s IH]; intros Hs; [done|]. simpl in *.
  apply andb_prop in Hs as [Hc Hs].
  destruct (Ascii.eqb c "_" && _); simpl; [by apply IH|].
  by rewrite Hc, IH.
Qed.

Lemma sub_underscore_at_start_name_chars s :
  all_name_chars s = true -> all_name_chars (sub_underscore_at_start s) = true.
Proof.
  destruct s as [|c s]; [done|]. simpl. intros [Hc Hs]%andb_prop.
  destruct (Ascii.eqb c "_"); simpl; [done|]. by rewrite Hc, Hs.
Qed.

(** X21.  A normalised name is made of letters, digits, underscores, dots and
    hyphens only, whatever the name was: no slash, no space, no newline. *)
Theorem normalize_directory_name_chars orig_name :
  all_name_chars (normalize_directory_name orig_name) = true.
Proof.
  unfold normalize_directory_name.
  apply sub_underscore_at_start_name_chars, sub_underscore_at_end_name_chars,
    sub_other_chars_name_chars.
Qed.

Lemma sub_other_chars_id s :
  all_name_chars s = true -> sub_other_chars false s = s.
Proof.
  induction s as [|c s IH]; intros Hs; [done|]. simpl in *.
  apply andb_prop in Hs as [-> Hs]. by rewrite IH.
Qed.

Lemma drop_trailing_underscore_id s :
  ends_with "_" s = false -> drop_trailing_underscore s = s.
Proof.
  induction s as [|c s IH]; intros Hs; [done|].
  cbn [ends_with] in Hs. apply orb_false_elim in Hs as [Hlast Hs].
  cbn [drop_trailing_underscore]. destruct s as [|c' s].
  - destruct (Ascii.eqb_spec c "_") as [->|]; [done|done].
  - by rewrite IH.
Qed.

(** X22.  A name that is made of letters, digits, underscores, dots and hyphens
    and neither starts nor ends with an underscore is left as it is. *)
Theorem normalize_directory_name_clean orig_name :
  all_name_chars orig_name = true ->
  String.prefix "_" orig_name = false ->
  ends_with "_" orig_name = false ->
  normalize_directory_name orig_name = orig_name.
Proof.
  intros Hchars Hstart Hend. unfold normalize_directory_name.
  rewrite sub_other_chars_id by done.
  rewrite sub_underscore_at_end_drop, drop_trailing_underscore_id by done.
  destruct orig_name as [|c s]; [done|]. simpl in *.
  destruct (Ascii.eqb_spec c "_") as [->|]; [|done].
  by destruct s.
Qed.

Lemma normalize_directory_name_clean_witness :
  normalize_directory_name "Linux_x86-64" = "Linux_x86-64".
Proof.
  exact (normalize_directory_name_clean "Linux_x86-64" eq_refl eq_refl eq_refl).
Defined.

(** ** The platform codes *)

Section PlatformsFacts.
Variable strip : string -> string.
Variable wanted_platforms : list string.

Lemma wanted_platform_codes_entries tags : forall platforms result_platforms,
  wanted_platform_codes strip wanted_platforms tags platforms
  = Return result_platforms ->
  forall platform_id platform_name,
    result_platforms !! platform_id = Some platform_name ->
    platforms !! platform_id = Some platform_name
    \/ (platform_name ∈ wanted_platforms
        /\ exists platform_tag,
             platform_tag ∈ tags
             /\ get "id" platform_tag = platform_id
             /\ strip <$> text platform_tag = Some platform_name).
Proof.
  induction tags as [|platform_tag tags IH];
    intros platforms result_platforms Hcodes platform_id platform_name Hentry.
  { injection Hcodes as <-. by left. }
  cbn [wanted_platform_codes] in Hcodes. unfold stripped_text in Hcodes.
  destruct (text platform_tag) as [content|] eqn:Htext; [|done].
  simpl in Hcodes. case_bool_decide as Hwanted.
  - destruct (IH _ _ Hcodes _ _ Hentry) as [Hold | (Hin & tag' & Htag' & Hrest)].
    + rewrite lookup_insert in Hold. case_decide as Hid.
      * injection Hold as <-. right. split; [done|].
        exists platform_tag. rewrite Htext. set_solver.
      * by left.
    + right. split; [done|]. exists tag'. set_solver.
  - destruct (IH _ _ Hcodes _ _ Hentry) as [Hold | (Hin & tag' & Htag' & Hrest)].
    + by left.
    + right. split; [done|]. exists tag'. set_solver.
Qed.

(** The comprehension of [__build_dict_platform_codes], started on the
    wanted entries of some codes, ends on the wanted entries of what the
    comprehension of [list_platforms] makes of these codes, when the ids of
    the tags are distinct and not among the codes yet. *)
Lemma platform_codes_filter tags : forall all_codes wanted_codes result_codes,
  NoDup (get "id" <$> tags) ->
  (forall platform_tag, platform_tag ∈ tags ->
                        all_codes !! get "id" platform_tag = None) ->
  wanted_codes = filter (wanted_entry wanted_platforms) all_codes ->
  all_platform_codes strip tags all_codes = Return result_codes ->
  wanted_platform_codes strip wanted_platforms tags wanted_codes
  = Return (filter (wanted_entry wanted_platforms) result_codes).
Proof.
  induction tags as [|platform_tag tags IH];
    intros all_codes wanted_codes result_codes Hnodup Hfresh -> Hall.
  { by injection Hall as <-. }
  rewrite fmap_cons in Hnodup. apply NoDup_cons in Hnodup as [Hnew Hnodup].
  cbn [all_platform_codes wanted_platform_codes] in *.
  unfold stripped_text in *.
  destruct (text platform_tag) as [content|] eqn:Htext; [|done]. simpl in *.
  assert (forall platform_tag', platform_tag' ∈ tags ->
            <[get "id" platform_tag := strip content]> all_codes
            !! get "id" platform_tag' = None) as Hfresh'.
  { intros tag' Htag'. rewrite lookup_insert_ne.
    - apply Hfresh. by right.
    - intros Hsame. apply Hnew. rewrite Hsame. apply list_elem_of_fmap. eauto. }
  case_bool_decide as Hwanted.
  - apply (IH _ _ _ Hnodup Hfresh'); [|done].
    by rewrite map_filter_insert_True.
  - apply (IH _ _ _ Hnodup Hfresh'); [|done].
    rewrite map_filter_insert_False by done.
    rewrite delete_id; [done|]. apply Hfresh. by left.
Qed.
End PlatformsFacts.

(** X23.  Every entry of the platform codes [__build_dict_platform_codes] gives
    has a wanted name, the stripped text of a [platform] child of the root
    that has the code as its id. *)
Theorem build_dict_platform_codes_wanted strip wanted_platforms root platforms :
  build_dict_platform_codes strip wanted_platforms root = Return platforms ->
  forall platform_id platform_name,
    platforms !! platform_id = Some platform_name ->
    platform_name ∈ wanted_platforms
    /\ exists platform_tag,
         platform_tag ∈ children root
         /\ tag platform_tag = "platform"
         /\ get "id" platform_tag = platform_id
         /\ strip <$> text platform_tag = Some platform_name.
Proof.
  unfold build_dict_platform_codes. intros Hcodes platform_id platform_name Hentry.
  destruct (wanted_platform_codes_entries _ _ _ _ _ Hcodes _ _ Hentry)
    as [Hempty | (Hwanted & platform_tag & Htag & Hid & Htext)].
  { by rewrite lookup_empty in Hempty. }
  split; [done|]. exists platform_tag.
  unfold iterfind_platform in Htag. apply list_elem_of_In in Htag.
  apply filter_In in Htag as [Hchild Hname].
  apply String.eqb_eq in Hname. apply list_elem_of_In in Hchild. done.
Qed.

(** X24.  When no two [platform] elements have the same id and [list_platforms]
    returns, [__build_dict_platform_codes] returns the same codes
    restricted to the wanted names. *)
Theorem build_dict_platform_codes_filter strip wanted_platforms root all_codes :
  NoDup (get "id" <$> iterfind_platform root) ->
  list_platforms strip root = Return all_codes ->
  build_dict_platform_codes strip wanted_platforms root
  = Return (filter (wanted_entry wanted_platforms) all_codes).
Proof.
  unfold list_platforms, build_dict_platform_codes. intros Hnodup Hall.
  by apply (platform_codes_filter strip wanted_platforms _ ∅).
Qed.

Lemma build_dict_platform_codes_wanted_witness :
  "Linux x86-64" ∈ ["Linux x86-64"]
  /\ exists platform_tag,
       platform_tag ∈ children example_platforms_root
       /\ tag platform_tag = "platform"
       /\ get "id" platform_tag = Some "226"
       /\ strip_ascii <$> text platform_tag = Some "Linux x86-64".
Proof.
  apply (build_dict_platform_codes_wanted strip_ascii ["Linux x86-64"]
           example_platforms_root {[ Some "226" := "Linux x86-64" ]}).
  - by vm_compute.
  - reflexivity.
Defined.

Lemma build_dict_platform_codes_filter_witness :
  build_dict_platform_codes strip_ascii ["Linux x86-64"] example_platforms_root
  = Return (filter (wanted_entry ["Linux x86-64"])
              ({[ Some "226" := "Linux x86-64";
                  Some "233" := "Microsoft Windows x64 (64-bit)";
                  Some "23" := "Oracle Solaris on SPARC (64-bit)" ]}
               : gmap PyStr string)).
Proof.
  apply (build_dict_platform_codes_filter strip_ascii ["Linux x86-64"]
           example_platforms_root).
  - vm_compute. repeat constructor; set_solver.
  - by vm_compute.
Defined.

(** With the same id on two [platform] elements the restriction fails: the
    wanted name of the first stays in the one dictionary and is replaced
    by the name of the second in the other. *)
Example build_dict_platform_codes_same_id :
  let root :=
    mkElement "platforms" ∅ None
      [ leaf "platform" {[ "id" := "226" ]} (Some "Linux x86-64");
        leaf "platform" {[ "id" := "226" ]} (Some "Linux x86") ] in
  build_dict_platform_codes strip_ascii ["Linux x86-64"] root
  = Return {[ Some "226" := "Linux x86-64" ]}
  /\ list_platforms strip_ascii root = Return {[ Some "226" := "Linux x86" ]}.
Proof. by vm_compute. Qed.
